(** * Lab 1: synthetic intrusion records, loader and two report views

    A shallow embedding of [lab1.py].  The script draws random records,
    writes them to a delimited file, reads the file back, derives a
    two-valued category and computes two aggregates that it charts.

    Layout of the development:
    - [Py]: the Python side: values, exceptions, the world the script
      acts on (entropy, the data file, the objects it allocates, the
      console) and a state-and-exception monad over it;
    - [Pd]: the table operations the script calls, as functions on frames;
    - the script's constants and functions, under their own names;
    - the vocabulary of the properties (declared policies, observations,
      sample inputs);
    - lemmas on the library model, on the execution of each function, and
      the properties themselves. *)

From stdpp Require Import base list strings numbers gmap sorting.
From Stdlib Require Import ZArith QArith Qround Lia.

#[local] Open Scope nat_scope.

(* ================================================================== *)
(** ** Python values and the script's world *)
(* ================================================================== *)

Module Py.

(** A character string, seen through the eyes of the delimited-file
    reader: what matters about a piece of text is whether it spells an
    integer, a decimal number, nothing at all, or something else.  The
    spelling of a number (leading zeros, exponent form, digits kept) is
    abstracted to the number it denotes, a fraction in lowest terms.  For
    [Other s] the characters [s] are kept; [s] is understood not to spell
    a number or a missing-value marker.  Further kinds of text a reader may
    tell apart (truth values, numbers too large for a machine integer) are
    not; they count as [Other]. *)
Inductive text :=
  | Digits (z : Z)
  | Decimal (q : Q)
  | Other (s : string)
  | Blank.

(** The content of one table cell: an [int], a finite [float] (as the
    fraction in lowest terms it denotes), a [str], or the missing value. *)
Inductive cell :=
  | VInt (z : Z)
  | VFloat (q : Q)
  | VStr (t : text)
  | VNaN.

(** Column labels: names, or the positions a header-less read assigns. *)
Inductive label :=
  | Name (s : string)
  | Num (n : nat).

#[global] Instance Q_eq_dec : EqDecision Q.
Proof. solve_decision. Defined.
#[global] Instance text_eq_dec : EqDecision text.
Proof. solve_decision. Defined.
#[global] Instance cell_eq_dec : EqDecision cell.
Proof. solve_decision. Defined.
#[global] Instance label_eq_dec : EqDecision label.
Proof. solve_decision. Defined.

Coercion Name : string >-> label.

(** A string literal of the script, as a cell. *)
Definition str (s : string) : cell := VStr (Other s).

(** A frame: column labels and, per row, its index label and its cells. *)
Record DataFrame := mkDF {
  columns : list label;
  body : list (Z * list cell)
}.

(** A column taken out of a frame keeps the index labels. *)
Definition Series (A : Type) := list (Z * A).

Inductive exn :=
  | FileNotFoundError
  | EmptyDataError
  | ParserError
  | ValueError
  | KeyError
  | IndexError
  | TypeError
  | RuntimeError.

Inductive outcome (A : Type) :=
  | Done (a : A)
  | Raise (e : exn).
Arguments Done {A} a.
Arguments Raise {A} e.

(** What the script prints or shows. *)
Inductive event :=
  | SayGenerating (n : Z)
  | SaySaved (shape : nat * nat)
  | SayHeadTitle
  | SayHead (preview : DataFrame)
  | SaySize (shape : nat * nat)
  | SayDistributionTitle
  | SayDistribution (counts : list (cell * nat))
  | SayNoAttacks
  | SayNoTrend
  | SayComplete
  | SayError (e : exn)
  | SayHint
  | BarChart (bars : list (cell * nat))
  | LineChart (points : list (cell * nat)).

(** A delimited file: one list of fields per line, as the reader splits
    it.  A line without any field is an empty line. *)
Definition csv := list (list text).

(** The world: the entropy the random module will hand out, the files
    on disk by path, the frames allocated so far (a frame is
    an object; a variable holds its address) and the console. *)
Record world := World {
  rng : nat -> N;
  disk : gmap string csv;
  heap : list DataFrame;
  console : list event
}.

Definition M (A : Type) : Type := world -> world * outcome A.

Definition ret {A} (a : A) : M A := fun w => (w, Done a).
Definition raise {A} (e : exn) : M A := fun w => (w, Raise e).
Definition bind {A B} (m : M A) (k : A -> M B) : M B :=
  fun w => match m w with
           | (w', Done a) => k a w'
           | (w', Raise e) => (w', Raise e)
           end.
Definition lift {A} (o : outcome A) : M A := fun w => (w, o).

(** [try: m except Exception as e: h e]. *)
Definition try_except {A} (m : M A) (h : exn -> M A) : M A :=
  fun w => match m w with
           | (w', Done a) => (w', Done a)
           | (w', Raise e) => h e w'
           end.

(** [try: m finally: f]: [f] runs whichever way [m] ends; an exception
    of [f] takes the place of the outcome of [m]. *)
Definition try_finally {A} (m : M A) (f : M unit) : M A :=
  fun w => match m w with
           | (w', r) => match f w' with
                        | (w'', Done _) => (w'', r)
                        | (w'', Raise e) => (w'', Raise e)
                        end
           end.

Notation "'let*' x ':=' m 'in' k" := (bind m (fun x => k))
  (at level 10, x name, m at level 100, k at level 200).
Notation "m ';;' k" := (bind m (fun _ => k))
  (at level 100, k at level 200, right associativity).

Definition print (e : event) : M unit :=
  fun w => (World (rng w) (disk w) (heap w) (console w ++ [e]), Done tt).

(** *** Objects *)

Definition alloc (df : DataFrame) : M nat :=
  fun w => (World (rng w) (disk w) (heap w ++ [df]) (console w),
            Done (length (heap w))).

Definition deref (l : nat) : M DataFrame :=
  fun w => match heap w !! l with
           | Some df => (w, Done df)
           | None => (w, Raise RuntimeError)
           end.

Definition assign (l : nat) (df : DataFrame) : M unit :=
  fun w => (World (rng w) (disk w) (<[l := df]> (heap w)) (console w), Done tt).

(** *** The data file *)

Definition write_file (path : string) (f : csv) : M unit :=
  fun w => (World (rng w) (<[path := f]> (disk w)) (heap w) (console w),
            Done tt).

Definition read_file (path : string) : M csv :=
  fun w => match disk w !! path with
           | Some f => (w, Done f)
           | None => (w, Raise FileNotFoundError)
           end.

(** [os.path.exists(path)]. *)
Definition path_exists (path : string) : M bool :=
  fun w => (w, Done (bool_decide (is_Some (disk w !! path)))).

(** *** The random module

    Each call consumes one number of the entropy; which number comes
    next is not under the script's control. *)

Definition draw : M N :=
  fun w => (World (fun i => rng w (S i)) (disk w) (heap w) (console w),
            Done (rng w 0)).

(** [random.random()]: a multiple of 2^-53 in the unit interval. *)
Definition random_random : M Q :=
  let* k := draw in
  ret (Qred (Z.of_N (k mod 2 ^ 53) # 2 ^ 53)).

(** [random.randint(a, b)]: [a] plus a number below [b - a + 1]. *)
Definition randint (a b : Z) : M Z :=
  let* k := draw in
  ret (a + Z.of_N k mod (b - a + 1))%Z.

(** [random.choice(seq)]. *)
Definition choice {A} (seq : list A) : M A :=
  let* k := draw in
  match seq !! N.to_nat (k mod N.of_nat (length seq)) with
  | Some x => ret x
  | None => raise IndexError
  end.

End Py.
Export Py.

(* ================================================================== *)
(** ** The table operations the script calls *)
(* ================================================================== *)

Module Pd.

(** The default index of a new frame: row positions from zero. *)
Definition range_index {A} (rows : list A) : list (Z * A) :=
  imap (fun i r => (Z.of_nat i, r)) rows.

(** [pd.DataFrame(data, columns=names)]. *)
Definition DataFrame_of (data : list (list cell)) (names : list label)
  : outcome DataFrame :=
  if forallb (fun r => length r =? length names) data
  then Done (mkDF names (range_index data))
  else Raise ValueError.

Definition len (df : DataFrame) : nat := length (body df).
Definition shape (df : DataFrame) : nat * nat :=
  (length (body df), length (columns df)).

(** The text a cell is written as. *)
Definition cell_text (v : cell) : text :=
  match v with
  | VInt z => Digits z
  | VFloat q => Decimal q
  | VStr t => t
  | VNaN => Blank
  end.

(** [df.to_csv(path, index=False, header=False)]: one line per row. *)
Definition to_csv (df : DataFrame) : csv :=
  map (fun r => map cell_text (snd r)) (body df).

(** *** Reading a header-less file

    Empty lines are skipped.  Nothing left: [EmptyDataError].  The first
    record fixes the width; a longer later record is a [ParserError], a
    shorter one is filled up with missing fields.  Each column then gets
    the narrowest type all its fields fit: integers, else numbers (a
    missing field fits), else strings. *)

Inductive dtype := int64 | float64 | object.

Definition nonblank (line : list text) : bool :=
  match line with [] => false | _ => true end.

Definition pad (w : nat) (r : list text) : list text :=
  r ++ replicate (w - length r) Blank.

Definition is_digits (t : text) : bool :=
  match t with Digits _ => true | _ => false end.

Definition is_numeric (t : text) : bool :=
  match t with Other _ => false | _ => true end.

Definition infer (col : list text) : dtype :=
  if forallb is_digits col then int64
  else if forallb is_numeric col then float64
  else object.

(** The double an integer reads as: itself while 53 bits hold it;
    beyond, its leading 53 bits, the rest rounded to the nearest with
    ties to the even side.  (A double's exponent range is left out:
    [VFloat] has no infinity, which an integer of more than 308 digits
    would read as.) *)
Definition nearest_float (z : Z) : Z :=
  let m := Z.abs z in
  let e := (Z.log2 m - 52)%Z in
  if (e <=? 0)%Z then z
  else
    let q := (m / 2 ^ e)%Z in
    let r := (m mod 2 ^ e)%Z in
    let half := (2 ^ (e - 1))%Z in
    let up := if (r <? half)%Z then false
              else if (half <? r)%Z then true
              else negb (Z.even q) in
    (Z.sgn z * ((if up then q + 1 else q) * 2 ^ e))%Z.

(** A field as a cell of a column of the given type.  In a column of
    numbers a run of digits is read as a double. *)
Definition convert (d : dtype) (t : text) : cell :=
  match d, t with
  | int64, Digits z => VInt z
  | float64, Digits z => VFloat (inject_Z (nearest_float z))
  | float64, Decimal q => VFloat q
  | object, Blank => VNaN
  | object, t => VStr t
  | _, _ => VNaN
  end.

Definition field (j : nat) (r : list text) : text := nth j r Blank.

Definition read_csv (lines : csv) : outcome DataFrame :=
  match List.filter nonblank lines with
  | [] => Raise EmptyDataError
  | first :: rest =>
      let w := length first in
      if forallb (fun r => length r <=? w) rest then
        let recs := map (pad w) (first :: rest) in
        let dts := map (fun j => infer (map (field j) recs)) (seq 0 w) in
        Done (mkDF (map Num (seq 0 w))
                   (range_index (map (zip_with convert dts) recs)))
      else Raise ParserError
  end.

(** [df.columns = names]. *)
Definition set_columns (df : DataFrame) (names : list label)
  : outcome DataFrame :=
  if length names =? length (columns df)
  then Done (mkDF names (body df))
  else Raise ValueError.

(** [df.head(n)]. *)
Definition head (n : nat) (df : DataFrame) : DataFrame :=
  mkDF (columns df) (take n (body df)).

(** *** Columns *)

Fixpoint position (c : label) (cols : list label) : option nat :=
  match cols with
  | [] => None
  | x :: cols' => if decide (x = c) then Some 0 else S <$> position c cols'
  end.

(** [df[c]]. *)
Definition getitem (df : DataFrame) (c : label) : outcome (Series cell) :=
  match position c (columns df) with
  | Some j => Done (map (fun r => (fst r, nth j (snd r) VNaN)) (body df))
  | None => Raise KeyError
  end.

Definition put (j : option nat) (v : cell) (r : list cell) : list cell :=
  match j with
  | Some j => <[j := v]> r
  | None => r ++ [v]
  end.

(** [df[c] = vals] for a plain sequence: by position, lengths must agree.
    An existing column is overwritten, a new one goes last. *)
Definition setitem_values (df : DataFrame) (c : label) (vals : list cell)
  : outcome DataFrame :=
  if length vals =? len df then
    let j := position c (columns df) in
    Done (mkDF (match j with Some _ => columns df | None => columns df ++ [c] end)
               (zip_with (fun r v => (fst r, put j v (snd r))) (body df) vals))
  else Raise ValueError.

(** The value a labelled sequence holds at an index label. *)
Fixpoint at_label {A} (i : Z) (s : Series A) : option A :=
  match s with
  | [] => None
  | (k, v) :: s' => if decide (k = i) then Some v else at_label i s'
  end.

(** [df[c] = s] for a series: by index label; labels the series lacks
    get the missing value. *)
Definition setitem (df : DataFrame) (c : label) (s : Series cell)
  : outcome DataFrame :=
  setitem_values df c
    (map (fun r => default VNaN (at_label (fst r) s)) (body df)).

(** [s.apply(f)]. *)
Definition apply {A B} (f : A -> B) (s : Series A) : Series B :=
  map (fun p => (fst p, f (snd p))) s.

(** [s == v]. *)
Definition eq_mask (s : Series cell) (v : cell) : Series bool :=
  apply (fun x => bool_decide (x = v)) s.

(** [df[mask]]: the rows whose label the mask marks. *)
Definition select (df : DataFrame) (mask : Series bool) : DataFrame :=
  mkDF (columns df)
       (List.filter (fun r => default false (at_label (fst r) mask)) (body df)).

(** [s // n] on a column. *)
Definition floordiv_cell (n : Z) (v : cell) : outcome cell :=
  match v with
  | VInt z => Done (VInt (z / n))
  | VFloat q => Done (VFloat (inject_Z (Qfloor (q / inject_Z n))))
  | VNaN => Done VNaN
  | VStr _ => Raise TypeError
  end.

Fixpoint floordiv (s : Series cell) (n : Z) : outcome (Series cell) :=
  match s with
  | [] => Done []
  | (i, v) :: s' =>
      match floordiv_cell n v, floordiv s' n with
      | Done v', Done r => Done ((i, v') :: r)
      | Raise e, _ => Raise e
      | _, Raise e => Raise e
      end
  end.

(** *** Counting *)

(** One more occurrence of [k]: a known key is incremented in place, a
    new key goes last. *)
Fixpoint bump (k : cell) (acc : list (cell * nat)) : list (cell * nat) :=
  match acc with
  | [] => [(k, 1)]
  | (k', n) :: acc' =>
      if decide (k' = k) then (k', S n) :: acc' else (k', n) :: bump k acc'
  end.

Definition tally (keys : list cell) : list (cell * nat) :=
  foldl (fun acc k => bump k acc) [] keys.

Definition notna (v : cell) : bool :=
  match v with VNaN => false | _ => true end.

(** Insertion sort by a comparison [before]: an element is put in front
    of the first one it may come before.  It stands for the sort of group
    keys only; these are distinct, so that the sorted list is the same
    whichever way the library sorts. *)
Section Sorting.
Context {A : Type} (before : A -> A -> bool).

Fixpoint insert_by (x : A) (l : list A) : list A :=
  match l with
  | [] => [x]
  | y :: l' => if before x y then x :: l else y :: insert_by x l'
  end.

Definition sort_by (l : list A) : list A := foldr insert_by [] l.

End Sorting.

(** *** Sorting a series by its values

    [s.sort_values(ascending=False)] with the default [kind='quicksort']:
    the values are reversed, put in ascending order by the array library's
    quicksort, and reversed again.  That quicksort, in the library's
    portable code, is an introsort working in place on the array: ranges
    of more than 17 cells are partitioned around the median of the first,
    the middle and the last cell; shorter ranges are finished by an
    insertion sort; a range that is taken up again after more than
    [2 * floor(log2 n)] partitions is finished by a heap sort.  The
    insertion sort leaves equal values in the order it finds them; the
    partition and the heap sort do not. *)
Section Argsort.
Context {A : Type} (key : A -> nat).

Definition less (x y : A) : bool := key x <? key y.

(** Exchange the cells [i] and [j]. *)
Definition swap (i j : nat) (a : list A) : list A :=
  match a !! i, a !! j with
  | Some x, Some y => <[j := x]> (<[i := y]> a)
  | _, _ => a
  end.

(** [if (less(a[i], a[j])) swap(a[i], a[j])]. *)
Definition swap_if_less (i j : nat) (a : list A) : list A :=
  match a !! i, a !! j with
  | Some x, Some y => if less x y then swap i j a else a
  | _, _ => a
  end.

(** The number of leading elements that satisfy [p]. *)
Fixpoint skip (p : A -> bool) (l : list A) : nat :=
  match l with
  | x :: l' => if p x then S (skip p l') else 0
  | [] => 0
  end.

(** [while (less(a[i], vp)) ++i], from [i] on. *)
Definition scan_up (vp : A) (a : list A) (i : nat) : nat :=
  i + skip (fun x => less x vp) (drop i a).

(** [while (less(vp, a[j])) --j], from [j] on. *)
Fixpoint scan_down (vp : A) (a : list A) (j : nat) : nat :=
  match a !! j with
  | Some x =>
      if less vp x
      then match j with 0 => 0 | S j' => scan_down vp a j' end
      else j
  | None => j
  end.

(** The loop of the partition: [pi] moves up to a cell that is not less
    than the pivot, [pj] down to one that is not greater; the two cells
    are exchanged, until the two meet.  Returns where [pi] stops. *)
Fixpoint hoare (vp : A) (a : list A) (pi pj fuel : nat) : nat * list A :=
  let pi' := scan_up vp a (S pi) in
  let pj' := scan_down vp a (pj - 1) in
  if pj' <=? pi' then (pi', a)
  else match fuel with
       | 0 => (pi', a)
       | S f => hoare vp (swap pi' pj' a) pi' pj' f
       end.

(** One partition of a range [a], whose last cell is [r]: the median of
    the cells [0], [r / 2] and [r] becomes the pivot and is parked in cell
    [r - 1]; after the loop it is put where [pi] stopped.  Returns that
    place and the range. *)
Definition partition (a : list A) : nat * list A :=
  let r := length a - 1 in
  let m := r / 2 in
  let a := swap_if_less m 0 a in
  let a := swap_if_less r m a in
  let a := swap_if_less m 0 a in
  match a !! m with
  | Some vp =>
      let a := swap m (r - 1) a in
      let '(pi, a) := hoare vp a 0 (r - 1) (length a) in
      (pi, swap pi (r - 1) a)
  | None => (0, a)
  end.

(** The insertion sort of a short range: each cell in turn is moved down
    past the cells that are greater. *)
Definition insertion_sort (a : list A) : list A :=
  reverse
    (foldl (fun sorted x => insert_by (fun x y => negb (less x y)) x sorted)
           [] a).

(** The heap sort.  The heap is numbered from 1: node [k] is the cell
    [k - 1], its children are the nodes [2 k] and [2 k + 1].  [sift_down]
    lets [tmp] sink from the node [i], whose first child is [j], in the heap
    of the first [n] nodes. *)
Fixpoint sift_down (tmp : A) (a : list A) (i j n fuel : nat) : list A :=
  match fuel with
  | 0 => <[i - 1 := tmp]> a
  | S f =>
      if j <=? n then
        let j' := match a !! (j - 1), a !! j with
                  | Some x, Some y => if (j <? n) && less x y then j + 1 else j
                  | _, _ => j
                  end in
        match a !! (j' - 1) with
        | Some z =>
            if less tmp z
            then sift_down tmp (<[i - 1 := z]> a) j' (j' + j') n f
            else <[i - 1 := tmp]> a
        | None => <[i - 1 := tmp]> a
        end
      else <[i - 1 := tmp]> a
  end.

(** [for (l = n >> 1; l > 0; --l)]: building the heap. *)
Fixpoint heapify (a : list A) (n l : nat) : list A :=
  match l with
  | 0 => a
  | S l' =>
      match a !! l' with
      | Some tmp => heapify (sift_down tmp a l (2 * l) n n) n l'
      | None => a
      end
  end.

(** [for (; n > 1;)]: the root goes to the end of the heap, the heap
    shrinks by one, and what stood at its end sinks from the root. *)
Fixpoint extract (a : list A) (n : nat) : list A :=
  match n with
  | 0 => a
  | S n' =>
      match n' with
      | 0 => a
      | S _ =>
          match a !! n', a !! 0 with
          | Some tmp, Some top =>
              extract (sift_down tmp (<[n' := top]> a) 1 2 n' n') n'
          | _, _ => a
          end
      end
  end.

Definition aheapsort (a : list A) : list A :=
  extract (heapify a (length a) (length a / 2)) (length a).

(** The quicksort on one range.  Of the two parts of a partition the
    smaller is gone on with at once; the larger is put aside and taken up
    later ([popped]), and only then is the depth looked at.  [fuel] bounds
    the number of nested partitions; the length of the range is enough. *)
Fixpoint aquicksort_ (fuel : nat) (popped : bool) (cdepth : Z) (a : list A)
  : list A :=
  if popped && (cdepth <? 0)%Z then aheapsort a
  else if 17 <? length a then
    match fuel with
    | 0 => a
    | S f =>
        let '(pi, a') := partition a in
        let left := take pi a' in
        let right := drop (S pi) a' in
        let pivot := take 1 (drop pi a') in
        if length left <? length right
        then aquicksort_ f false (cdepth - 1) left ++ pivot ++
             aquicksort_ f true (cdepth - 1) right
        else aquicksort_ f true (cdepth - 1) left ++ pivot ++
             aquicksort_ f false (cdepth - 1) right
    end
  else insertion_sort a.

(** [a.argsort(kind='quicksort')], on the elements instead of their
    positions. *)
Definition argsort (a : list A) : list A :=
  aquicksort_ (length a) true (2 * Z.of_nat (Nat.log2 (length a))) a.

End Argsort.

(** [s.sort_values(ascending=False)] on a series of counts. *)
Definition sort_values (s : list (cell * nat)) : list (cell * nat) :=
  reverse (argsort snd (reverse s)).

(** The larger count stands first. *)
Definition by_count (x y : cell * nat) : bool := snd y <=? snd x.

(** [s.value_counts()]: missing values are left out and the values are
    counted in order of first occurrence; the counts are then sorted with
    [sort_values(ascending=False)]. *)
Definition value_counts (s : Series cell) : list (cell * nat) :=
  sort_values (tally (List.filter notna (map snd s))).

(** Order of group keys: numbers by value. *)
Definition key_le (x y : cell) : bool :=
  match x, y with
  | VInt a, VInt b => (a <=? b)%Z
  | VInt a, VFloat b => Qle_bool (inject_Z a) b
  | VFloat a, VInt b => Qle_bool a (inject_Z b)
  | VFloat a, VFloat b => Qle_bool a b
  | _, _ => true
  end.

Definition by_key (x y : cell * nat) : bool := key_le (fst x) (fst y).

(** [df.groupby(key).size()]: the key is matched to the rows by index
    label; rows without a key are left out; one entry per key that
    occurs, keys ascending. *)
Definition groupby_size (df : DataFrame) (key : Series cell)
  : list (cell * nat) :=
  sort_by by_key
          (tally (List.filter notna
             (map (fun r => default VNaN (at_label (fst r) key)) (body df)))).

End Pd.

(* ================================================================== *)
(** ** The script *)
(* ================================================================== *)

Definition KDD_COLUMNS : list string := [
  "duration"; "protocol_type"; "service"; "flag"; "src_bytes"; "dst_bytes";
  "land"; "wrong_fragment"; "urgent"; "hot"; "num_failed_logins"; "logged_in";
  "num_compromised"; "root_shell"; "su_attempted"; "num_root";
  "num_file_creations"; "num_shells"; "num_access_files"; "num_outbound_cmds";
  "is_host_login"; "is_guest_login"; "count"; "srv_count"; "serror_rate";
  "srv_serror_rate"; "rerror_rate"; "srv_rerror_rate"; "same_srv_rate";
  "diff_srv_rate"; "srv_diff_host_rate"; "dst_host_count";
  "dst_host_srv_count"; "dst_host_same_srv_rate"; "dst_host_diff_srv_rate";
  "dst_host_same_src_port_rate"; "dst_host_srv_diff_host_rate";
  "dst_host_serror_rate"; "dst_host_srv_serror_rate";
  "dst_host_rerror_rate"; "dst_host_srv_rerror_rate"; "attack_type"
]%string.

Definition PROTOCOLS : list string := ["tcp"; "udp"; "icmp"]%string.
Definition SERVICES : list string := ["http"; "ftp"; "smtp"; "domain_u"]%string.
Definition FLAGS : list string := ["SF"; "REJ"; "S0"]%string.
Definition ATTACKS : list string :=
  ["normal."; "smurf."; "neptune."; "back."; "teardrop."]%string.
Definition NUM_ROWS : Z := 5000.
Definition FILE_NAME : string := "kddcup99.csv".

(** The float the literal [0.3] denotes. *)
Definition float_0_3 : Q := 5404319552844595 # 18014398509481984.

(** [seq[i]]. *)
Definition item {A} (seq : list A) (i : nat) : M A :=
  match seq !! i with
  | Some x => ret x
  | None => raise IndexError
  end.

(** The body of the generator's loop up to [data.append(row)]: the draw
    for [is_attack], then the 42 entries of [row] from left to right. *)
Definition random_row : M (list cell) :=
  let* r := random_random in
  let is_attack := negb (Qle_bool r float_0_3) in
  let* duration := randint 0 1000 in
  let* protocol_type := choice PROTOCOLS in
  let* service := choice SERVICES in
  let* flag := choice FLAGS in
  let* src_bytes := randint 0 50000 in
  let* dst_bytes := randint 0 50000 in
  let* hot := randint 0 10 in
  let* num_failed_logins := randint 0 5 in
  let* logged_in := randint 0 1 in
  let* num_compromised := randint 0 10 in
  let* root_shell := randint 0 1 in
  let* su_attempted := randint 0 1 in
  let* num_root := randint 0 10 in
  let* num_file_creations := randint 0 5 in
  let* num_shells := randint 0 2 in
  let* num_access_files := randint 0 2 in
  let* is_guest_login := randint 0 1 in
  let* count := randint 1 100 in
  let* srv_count := randint 1 100 in
  let* serror_rate := random_random in
  let* srv_serror_rate := random_random in
  let* rerror_rate := random_random in
  let* srv_rerror_rate := random_random in
  let* same_srv_rate := random_random in
  let* diff_srv_rate := random_random in
  let* srv_diff_host_rate := random_random in
  let* dst_host_count := randint 1 255 in
  let* dst_host_srv_count := randint 1 255 in
  let* dst_host_same_srv_rate := random_random in
  let* dst_host_diff_srv_rate := random_random in
  let* dst_host_same_src_port_rate := random_random in
  let* dst_host_srv_diff_host_rate := random_random in
  let* dst_host_serror_rate := random_random in
  let* dst_host_srv_serror_rate := random_random in
  let* dst_host_rerror_rate := random_random in
  let* dst_host_srv_rerror_rate := random_random in
  let* attack_type :=
    (if is_attack then choice (drop 1 ATTACKS) else item ATTACKS 0) in
  ret [ VInt duration; str protocol_type; str service; str flag;
        VInt src_bytes; VInt dst_bytes;
        VInt 0; VInt 0; VInt 0;
        VInt hot; VInt num_failed_logins; VInt logged_in;
        VInt num_compromised; VInt root_shell; VInt su_attempted;
        VInt num_root; VInt num_file_creations; VInt num_shells;
        VInt num_access_files;
        VInt 0; VInt 0;
        VInt is_guest_login; VInt count; VInt srv_count;
        VFloat serror_rate; VFloat srv_serror_rate; VFloat rerror_rate;
        VFloat srv_rerror_rate; VFloat same_srv_rate; VFloat diff_srv_rate;
        VFloat srv_diff_host_rate;
        VInt dst_host_count; VInt dst_host_srv_count;
        VFloat dst_host_same_srv_rate; VFloat dst_host_diff_srv_rate;
        VFloat dst_host_same_src_port_rate;
        VFloat dst_host_srv_diff_host_rate; VFloat dst_host_serror_rate;
        VFloat dst_host_srv_serror_rate; VFloat dst_host_rerror_rate;
        VFloat dst_host_srv_rerror_rate;
        str attack_type ].

(** [for i in range(n): ... data.append(row)]. *)
Fixpoint random_rows (n : nat) (data : list (list cell))
  : M (list (list cell)) :=
  match n with
  | 0 => ret data
  | S n' => let* row := random_row in random_rows n' (data ++ [row])
  end.

Definition generate_synthetic_data (num_rows : Z) : M nat :=
  print (SayGenerating num_rows);;
  let* data := random_rows (Z.to_nat num_rows) [] in
  let* frame := lift (Pd.DataFrame_of data (map Name KDD_COLUMNS)) in
  let* df := alloc frame in
  let* d := deref df in
  write_file FILE_NAME (Pd.to_csv d);;
  print (SaySaved (Pd.shape d));;
  ret df.

(** The lambda of the loader. *)
Definition category (x : cell) : cell :=
  if decide (x = str "normal.") then str "Normal" else str "Attack".

Definition load_and_prepare_data : M nat :=
  let* lines := read_file FILE_NAME in
  let* frame := lift (Pd.read_csv lines) in
  let* df := alloc frame in
  let* d := deref df in
  let* d := lift (Pd.set_columns d (map Name KDD_COLUMNS)) in
  assign df d;;
  print SayHeadTitle;;
  let* d := deref df in
  print (SayHead (Pd.head 5 d));;
  print (SaySize (Pd.shape d));;
  let* labels := lift (Pd.getitem d "attack_type") in
  let* d := lift (Pd.setitem d "attack_category" (Pd.apply category labels)) in
  assign df d;;
  print SayDistributionTitle;;
  let* d := deref df in
  let* cats := lift (Pd.getitem d "attack_category") in
  print (SayDistribution (Pd.value_counts cats));;
  ret df.

(** [df[df['attack_category'] == 'Attack']], a new frame. *)
Definition attack_rows (df : nat) : M nat :=
  let* d := deref df in
  let* cats := lift (Pd.getitem d "attack_category") in
  alloc (Pd.select d (Pd.eq_mask cats (str "Attack"))).

(** [.head(10)] of the counts is their first ten entries. *)
Definition plot_top_attacks (df : nat) : M unit :=
  let* attacks := attack_rows df in
  let* a := deref attacks in
  let* labels := lift (Pd.getitem a "attack_type") in
  let top_attacks := take 10 (Pd.value_counts labels) in
  match top_attacks with
  | [] => print SayNoAttacks
  | _ => print (BarChart top_attacks)
  end.

Definition plot_attack_trend (df : nat) : M unit :=
  let* d := deref df in
  let* d := lift (Pd.setitem_values d "time"
                    (map VInt (seqZ 0 (Z.of_nat (Pd.len d))))) in
  assign df d;;
  let interval_size := 1000%Z in
  let* attacks := attack_rows df in
  let* a := deref attacks in
  let* d := deref df in
  let* time := lift (Pd.getitem d "time") in
  let* key := lift (Pd.floordiv time interval_size) in
  let attack_trend := Pd.groupby_size a key in
  match attack_trend with
  | [] => print SayNoTrend
  | _ => print (LineChart attack_trend)
  end.

(** The main block, with the row count it is configured for. *)
Definition run (num_rows : Z) : M unit :=
  try_except
    (generate_synthetic_data num_rows;;
     let* df_processed := load_and_prepare_data in
     plot_top_attacks df_processed;;
     plot_attack_trend df_processed;;
     print SayComplete)
    (fun e => print (SayError e);; print SayHint).

Definition main : M unit := run NUM_ROWS.

(** The [finally] clause of the main block: the file is looked for and,
    when it is there, left where it is. *)
Definition finally_clause : M unit :=
  let* found := path_exists FILE_NAME in
  if found then ret tt else ret tt.

(** The main block with its [finally] clause. *)
Definition main_block (num_rows : Z) : M unit :=
  try_finally (run num_rows) finally_clause.

(* ================================================================== *)
(** ** The declared generation policy *)
(* ================================================================== *)

(** What the specification declares for each field, in schema order. *)
Inductive policy :=
  | UniformInt (lo hi : Z)
  | OneOf (options : list string)
  | Zero
  | Rate.

Definition DECLARED : list (string * policy) := [
  ("duration", UniformInt 0 1000);
  ("protocol_type", OneOf ["tcp"; "udp"; "icmp"]);
  ("service", OneOf ["http"; "ftp"; "smtp"; "domain_u"]);
  ("flag", OneOf ["SF"; "REJ"; "S0"]);
  ("src_bytes", UniformInt 0 50000);
  ("dst_bytes", UniformInt 0 50000);
  ("land", Zero);
  ("wrong_fragment", Zero);
  ("urgent", Zero);
  ("hot", UniformInt 0 10);
  ("num_failed_logins", UniformInt 0 5);
  ("logged_in", UniformInt 0 1);
  ("num_compromised", UniformInt 0 10);
  ("root_shell", UniformInt 0 1);
  ("su_attempted", UniformInt 0 1);
  ("num_root", UniformInt 0 10);
  ("num_file_creations", UniformInt 0 5);
  ("num_shells", UniformInt 0 2);
  ("num_access_files", UniformInt 0 2);
  ("num_outbound_cmds", Zero);
  ("is_host_login", Zero);
  ("is_guest_login", UniformInt 0 1);
  ("count", UniformInt 1 100);
  ("srv_count", UniformInt 1 100);
  ("serror_rate", Rate);
  ("srv_serror_rate", Rate);
  ("rerror_rate", Rate);
  ("srv_rerror_rate", Rate);
  ("same_srv_rate", Rate);
  ("diff_srv_rate", Rate);
  ("srv_diff_host_rate", Rate);
  ("dst_host_count", UniformInt 1 255);
  ("dst_host_srv_count", UniformInt 1 255);
  ("dst_host_same_srv_rate", Rate);
  ("dst_host_diff_srv_rate", Rate);
  ("dst_host_same_src_port_rate", Rate);
  ("dst_host_srv_diff_host_rate", Rate);
  ("dst_host_serror_rate", Rate);
  ("dst_host_srv_serror_rate", Rate);
  ("dst_host_rerror_rate", Rate);
  ("dst_host_srv_rerror_rate", Rate);
  ("attack_type",
   OneOf ["normal."; "smurf."; "neptune."; "back."; "teardrop."])
]%string.

(** A cell conforms to a policy. *)
Definition conforms (p : policy) (v : cell) : bool :=
  match p, v with
  | UniformInt lo hi, VInt z => (lo <=? z)%Z && (z <=? hi)%Z
  | OneOf options, VStr (Other s) => bool_decide (s ∈ options)
  | Zero, VInt z => (z =? 0)%Z
  | Rate, VFloat q => Qle_bool 0 q && negb (Qle_bool 1 q)
  | _, _ => false
  end.

(** A row conforms to the declaration: as many cells as declared fields,
    each conforming to the policy declared at its position. *)
Fixpoint row_conforms (decl : list (string * policy)) (row : list cell)
  : bool :=
  match decl, row with
  | [], [] => true
  | (_, p) :: decl', v :: row' => conforms p v && row_conforms decl' row'
  | _, _ => false
  end.

(** The rows of a frame, without their index labels. *)
Definition rows_of (df : DataFrame) : list (list cell) := map snd (body df).

(** Reading a named field of a row in schema order. *)
Definition field_of (name : string) (row : list cell) : cell :=
  match Pd.position name (map Name KDD_COLUMNS) with
  | Some j => nth j row VNaN
  | None => VNaN
  end.

(** The column type the reader arrives at for a declared field. *)
Definition kind (p : policy) : Pd.dtype :=
  match p with
  | UniformInt _ _ | Zero => Pd.int64
  | Rate => Pd.float64
  | OneOf _ => Pd.object
  end.

(** The four labels that are not the benign one, as cells. *)
Definition ATTACK_LABELS : list cell := map str (drop 1 ATTACKS).

(** The largest [k] for which [k / 2^53] does not exceed the float
    [0.3]. *)
Definition BENIGN_MAX : N := 2702159776422297.

(* ================================================================== *)
(** ** Vocabulary of the properties *)
(* ================================================================== *)

(** *** Reasoning about runs *)

(** The parts of the world the random module leaves alone. *)
Definition quiet (w w' : world) : Prop :=
  disk w' = disk w ∧ heap w' = heap w ∧ console w' = console w.

(** [m], run in [w], returns normally with a result and a world that
    satisfy [Q]. *)
Definition wp {A} (m : M A) (w : world) (Q : world → A → Prop) : Prop :=
  match m w with
  | (w', Done a) => Q w' a
  | (_, Raise _) => False
  end.

(** The lines printed and figures shown between two worlds. *)
Definition emitted (w w' : world) : list event :=
  drop (length (console w)) (console w').

(** *** Order and counting *)

(** [a] stands at an earlier position of [l] than [b]. *)
Definition precedes {A} (l : list A) (a b : A) : Prop :=
  ∃ i j, i < j ∧ l !! i = Some a ∧ l !! j = Some b.

(** How often [k] occurs in [l]. *)
Definition occ (k : cell) (l : list cell) : nat :=
  length (List.filter (fun x => bool_decide (x = k)) l).

(** The position at which [k] is first met in [l]. *)
Fixpoint first_index (k : cell) (l : list cell) : nat :=
  match l with
  | [] => 0
  | x :: l' => if decide (x = k) then 0 else S (first_index k l')
  end.

(** Entries whose key is an integer. *)
Definition int_keyed (x : cell * nat) : Prop := ∃ i, fst x = VInt i.

Definition is_int (v : cell) : Prop := ∃ z, v = VInt z.

(** *** Heaps and order in an array *)

(** [c] is a child of the node [k]; the nodes of a heap are numbered
    from 1, node [k] is the cell [k - 1]. *)
Definition child (c k : nat) : Prop := c = 2 * k ∨ c = 2 * k + 1.

(** Among the first [n] nodes, no node from [lo] on is below one of its
    children. *)
Definition heap_from {A} (key : A → nat) (lo n : nat) (a : list A) : Prop :=
  ∀ k c x y, lo ≤ k → child c k → c ≤ n →
    a !! (k - 1) = Some x → a !! (c - 1) = Some y → key y ≤ key x.

(** No cell is above a later one. *)
Definition ordered {A} (key : A → nat) (a : list A) : Prop :=
  ∀ i j x y, i ≤ j → a !! i = Some x → a !! j = Some y → key x ≤ key y.

(** [// n] on a cell that holds an integer. *)
Definition int_div (n : Z) (v : cell) : cell :=
  match v with VInt z => VInt (z / n) | _ => VNaN end.

(** *** Tables *)

(** The cell a row holds under a column of its table. *)
Definition cell_of (tbl : DataFrame) (c : label) (row : list cell) : cell :=
  match Pd.position c (columns tbl) with
  | Some j => nth j row VNaN
  | None => VNaN
  end.

(** The row counts as an attack. *)
Definition is_attack (tbl : DataFrame) (row : list cell) : bool :=
  bool_decide (cell_of tbl "attack_category" row = str "Attack").

(** The labels the top-attack view counts: those of the attack rows, in
    row order, missing ones left out. *)
Definition attack_labels (tbl : DataFrame) : list cell :=
  List.filter Pd.notna
    (map (cell_of tbl "attack_type") (List.filter (is_attack tbl) (rows_of tbl))).

(** The attack_type cells of the attack rows, in row order, missing ones
    included. *)
Definition attack_type_cells (tbl : DataFrame) : list cell :=
  map (cell_of tbl "attack_type") (List.filter (is_attack tbl) (rows_of tbl)).

(** The zero-based positions of the attack rows, ascending. *)
Definition attack_positions (tbl : DataFrame) : list nat :=
  List.filter
    (fun i => match rows_of tbl !! i with
              | Some row => is_attack tbl row
              | None => false
              end)
    (seq 0 (Pd.len tbl)).

(** The number of attack rows in the interval [i] of 1000 positions. *)
Definition attacks_in (tbl : DataFrame) (i : Z) : nat :=
  length (List.filter (fun p => (Z.of_nat p / 1000 =? i)%Z)
                      (attack_positions tbl)).

(** The part of a table the views look at. *)
Definition attack_part (tbl : DataFrame) : DataFrame :=
  mkDF (columns tbl)
       (List.filter (fun r => is_attack tbl (snd r)) (body tbl)).

(** The table with the time column the trend view adds. *)
Definition timed (tbl : DataFrame) : DataFrame :=
  mkDF (columns tbl ++ [Name "time"])
       (imap (fun i r => (fst r, snd r ++ [VInt (Z.of_nat i)])) (body tbl)).

(** A table the views can work on: the two columns exist, index labels
    are distinct, rows are as wide as the header. *)
Record viewable (tbl : DataFrame) : Prop := {
  has_category : is_Some (Pd.position "attack_category" (columns tbl));
  has_type : is_Some (Pd.position "attack_type" (columns tbl));
  distinct_labels : NoDup (map fst (body tbl));
  rectangular :
    Forall (fun r => length (snd r) = length (columns tbl)) (body tbl)
}.

(** The aggregate of the top-attack view over a table, and what the view
    does with it. *)
Definition top_of (tbl : DataFrame) : list (cell * nat) :=
  take 10 (Pd.sort_values (Pd.tally (attack_labels tbl))).

Definition top_event (top : list (cell * nat)) : event :=
  match top with [] => SayNoAttacks | _ => BarChart top end.

(** The group keys of the trend view, one per attack row, its aggregate
    over a table, and what the view does with it. *)
Definition interval_keys (tbl : DataFrame) : list cell :=
  map (fun p => VInt (Z.of_nat p / 1000)) (attack_positions tbl).

Definition trend_of (tbl : DataFrame) : list (cell * nat) :=
  Pd.sort_by Pd.by_key (Pd.tally (interval_keys tbl)).

Definition trend_event (trend : list (cell * nat)) : event :=
  match trend with [] => SayNoTrend | _ => LineChart trend end.

(** *** The loader's table *)

(** A loaded row: the 42 fields and the category derived from the last
    of them. *)
Definition with_category (row : list cell) : list cell :=
  row ++ [category (nth 41 row VNaN)].

(** The table the loader builds from a successful read: the schema's
    names, then the derived column. *)
Definition named (raw : DataFrame) : DataFrame :=
  mkDF (map Name KDD_COLUMNS) (body raw).

Definition derive (tbl : DataFrame) : DataFrame :=
  mkDF (columns tbl ++ [Name "attack_category"])
       (map (fun r => (fst r, with_category (snd r))) (body tbl)).

Definition load_events (tbl : DataFrame) : list event :=
  [ SayHeadTitle; SayHead (Pd.head 5 tbl); SaySize (Pd.shape tbl);
    SayDistributionTitle;
    SayDistribution
      (Pd.value_counts
         (map (fun r => (fst r, category (nth 41 (snd r) VNaN))) (body tbl))) ].

(** *** What a run lets an observer see *)

(** Of the loader: the table it returns or the exception it raises, and
    what it printed. *)
Definition loader_view (w : world)
  : outcome (option DataFrame) * list event :=
  let (w', r) := load_and_prepare_data w in
  (match r with Done df => Done (heap w' !! df) | Raise e => Raise e end,
   emitted w w').

(** Of the two views, run one after the other on the table at [df]: how
    each ended, what they printed and showed, and the table afterwards. *)
Definition views_view (df : nat) (w : world)
  : outcome unit * outcome unit * list event * option DataFrame :=
  let (w1, r1) := plot_top_attacks df w in
  let (w2, r2) := plot_attack_trend df w1 in
  (r1, r2, emitted w w2, heap w2 !! df).

(** *** Sample inputs *)

(** A world in which nothing has happened yet. *)
Definition blank_world : world := World (fun _ => 0%N) ∅ [] [].

(** A world whose only content is the data file. *)
Definition on_disk (lines : csv) : world :=
  World (fun _ => 0%N) {[ FILE_NAME := lines ]} [] [].

(** A line of 41 zeros and a label. *)
Definition plain_line (label : string) : list text :=
  replicate 41 (Digits 0) ++ [Other label].


(** A small file with two attack labels, one of them twice. *)
Definition sample_file : csv :=
  [ plain_line "back."; plain_line "smurf.";
    plain_line "normal."; plain_line "smurf." ].

(** The world right after loading [sample_file]. *)
Definition sample_world : world :=
  fst (load_and_prepare_data (on_disk sample_file)).

(** A world with the same data file as [on_disk sample_file] and nothing
    else in common with it. *)
Definition busy_world : world :=
  World (fun i => N.of_nat i) {[ FILE_NAME := sample_file ]}
        [mkDF [] []] [SayComplete].

(** The scenario of the trend property: 2500 lines; every third line of
    the first thousand and of the last five hundred is an attack, no line
    in between is. *)
Definition block_line (i : nat) : list text :=
  plain_line (if ((i <? 1000) || (2000 <=? i)) && (i mod 3 =? 0)
              then "smurf." else "normal.").

Definition block_file : csv := map block_line (seq 0 2500).

Definition block_world : world :=
  fst (load_and_prepare_data (on_disk block_file)).

Definition block_table : DataFrame :=
  default (mkDF [] []) (heap block_world !! 0).

(** Eighteen labels, none of them the benign one. *)
Definition TIE_LABELS : list string :=
  ["a"; "b"; "c"; "d"; "e"; "f"; "g"; "h"; "i"; "j"; "k"; "l"; "m"; "n";
   "o"; "p"; "q"; "r"]%string.

(** A file in which each of these labels occurs once, in this order, the
    world right after loading it, and the table loaded. *)
Definition tie_file : csv := map plain_line TIE_LABELS.

Definition tie_world : world :=
  fst (load_and_prepare_data (on_disk tie_file)).


(** Entropy with which the generator labels its first two rows "smurf.",
    the third "neptune." and every later row "normal.": an attack row
    takes 38 numbers, the first of which decides that it is one and the
    last of which picks the label. *)
Definition mixed_entropy (i : nat) : N :=
  if i <? 76 then 2 ^ 52 else if i <? 114 then 2 ^ 52 + 1 else 0.

Definition mixed_world : world := World mixed_entropy ∅ [] [].

(** The worlds after generating four rows in [mixed_world], and after
    loading them. *)
Definition mixed_generated : world :=
  fst (generate_synthetic_data 4 mixed_world).

Definition mixed_loaded : world :=
  fst (load_and_prepare_data mixed_generated).


(* ================================================================== *)
(** ** The generator *)
(* ================================================================== *)

(** *** Rules for the random module *)

Lemma quiet_refl w : quiet w w.
Proof. by repeat split. Qed.

Lemma quiet_trans w1 w2 w3 : quiet w1 w2 → quiet w2 w3 → quiet w1 w3.
Proof. intros (?&?&?) (?&?&?). repeat split; congruence. Qed.

Lemma wp_ret {A} (a : A) w Q : Q w a → wp (ret a) w Q.
Proof. done. Qed.

Lemma wp_bind {A B} (m : M A) (k : A → M B) w Q :
  wp m w (fun w' a => wp (k a) w' Q) → wp (bind m k) w Q.
Proof.
  unfold wp, bind. destruct (m w) as [w' [a|e]]; [done | intros []].
Qed.

Lemma wp_mono {A} (m : M A) w (Q Q' : world → A → Prop) :
  wp m w Q → (∀ w' a, Q w' a → Q' w' a) → wp m w Q'.
Proof.
  unfold wp. destruct (m w) as [w' [a|e]]; [auto | intros []].
Qed.

Lemma wp_elim {A} (m : M A) w Q :
  wp m w Q → ∃ w' a, m w = (w', Done a) ∧ Q w' a.
Proof.
  unfold wp. destruct (m w) as [w' [a|e]]; [eauto | intros []].
Qed.

Lemma wp_draw w0 w (Q : world → N → Prop) :
  quiet w0 w → (∀ w' k, quiet w0 w' → Q w' k) → wp draw w Q.
Proof. intros Hq H. apply H. destruct Hq as (?&?&?). by repeat split. Qed.

Lemma wp_randint w0 lo hi w (Q : world → Z → Prop) :
  quiet w0 w → (lo <= hi)%Z →
  (∀ w' z, quiet w0 w' → (lo <= z <= hi)%Z → Q w' z) →
  wp (randint lo hi) w Q.
Proof.
  intros Hq0 Hle H. apply wp_bind, (wp_draw w0); [done|]. intros w' k Hq.
  apply wp_ret, H; [done|].
  pose proof (Z.mod_pos_bound (Z.of_N k) (hi - lo + 1)). lia.
Qed.

Lemma unit_fraction (k : N) :
  let q := Qred (Z.of_N (k mod 2 ^ 53) # 2 ^ 53) in
  Qle_bool 0 q && negb (Qle_bool 1 q) = true.
Proof.
  intros q.
  assert (0 <= Z.of_N (k mod 2 ^ 53) < Z.pos (2 ^ 53))%Z as Hk.
  { assert (k mod 2 ^ 53 < 2 ^ 53)%N by (apply N.mod_lt; discriminate).
    split; [apply N2Z.is_nonneg|].
    change (Z.pos (2 ^ 53)) with (Z.of_N (2 ^ 53)). by apply N2Z.inj_lt. }
  revert Hk. unfold q. generalize (Z.of_N (k mod 2 ^ 53)) as n.
  generalize (2 ^ 53)%positive as d. intros d n Hn.
  apply andb_true_iff. split.
  - apply Qle_bool_iff. rewrite Qred_correct.
    unfold Qle. cbn [Qnum Qden]. lia.
  - apply negb_true_iff. apply not_true_is_false. intros H.
    apply Qle_bool_iff in H. rewrite Qred_correct in H.
    unfold Qle in H. cbn [Qnum Qden] in H. lia.
Qed.

Lemma wp_random_random w0 w (Q : world → Q → Prop) :
  quiet w0 w →
  (∀ w' q, quiet w0 w' → conforms Rate (VFloat q) = true → Q w' q) →
  wp random_random w Q.
Proof.
  intros Hq0 H. apply wp_bind, (wp_draw w0); [done|]. intros w' k Hq.
  apply wp_ret, H; [done|]. apply unit_fraction.
Qed.

Lemma wp_choice {A} w0 (seq : list A) w (Q : world → A → Prop) :
  quiet w0 w → seq ≠ [] →
  (∀ w' x, quiet w0 w' → x ∈ seq → Q w' x) →
  wp (choice seq) w Q.
Proof.
  intros Hq0 Hne H. apply wp_bind, (wp_draw w0); [done|]. intros w' k Hq.
  assert (N.to_nat (k mod N.of_nat (length seq)) < length seq) as Hlt.
  { assert (N.of_nat (length seq) ≠ 0%N) by (destruct seq; [done | simpl; lia]).
    pose proof (N.mod_lt k (N.of_nat (length seq))). lia. }
  apply lookup_lt_is_Some_2 in Hlt as [x Hx]. rewrite Hx.
  apply wp_ret, H; [done|]. by eapply list_elem_of_lookup_2.
Qed.

Lemma wp_item {A} (seq : list A) i x w (Q : world → A → Prop) :
  seq !! i = Some x → Q w x → wp (item seq i) w Q.
Proof. intros Hx H. unfold item. rewrite Hx. by apply wp_ret. Qed.

Lemma conforms_int lo hi z :
  (lo <= z <= hi)%Z → conforms (UniformInt lo hi) (VInt z) = true.
Proof. intros H. simpl. apply andb_true_iff. lia. Qed.

Lemma conforms_choice (options : list string) s :
  s ∈ options → conforms (OneOf options) (str s) = true.
Proof. intros H. simpl. by apply bool_decide_eq_true_2. Qed.

Ltac draw_step w0 :=
  lazymatch goal with
  | |- wp (bind (randint _ _) _) _ _ =>
      apply wp_bind, (wp_randint w0); [assumption | lia | intros ? ? ? ?]
  | |- wp (bind random_random _) _ _ =>
      apply wp_bind, (wp_random_random w0); [assumption | intros ? ? ? ?]
  | |- wp (bind (choice _) _) _ _ =>
      apply wp_bind, (wp_choice w0); [assumption | done | intros ? ? ? ?]
  end.

Lemma wp_attack_type w0 (is_attack : bool) w :
  quiet w0 w →
  wp (if is_attack then choice (drop 1 ATTACKS) else item ATTACKS 0) w
     (fun w' s => quiet w0 w' ∧ s ∈ ATTACKS).
Proof.
  intros Hq. destruct is_attack.
  - apply (wp_choice w0); [done | done |]. intros w' s ? Hs.
    split; [done|]. by apply list_elem_of_further.
  - eapply wp_item; [reflexivity|]. split; [done|]. by left.
Qed.

Lemma wp_random_row w0 w :
  quiet w0 w →
  wp random_row w
     (fun w' row => quiet w0 w' ∧ row_conforms DECLARED row = true).
Proof.
  intros Hq. unfold random_row.
  apply wp_bind, (wp_random_random w0); [done|]. intros w1 r Hq1 _.
  cbv zeta. repeat (draw_step w0).
  apply wp_bind. eapply wp_mono; [by apply (wp_attack_type w0)|].
  intros wz s [Hqz Hs]. apply wp_ret. split; [done|].
  unfold DECLARED. cbn [row_conforms].
  repeat (apply andb_true_intro; split;
    [ first [ reflexivity | assumption
            | apply conforms_int; assumption
            | apply conforms_choice; assumption ] | ]).
  reflexivity.
Qed.

Lemma wp_random_rows w0 n : ∀ data w,
  quiet w0 w →
  wp (random_rows n data) w
     (fun w' out => quiet w0 w' ∧ ∃ new, out = data ++ new ∧ length new = n ∧
        Forall (fun r => row_conforms DECLARED r = true) new).
Proof.
  induction n as [|n IH]; intros data w Hq; simpl.
  - apply wp_ret. split; [done|]. exists []. by rewrite app_nil_r.
  - apply wp_bind. eapply wp_mono; [by apply (wp_random_row w0)|].
    intros w1 row [Hq1 Hrow]. eapply wp_mono; [by apply IH|].
    intros w2 out (Hq2 & new & -> & Hlen & Hall). split; [done|].
    exists (row :: new). rewrite <- app_assoc. simpl.
    split; [done|]. split; [by rewrite Hlen|]. by constructor.
Qed.

(** *** A run of the generator *)

Lemma bind_done {A B} (m : M A) (k : A → M B) w w' a :
  m w = (w', Done a) → bind m k w = k a w'.
Proof. unfold bind. by intros ->. Qed.

Lemma bind_raise {A B} (m : M A) (k : A → M B) w w' e :
  m w = (w', Raise e) → bind m k w = (w', Raise e).
Proof. unfold bind. by intros ->. Qed.

Lemma deref_alloc_last (h : list DataFrame) df :
  (h ++ [df]) !! length h = Some df.
Proof. by rewrite list_lookup_middle. Qed.

Lemma row_conforms_length decl : ∀ row,
  row_conforms decl row = true → length row = length decl.
Proof.
  induction decl as [|[n p] decl IH]; intros [|v row]; simpl; try done.
  intros [_ H]%andb_true_iff. by rewrite (IH row).
Qed.

Lemma conforming_rows_width rows :
  Forall (fun r => row_conforms DECLARED r = true) rows →
  forallb (fun r => length r =? length (map Name KDD_COLUMNS)) rows = true.
Proof.
  intros H. apply forallb_forall. intros r Hr.
  rewrite Forall_forall in H. apply Nat.eqb_eq.
  rewrite (row_conforms_length DECLARED r); [done|].
  apply H. by apply list_elem_of_In.
Qed.

Lemma range_index_lookup {A} (rows : list A) i :
  Pd.range_index rows !! i = (fun r => (Z.of_nat i, r)) <$> rows !! i.
Proof. unfold Pd.range_index. by rewrite list_lookup_imap. Qed.

Lemma range_index_snd {A} (rows : list A) :
  map snd (Pd.range_index rows) = rows.
Proof.
  apply list_eq. intros i.
  rewrite list_lookup_fmap, range_index_lookup. by destruct (rows !! i).
Qed.

Lemma range_index_length {A} (rows : list A) :
  length (Pd.range_index rows) = length rows.
Proof. unfold Pd.range_index. by rewrite length_imap. Qed.

Lemma range_index_fst {A} (rows : list A) :
  map fst (Pd.range_index rows) = map Z.of_nat (seq 0 (length rows)).
Proof.
  apply list_eq. intros i.
  rewrite !list_lookup_fmap, range_index_lookup.
  destruct (rows !! i) as [r|] eqn:Hr; simpl.
  - apply lookup_lt_Some in Hr. by rewrite lookup_seq_lt.
  - apply lookup_ge_None in Hr. by rewrite lookup_seq_ge.
Qed.

(** What a run of the generator does to the world. *)
Lemma generate_synthetic_data_exec num_rows w :
  ∃ rng' rows,
    generate_synthetic_data num_rows w =
      (World rng'
         (<[FILE_NAME := map (map Pd.cell_text) rows]> (disk w))
         (heap w ++ [mkDF (map Name KDD_COLUMNS) (Pd.range_index rows)])
         (console w ++ [SayGenerating num_rows; SaySaved (length rows, 42)]),
       Done (length (heap w))) ∧
    length rows = Z.to_nat num_rows ∧
    Forall (fun r => row_conforms DECLARED r = true) rows.
Proof.
  set (w1 := World (rng w) (disk w) (heap w)
                   (console w ++ [SayGenerating num_rows])).
  destruct (wp_elim _ _ _ (wp_random_rows w1 (Z.to_nat num_rows) [] w1
                             (quiet_refl w1)))
    as (w2 & rows & Hrun & (Hd & Hh & Hc) & new & Heq & Hlen & Hall).
  rewrite app_nil_l in Heq. subst rows. exists (rng w2), new. split; [|done].
  unfold generate_synthetic_data.
  rewrite (bind_done _ _ w w1 tt) by done.
  rewrite (bind_done _ _ _ _ _ Hrun).
  unfold Pd.DataFrame_of. rewrite (conforming_rows_width _ Hall).
  unfold bind, lift, alloc, deref, write_file, print, ret.
  cbn [heap disk rng console]. rewrite deref_alloc_last.
  cbn [heap disk rng console]. rewrite Hd, Hh, Hc. unfold w1.
  cbn [heap disk rng console].
  unfold Pd.to_csv, Pd.shape. cbn [body columns].
  rewrite <- app_assoc. cbn [app].
  repeat f_equal.
  - rewrite <- (range_index_snd new) at 2. by rewrite map_map.
  - by rewrite range_index_length.
Qed.

(* ================================================================== *)
(** ** The loader *)
(* ================================================================== *)

(** *** Index labels *)

Lemma range_index_NoDup {A} (rows : list A) :
  NoDup (map fst (Pd.range_index rows)).
Proof.
  rewrite range_index_fst. apply NoDup_fmap_2; [|apply NoDup_seq].
  intros x y. lia.
Qed.

Lemma at_label_map {A B} (f : Z * A → B) (b : list (Z * A)) p :
  NoDup (map fst b) → p ∈ b →
  Pd.at_label (fst p) (map (fun r => (fst r, f r)) b) = Some (f p).
Proof.
  induction b as [|q b IH]; simpl; intros Hnd Hp.
  - by apply elem_of_nil in Hp.
  - apply NoDup_cons in Hnd as [Hq Hnd].
    apply elem_of_cons in Hp as [->|Hp].
    + by rewrite decide_True.
    + rewrite decide_False; [by apply IH|].
      intros Heq. apply Hq. rewrite Heq. apply list_elem_of_fmap. eauto.
Qed.

Lemma reindex_self {A B} (f : Z * A → B) (d : B) (b : list (Z * A)) :
  NoDup (map fst b) →
  map (fun r => default d (Pd.at_label (fst r) (map (fun r => (fst r, f r)) b)))
      b = map f b.
Proof.
  intros Hnd. apply map_ext_in. intros p Hp.
  rewrite at_label_map; [done | done | by apply list_elem_of_In].
Qed.

(** *** Column positions of the schema *)

Lemma position_attack_type :
  Pd.position "attack_type" (map Name KDD_COLUMNS) = Some 41.
Proof. reflexivity. Qed.

Lemma position_attack_category :
  Pd.position "attack_category" (map Name KDD_COLUMNS) = None.
Proof. reflexivity. Qed.

(** *** The loader *)

Lemma zip_with_map_r {A B C} (f : A → B → C) (g : A → B) (l : list A) :
  zip_with f l (map g l) = map (fun x => f x (g x)) l.
Proof. induction l; simpl; congruence. Qed.

Lemma derive_category (tbl : DataFrame) :
  columns tbl = map Name KDD_COLUMNS →
  NoDup (map fst (body tbl)) →
  Forall (fun r => length (snd r) = 42) (body tbl) →
  ∃ labels,
    Pd.getitem tbl "attack_type" = Done labels ∧
    Pd.setitem tbl "attack_category" (Pd.apply category labels)
      = Done (derive tbl) ∧
    Pd.getitem (derive tbl) "attack_category"
      = Done (map (fun r => (fst r, category (nth 41 (snd r) VNaN))) (body tbl)).
Proof.
  intros Hcols Hnd Hwide. eexists. split; [|split].
  - unfold Pd.getitem. rewrite Hcols, position_attack_type. reflexivity.
  - unfold Pd.setitem, Pd.setitem_values, Pd.apply, Pd.len.
    rewrite map_map. cbn [fst snd].
    rewrite (reindex_self (fun r => category (nth 41 (snd r) VNaN))) by done.
    rewrite length_map, Nat.eqb_refl, Hcols, position_attack_category.
    unfold derive. rewrite Hcols. f_equal. f_equal.
    by rewrite zip_with_map_r.
  - unfold Pd.getitem, derive. cbn [columns body]. rewrite Hcols.
    change (Pd.position "attack_category"
              (map Name KDD_COLUMNS ++ [Name "attack_category"]))
      with (Some 42).
    f_equal. rewrite map_map. apply map_ext_in. intros r Hr. cbn [fst snd].
    f_equal. rewrite Forall_forall in Hwide.
    unfold with_category. rewrite app_nth2; rewrite (Hwide r);
      first [ by rewrite Nat.sub_diag | lia | by apply list_elem_of_In ].
Qed.

Lemma length_pad w (r : list text) :
  length r ≤ w → length (Pd.pad w r) = w.
Proof. intros H. unfold Pd.pad. rewrite length_app, length_replicate. lia. Qed.

(** What a successful read looks like: a rectangular table under the
    default index, one row per non-empty line. *)
Lemma read_csv_shape lines raw :
  Pd.read_csv lines = Done raw →
  ∃ rows,
    raw = mkDF (map Num (seq 0 (length (columns raw)))) (Pd.range_index rows) ∧
    Forall (fun r => length r = length (columns raw)) rows ∧
    length rows = length (List.filter Pd.nonblank lines) ∧
    0 < length rows.
Proof.
  unfold Pd.read_csv.
  destruct (List.filter Pd.nonblank lines) as [|first rest]; [done|].
  cbv zeta.
  destruct (forallb _ rest) eqn:Hrest; [|done].
  remember (first :: rest) as recs eqn:Hrecs.
  intros Hdone. injection Hdone as <-.
  cbn [columns]. rewrite length_map, length_seq.
  eexists. split; [reflexivity|]. split; [|split].
  - apply Forall_forall. intros r [r0 [-> Hr0]]%list_elem_of_fmap.
    apply list_elem_of_fmap in Hr0 as [r1 [-> Hr1]].
    rewrite length_zip_with, length_map, length_seq, length_pad; [lia|].
    rewrite Hrecs in Hr1. apply elem_of_cons in Hr1 as [->|Hr1]; [done|].
    rewrite forallb_forall in Hrest. apply Nat.leb_le, Hrest.
    by apply list_elem_of_In.
  - by rewrite !length_map.
  - rewrite !length_map, Hrecs. simpl. lia.
Qed.

Lemma insert_last {A} (h : list A) x y :
  <[length h := x]> (h ++ [y]) = h ++ [x].
Proof. rewrite insert_app_r_alt by lia. by rewrite Nat.sub_diag. Qed.

Lemma read_csv_body raw lines :
  Pd.read_csv lines = Done raw →
  NoDup (map fst (body raw)) ∧
  Forall (fun r => length (snd r) = length (columns raw)) (body raw).
Proof.
  intros (rows & Hraw & Hwide & _)%read_csv_shape. rewrite Hraw at 1 2.
  cbn [body]. split; [apply range_index_NoDup|].
  apply Forall_forall. intros [i r] Hr. cbn [snd].
  rewrite Forall_forall in Hwide. apply Hwide.
  apply list_elem_of_lookup in Hr as [k Hk].
  rewrite range_index_lookup in Hk.
  destruct (rows !! k) as [r'|] eqn:Hr'; [|done].
  injection Hk as _ <-. by eapply list_elem_of_lookup_2.
Qed.

Lemma load_ok w lines raw :
  disk w !! FILE_NAME = Some lines →
  Pd.read_csv lines = Done raw →
  length (columns raw) = 42 →
  load_and_prepare_data w =
    (World (rng w) (disk w) (heap w ++ [derive (named raw)])
           (console w ++ load_events (named raw)),
     Done (length (heap w))).
Proof.
  intros Hfile Hread Hwidth.
  destruct (read_csv_body _ _ Hread) as [Hnd Hwide]. rewrite Hwidth in Hwide.
  destruct (derive_category (named raw) eq_refl Hnd Hwide)
    as (labels & Hget & Hset & Hcats).
  unfold load_and_prepare_data, bind, read_file, lift, alloc, deref, assign,
    print, ret.
  rewrite Hfile, Hread. cbn [heap disk rng console].
  rewrite deref_alloc_last. unfold Pd.set_columns.
  rewrite Hwidth. change (length (map Name KDD_COLUMNS)) with 42. rewrite Nat.eqb_refl.
  cbn [heap disk rng console]. rewrite insert_last, deref_alloc_last.
  fold (named raw). rewrite Hget, Hset.
  cbn [heap disk rng console]. rewrite insert_last, deref_alloc_last, Hcats.
  cbn [heap disk rng console]. unfold load_events. by rewrite <- !app_assoc.
Qed.

Lemma load_missing w :
  disk w !! FILE_NAME = None →
  load_and_prepare_data w = (w, Raise FileNotFoundError).
Proof.
  intros H. unfold load_and_prepare_data, bind, read_file. by rewrite H.
Qed.

Lemma load_unreadable w lines e :
  disk w !! FILE_NAME = Some lines →
  Pd.read_csv lines = Raise e →
  load_and_prepare_data w = (w, Raise e).
Proof.
  intros Hf Hr. unfold load_and_prepare_data, bind, read_file, lift.
  by rewrite Hf, Hr.
Qed.

Lemma load_mismatch w lines raw :
  disk w !! FILE_NAME = Some lines →
  Pd.read_csv lines = Done raw →
  length (columns raw) ≠ 42 →
  load_and_prepare_data w =
    (World (rng w) (disk w) (heap w ++ [raw]) (console w), Raise ValueError).
Proof.
  intros Hf Hr Hw.
  unfold load_and_prepare_data, bind, read_file, lift, alloc, deref.
  rewrite Hf, Hr. cbn [heap disk rng console]. rewrite deref_alloc_last.
  unfold Pd.set_columns.
  change (length (map Name KDD_COLUMNS)) with 42.
  destruct (Nat.eqb_spec 42 (length (columns raw))); [congruence | done].
Qed.

(** A successful load, read backwards. *)
Lemma load_inv w w' df :
  load_and_prepare_data w = (w', Done df) →
  ∃ lines raw,
    disk w !! FILE_NAME = Some lines ∧
    Pd.read_csv lines = Done raw ∧
    length (columns raw) = 42 ∧
    df = length (heap w) ∧
    w' = World (rng w) (disk w) (heap w ++ [derive (named raw)])
               (console w ++ load_events (named raw)).
Proof.
  intros Hload.
  destruct (disk w !! FILE_NAME) as [lines|] eqn:Hf;
    [|by rewrite load_missing in Hload].
  destruct (Pd.read_csv lines) as [raw|e] eqn:Hr;
    [|by rewrite (load_unreadable _ _ _ Hf Hr) in Hload].
  destruct (decide (length (columns raw) = 42)) as [Hw|Hw];
    [|by rewrite (load_mismatch _ _ _ Hf Hr Hw) in Hload].
  rewrite (load_ok _ _ _ Hf Hr Hw) in Hload. injection Hload as <- <-.
  by exists lines, raw.
Qed.

(* ================================================================== *)
(** ** Sorting and counting *)
(* ================================================================== *)

(** *** Order of appearance *)

Section Precedes.
Context {A : Type}.
Implicit Types (a b c : A) (l : list A).

Lemma precedes_nil a b : ¬ precedes [] a b.
Proof. by intros (i & j & _ & Hi & _). Qed.

Lemma precedes_cons c l a b :
  precedes (c :: l) a b ↔ (c = a ∧ b ∈ l) ∨ precedes l a b.
Proof.
  split.
  - intros (i & j & Hij & Hi & Hj). destruct j as [|j]; [lia|].
    destruct i as [|i]; simpl in *.
    + left. split; [congruence|]. by eapply list_elem_of_lookup_2.
    + right. exists i, j. split; [lia | done].
  - intros [[-> [j Hj]%list_elem_of_lookup] | (i & j & Hij & Hi & Hj)].
    + exists 0, (S j). split; [lia | done].
    + exists (S i), (S j). split; [lia | done].
Qed.

Lemma precedes_elem l a b : precedes l a b → a ∈ l ∧ b ∈ l.
Proof.
  intros (i & j & _ & Hi & Hj).
  split; by eapply list_elem_of_lookup_2.
Qed.

Lemma precedes_snoc l c a b :
  precedes (l ++ [c]) a b ↔ precedes l a b ∨ (a ∈ l ∧ b = c).
Proof.
  induction l as [|x l IH]; simpl.
  - rewrite precedes_cons. split.
    + intros [[_ H]|H]; [by apply elem_of_nil in H | by apply precedes_nil in H].
    + intros [H|[H _]]; [by apply precedes_nil in H | by apply elem_of_nil in H].
  - rewrite !precedes_cons, IH, elem_of_app, list_elem_of_singleton.
    rewrite elem_of_cons. intuition (subst; tauto).
Qed.


Lemma precedes_map {B} (f : A → B) l a b :
  precedes l a b → precedes (map f l) (f a) (f b).
Proof.
  intros (i & j & Hij & Hi & Hj). exists i, j. split; [done|].
  change (map f l) with (f <$> l). by rewrite !list_lookup_fmap, Hi, Hj.
Qed.

Lemma StronglySorted_precedes (R : relation A) l a b :
  StronglySorted R l → precedes l a b → R a b.
Proof.
  induction 1 as [|x l Hl IH Hx]; [by intros ?%precedes_nil|].
  rewrite precedes_cons. intros [[-> Hb]|H]; [|by apply IH].
  rewrite Forall_forall in Hx. by apply Hx.
Qed.
End Precedes.

(** *** Insertion sort *)

Section SortBy.
Context {A : Type} (before : A → A → bool).
Implicit Types (x y : A) (l : list A).

Lemma insert_by_elem x y l :
  y ∈ Pd.insert_by before x l ↔ y = x ∨ y ∈ l.
Proof.
  induction l as [|z l IH]; simpl.
  - rewrite list_elem_of_singleton, elem_of_nil. tauto.
  - destruct (before x z); rewrite !elem_of_cons; [tauto|].
    rewrite IH. tauto.
Qed.

Lemma insert_by_perm x l : Pd.insert_by before x l ≡ₚ x :: l.
Proof.
  induction l as [|z l IH]; simpl; [done|].
  destruct (before x z); [done|]. rewrite IH. apply Permutation_swap.
Qed.

Lemma sort_by_perm l : Pd.sort_by before l ≡ₚ l.
Proof.
  induction l as [|x l IH]; simpl; [done|].
  by rewrite insert_by_perm, IH.
Qed.

Lemma sort_by_elem x l : x ∈ Pd.sort_by before l ↔ x ∈ l.
Proof. by rewrite sort_by_perm. Qed.

Lemma sort_by_length l : length (Pd.sort_by before l) = length l.
Proof. by rewrite sort_by_perm. Qed.

Section Sorted.
Context (P : A → Prop).
Context (total : ∀ x y, P x → P y → before x y = false → before y x = true).
Context (trans : ∀ x y z, P x → P y → P z →
           before x y = true → before y z = true → before x z = true).

Lemma insert_by_sorted x l :
  P x → Forall P l →
  StronglySorted (fun a b => before a b = true) l →
  StronglySorted (fun a b => before a b = true) (Pd.insert_by before x l).
Proof.
  intros Hx HP Hl. induction Hl as [|z l Hl IH Hz]; simpl.
  - repeat constructor.
  - apply Forall_cons in HP as [Pz HP].
    destruct (before x z) eqn:Hxz.
    + constructor; [by constructor|]. constructor; [done|].
      rewrite Forall_forall in Hz, HP |- *. intros y Hy.
      apply (trans x z y); auto.
    + constructor; [by apply IH|].
      apply Forall_forall. intros y [->|Hy]%insert_by_elem.
      * by apply total.
      * rewrite Forall_forall in Hz. by apply Hz.
Qed.

Lemma sort_by_sorted l :
  Forall P l →
  StronglySorted (fun a b => before a b = true) (Pd.sort_by before l).
Proof.
  induction 1 as [|x l Hx HP IH]; simpl; [constructor|].
  apply insert_by_sorted; [done| |done].
  apply Forall_forall. intros y Hy. rewrite sort_by_elem in Hy.
  rewrite Forall_forall in HP. by apply HP.
Qed.
End Sorted.
End SortBy.

(* ================================================================== *)
(** ** The sort behind [sort_values] *)
(* ================================================================== *)

Section ArgsortFacts.
Context {A : Type} (key : A → nat).
Implicit Types (a l : list A) (x y z vp tmp : A).

Lemma less_lt x y : Pd.less key x y = true ↔ key x < key y.
Proof. unfold Pd.less. apply Nat.ltb_lt. Qed.

Lemma less_ge x y : Pd.less key x y = false ↔ key y ≤ key x.
Proof. unfold Pd.less. apply Nat.ltb_ge. Qed.

(** *** Exchanging two cells *)

Lemma swap_length i j a : length (Pd.swap i j a) = length a.
Proof.
  unfold Pd.swap. destruct (a !! i), (a !! j); try done.
  by rewrite !length_insert.
Qed.

Lemma swap_perm i j a : Pd.swap i j a ≡ₚ a.
Proof.
  unfold Pd.swap. destruct (a !! i) as [x|] eqn:Hi; [|done].
  destruct (a !! j) as [y|] eqn:Hj; [|done].
  by apply Permutation_insert_swap.
Qed.

Lemma swap_lookup i j a k :
  i < length a → j < length a →
  Pd.swap i j a !! k =
    if decide (k = j) then a !! i else if decide (k = i) then a !! j else a !! k.
Proof.
  intros Hi Hj. unfold Pd.swap.
  destruct (lookup_lt_is_Some_2 a i Hi) as [x Hx].
  destruct (lookup_lt_is_Some_2 a j Hj) as [y Hy]. rewrite Hx, Hy.
  destruct (decide (k = j)) as [->|Hkj].
  - rewrite list_lookup_insert_eq; [done|]. by rewrite length_insert.
  - rewrite list_lookup_insert_ne by done.
    destruct (decide (k = i)) as [->|Hki].
    + by rewrite list_lookup_insert_eq.
    + by rewrite list_lookup_insert_ne.
Qed.

Lemma swap_if_less_length i j a : length (Pd.swap_if_less key i j a) = length a.
Proof.
  unfold Pd.swap_if_less. destruct (a !! i), (a !! j); try done.
  destruct (Pd.less _ _ _); [apply swap_length | done].
Qed.

Lemma swap_if_less_perm i j a : Pd.swap_if_less key i j a ≡ₚ a.
Proof.
  unfold Pd.swap_if_less. destruct (a !! i), (a !! j); try done.
  destruct (Pd.less _ _ _); [apply swap_perm | done].
Qed.

(** After the exchange the cell at [j] is not less than the one at [i];
    other cells stay. *)
Lemma swap_if_less_spec i j a x y :
  a !! i = Some x → a !! j = Some y →
  ∃ x' y',
    Pd.swap_if_less key i j a !! i = Some x' ∧
    Pd.swap_if_less key i j a !! j = Some y' ∧
    key y' ≤ key x' ∧
    ((x' = x ∧ y' = y) ∨ (x' = y ∧ y' = x)) ∧
    ∀ k, k ≠ i → k ≠ j → Pd.swap_if_less key i j a !! k = a !! k.
Proof.
  intros Hx Hy.
  assert (i < length a) as Hi by (by eapply lookup_lt_Some).
  assert (j < length a) as Hj by (by eapply lookup_lt_Some).
  unfold Pd.swap_if_less. rewrite Hx, Hy.
  destruct (Pd.less key x y) eqn:Hl.
  - apply less_lt in Hl. exists y, x.
    rewrite !swap_lookup by done.
    destruct (decide (i = j)) as [->|Hij].
    + exfalso. assert (x = y) as -> by congruence. lia.
    + split; [repeat case_decide; congruence|].
      split; [repeat case_decide; congruence|].
      split; [lia|]. split; [by right|].
      intros k ? ?. rewrite swap_lookup by done.
      repeat case_decide; congruence.
  - apply less_ge in Hl. exists x, y. repeat split; try done. by left.
Qed.

(** *** The two scans of the partition *)

Lemma skip_spec (p : A → bool) l :
  Pd.skip p l ≤ length l ∧
  (∀ k x, k < Pd.skip p l → l !! k = Some x → p x = true) ∧
  (∀ x, l !! Pd.skip p l = Some x → p x = false).
Proof.
  induction l as [|y l (IH1 & IH2 & IH3)]; simpl.
  - split; [lia|]. split; [intros; lia | done].
  - destruct (p y) eqn:Hy; simpl.
    + split; [lia|]. split; [|done].
      intros [|k] x Hk; simpl; [congruence|]. apply IH2. lia.
    + split; [lia|]. split; [intros; lia|]. intros x [= <-]. done.
Qed.

Lemma skip_stop (p : A → bool) l s x :
  l !! s = Some x → p x = false → Pd.skip p l ≤ s.
Proof.
  intros Hs Hx. destruct (skip_spec p l) as (_ & H2 & _).
  destruct (decide (Pd.skip p l ≤ s)); [done|].
  rewrite (H2 s x) in Hx; [done | lia | done].
Qed.

Lemma scan_up_spec vp a i s y :
  i ≤ s → a !! s = Some y → key vp ≤ key y →
  let i' := Pd.scan_up key vp a i in
  i ≤ i' ≤ s ∧
  (∀ k x, i ≤ k < i' → a !! k = Some x → key x < key vp) ∧
  ∃ x, a !! i' = Some x ∧ key vp ≤ key x.
Proof.
  intros His Hs Hy. unfold Pd.scan_up. cbv zeta.
  set (p := fun x => Pd.less key x vp).
  destruct (skip_spec p (drop i a)) as (H1 & H2 & H3).
  assert (Pd.skip p (drop i a) ≤ s - i) as Hle.
  { apply (skip_stop p _ _ y).
    - rewrite lookup_drop. by replace (i + (s - i)) with s by lia.
    - by apply less_ge. }
  split; [lia|]. split.
  - intros k x Hk Hx. apply less_lt. apply (H2 (k - i)); [lia|].
    rewrite lookup_drop. by replace (i + (k - i)) with k by lia.
  - assert (i + Pd.skip p (drop i a) < length a) as Hlt.
    { apply lookup_lt_Some in Hs. lia. }
    destruct (lookup_lt_is_Some_2 a _ Hlt) as [x Hx]. exists x.
    split; [done|]. apply less_ge, H3. by rewrite lookup_drop.
Qed.

Lemma scan_down_spec vp a : ∀ j s y,
  s ≤ j → j < length a → a !! s = Some y → key y ≤ key vp →
  let j' := Pd.scan_down key vp a j in
  s ≤ j' ≤ j ∧
  (∀ k x, j' < k ≤ j → a !! k = Some x → key vp < key x) ∧
  ∃ x, a !! j' = Some x ∧ key x ≤ key vp.
Proof.
  induction j as [|j IH]; intros s y Hsj Hj Hs Hy; cbn [Pd.scan_down].
  - assert (s = 0) as -> by lia. rewrite Hs.
    rewrite (proj2 (less_ge vp y)) by done. cbv zeta.
    split; [lia|]. split; [intros; lia|]. by exists y.
  - destruct (lookup_lt_is_Some_2 a _ Hj) as [x Hx]. rewrite Hx.
    destruct (Pd.less key vp x) eqn:Hl; cbv zeta.
    + apply less_lt in Hl.
      assert (s ≤ j) as Hsj'.
      { destruct (decide (s = S j)) as [->|]; [|lia].
        assert (x = y) by congruence. subst. lia. }
      destruct (IH s y Hsj' ltac:(lia) Hs Hy) as (H1 & H2 & H3).
      split; [lia|]. split; [|done].
      intros k x' Hk Hx'. destruct (decide (k = S j)) as [->|].
      * assert (x' = x) by congruence. by subst.
      * apply (H2 k); [lia | done].
    + apply less_ge in Hl. split; [lia|]. split; [intros; lia|]. by exists x.
Qed.
End ArgsortFacts.

Section Partition.
Context {A : Type} (key : A → nat).
Implicit Types (a l : list A) (x y z vp tmp : A).

(** The scan loop of the partition: cells up to [pi] are not above the
    pivot, cells from [pj] on are not below it. *)
Lemma hoare_spec vp fuel : ∀ a pi pj,
  pi < pj → pj < length a → pj - pi ≤ fuel →
  (∀ k x, k ≤ pi → a !! k = Some x → key x ≤ key vp) →
  (∀ k x, pj ≤ k → a !! k = Some x → key vp ≤ key x) →
  ∃ p a',
    Pd.hoare key vp a pi pj fuel = (p, a') ∧
    a' ≡ₚ a ∧ length a' = length a ∧ pi < p ≤ pj ∧
    (∀ k x, k < p → a' !! k = Some x → key x ≤ key vp) ∧
    (∀ k x, p ≤ k → a' !! k = Some x → key vp ≤ key x) ∧
    (∀ k, pj ≤ k → a' !! k = a !! k).
Proof.
  induction fuel as [|f IH]; intros a pi pj Hlt Hpj Hfuel Hlow Hhigh; [lia|].
  destruct (lookup_lt_is_Some_2 a pj Hpj) as [yj Hyj].
  destruct (lookup_lt_is_Some_2 a pi ltac:(lia)) as [yi Hyi].
  destruct (scan_up_spec key vp a (S pi) pj yj ltac:(lia) Hyj (Hhigh _ _ (le_n _) Hyj))
    as (Hu1 & Hu2 & xu & Hxu & Hxu').
  destruct (scan_down_spec key vp a (pj - 1) pi yi ltac:(lia) ltac:(lia) Hyi
              (Hlow _ _ (le_n _) Hyi))
    as (Hd1 & Hd2 & xd & Hxd & Hxd').
  cbv zeta in *. cbn [Pd.hoare].
  set (pi' := Pd.scan_up key vp a (S pi)) in *.
  set (pj' := Pd.scan_down key vp a (pj - 1)) in *.
  destruct (Nat.leb_spec pj' pi') as [Hcross|Hgo].
  - exists pi', a. split; [done|]. split; [done|]. split; [done|].
    split; [lia|]. split; [|split; [|done]].
    + intros k x Hk Hx. destruct (decide (k ≤ pi)); [by eapply Hlow|].
      apply Nat.lt_le_incl, (Hu2 k); [lia | done].
    + intros k x Hk Hx. destruct (decide (k = pi')) as [->|].
      { assert (x = xu) by congruence. by subst. }
      destruct (decide (pj ≤ k)); [by eapply Hhigh|].
      apply Nat.lt_le_incl, (Hd2 k); [lia | done].
  - assert (pi' < length a) as Hi' by lia.
    assert (pj' < length a) as Hj' by lia.
    destruct (IH (Pd.swap pi' pj' a) pi' pj')
      as (p & a' & Hrun & Hperm & Hlen & Hp & Hl & Hh & Hframe).
    + done.
    + by rewrite swap_length.
    + lia.
    + intros k x Hk. rewrite swap_lookup by done.
      repeat case_decide; subst; intros Hx.
      * lia.
      * assert (x = xd) by congruence. by subst.
      * destruct (decide (k ≤ pi)); [by eapply Hlow|].
        apply Nat.lt_le_incl, (Hu2 k); [lia | done].
    + intros k x Hk. rewrite swap_lookup by done.
      repeat case_decide; subst; intros Hx.
      * assert (x = xu) by congruence. by subst.
      * lia.
      * destruct (decide (pj ≤ k)); [by eapply Hhigh|].
        apply Nat.lt_le_incl, (Hd2 k); [lia | done].
    + exists p, a'. split; [done|].
      split; [by rewrite Hperm, swap_perm|].
      split; [by rewrite Hlen, swap_length|].
      split; [lia|]. split; [done|]. split; [done|].
      intros k Hk. rewrite Hframe by lia. rewrite swap_lookup by done.
      repeat case_decide; (done || lia).
Qed.

(** The median of three. *)
Lemma median_spec a r m x0 xm xr :
  0 < m → m < r →
  a !! 0 = Some x0 → a !! m = Some xm → a !! r = Some xr →
  let a' := Pd.swap_if_less key m 0 (Pd.swap_if_less key r m (Pd.swap_if_less key m 0 a)) in
  a' ≡ₚ a ∧ length a' = length a ∧
  ∃ y0 ym yr,
    a' !! 0 = Some y0 ∧ a' !! m = Some ym ∧ a' !! r = Some yr ∧
    key y0 ≤ key ym ∧ key ym ≤ key yr.
Proof.
  intros H0m Hmr Hx0 Hxm Hxr. cbv zeta.
  destruct (swap_if_less_spec key m 0 a xm x0 Hxm Hx0)
    as (m1 & z1 & Hm1 & Hz1 & Hle1 & _ & Hk1).
  set (a1 := Pd.swap_if_less key m 0 a) in *.
  assert (a1 !! r = Some xr) as Hr1 by (rewrite Hk1 by lia; done).
  destruct (swap_if_less_spec key r m a1 xr m1 Hr1 Hm1)
    as (r2 & m2 & Hr2 & Hm2 & Hle2 & Hwhich2 & Hk2).
  set (a2 := Pd.swap_if_less key r m a1) in *.
  assert (a2 !! 0 = Some z1) as Hz2 by (rewrite Hk2 by lia; done).
  destruct (swap_if_less_spec key m 0 a2 m2 z1 Hm2 Hz2)
    as (m3 & z3 & Hm3 & Hz3 & Hle3 & Hwhich3 & Hk3).
  set (a3 := Pd.swap_if_less key m 0 a2) in *.
  split; [unfold a3, a2, a1; by rewrite !swap_if_less_perm|].
  split; [unfold a3, a2, a1; by rewrite !swap_if_less_length|].
  exists z3, m3, r2. split; [done|]. split; [done|].
  split; [by rewrite Hk3 by lia|]. split; [done|].
  destruct Hwhich2 as [[-> ->]|[-> ->]], Hwhich3 as [[-> ->]|[-> ->]]; lia.
Qed.

Lemma partition_spec a :
  4 ≤ length a →
  ∃ pi a' p,
    Pd.partition key a = (pi, a') ∧
    a' ≡ₚ a ∧ length a' = length a ∧
    a' !! pi = Some p ∧
    (∀ k x, k < pi → a' !! k = Some x → key x ≤ key p) ∧
    (∀ k x, pi < k → a' !! k = Some x → key p ≤ key x).
Proof.
  intros Hlen. unfold Pd.partition.
  set (r := length a - 1). set (m := r / 2).
  assert (0 < m ∧ m < r - 1 ∧ r < length a) as (H0m & Hmr & Hr).
  { unfold m. pose proof (Nat.div_mod_eq r 2).
    pose proof (Nat.mod_upper_bound r 2). unfold r in *. lia. }
  destruct (lookup_lt_is_Some_2 a 0 ltac:(lia)) as [x0 Hx0].
  destruct (lookup_lt_is_Some_2 a m ltac:(lia)) as [xm Hxm].
  destruct (lookup_lt_is_Some_2 a r Hr) as [xr Hxr].
  destruct (median_spec a r m x0 xm xr ltac:(lia) ltac:(lia) Hx0 Hxm Hxr)
    as (Hperm1 & Hlen1 & y0 & vp & yr & Hy0 & Hvp & Hyr & Hle0 & Hler).
  cbv zeta in *.
  set (a1 := Pd.swap_if_less key m 0 _) in *. rewrite Hvp.
  set (a2 := Pd.swap m (r - 1) a1).
  assert (length a2 = length a) as Hlen2 by (unfold a2; by rewrite swap_length).
  assert (∀ k, a2 !! k = if decide (k = r - 1) then Some vp
                         else if decide (k = m) then a1 !! (r - 1)
                         else a1 !! k) as Ha2.
  { intros k. unfold a2. rewrite swap_lookup by lia. by rewrite Hvp. }
  destruct (hoare_spec vp (length a2) a2 0 (r - 1))
    as (p & a3 & Hrun & Hperm3 & Hlen3 & Hp & Hl & Hh & Hframe).
  - lia.
  - lia.
  - lia.
  - intros k x Hk. assert (k = 0) as -> by lia. rewrite Ha2.
    rewrite !decide_False by lia. intros Hx.
    assert (x = y0) by congruence. by subst.
  - intros k x Hk Hx. rewrite Ha2 in Hx.
    destruct (decide (k = r - 1)); [by injection Hx as <-|].
    destruct (decide (k = m)); [lia|].
    destruct (decide (k = r)) as [->|].
    + assert (x = yr) by congruence. by subst.
    + apply lookup_lt_Some in Hx. lia.
  - rewrite Hrun.
    assert (a3 !! (r - 1) = Some vp) as Hpiv.
    { rewrite Hframe by lia. rewrite Ha2. by rewrite decide_True. }
    assert (p < length a3) as Hp3 by lia.
    destruct (lookup_lt_is_Some_2 a3 p Hp3) as [xp Hxp].
    exists p, (Pd.swap p (r - 1) a3), vp. split; [done|].
    split; [unfold a2 in *; by rewrite swap_perm, Hperm3, swap_perm|].
    split; [rewrite swap_length; lia|].
    split.
    { rewrite swap_lookup by lia.
      destruct (decide (p = r - 1)) as [->|]; [done|].
      by rewrite decide_True. }
    split.
    + intros k x Hk. rewrite swap_lookup by lia.
      rewrite !decide_False by lia. by apply Hl.
    + intros k x Hk. rewrite swap_lookup by lia.
      destruct (decide (k = r - 1)) as [->|].
      * intros Hx. apply (Hh p); [lia | done].
      * rewrite decide_False by lia. apply Hh. lia.
Qed.
End Partition.

Section Heapsort.
Context {A : Type} (key : A → nat).
Implicit Types (a : list A) (x y z vp tmp : A).

Lemma ordered_sorted a :
  ordered key a → StronglySorted (fun x y => key x ≤ key y) a.
Proof.
  induction a as [|x a IH]; intros Ho; constructor.
  - apply IH. intros i j y z Hij Hy Hz.
    apply (Ho (S i) (S j)); [lia | done | done].
  - apply Forall_forall. intros y [j Hj]%list_elem_of_lookup.
    apply (Ho 0 (S j)); [lia | done | done].
Qed.

Lemma insert_exchange a i j tmp z :
  i ≠ j → i < length a → a !! j = Some z →
  <[j := tmp]> (<[i := z]> a) ≡ₚ <[i := tmp]> a.
Proof.
  intros Hij Hi Hj.
  rewrite <- (list_insert_insert_eq a i z tmp).
  apply Permutation_insert_swap.
  - by apply list_lookup_insert_eq.
  - by rewrite list_lookup_insert_ne.
Qed.

(** The larger of the children of a node. *)
Lemma larger_child a j n :
  1 ≤ j → j ≤ n → n ≤ length a →
  ∃ j' z,
    match a !! (j - 1), a !! j with
    | Some x, Some y => if (j <? n) && Pd.less key x y then j + 1 else j
    | _, _ => j
    end = j' ∧
    a !! (j' - 1) = Some z ∧ (j' = j ∨ j' = j + 1) ∧ j' ≤ n ∧
    ∀ c y, c = j ∨ c = j + 1 → c ≤ n → a !! (c - 1) = Some y → key y ≤ key z.
Proof.
  intros H1 Hjn Hn.
  destruct (lookup_lt_is_Some_2 a (j - 1) ltac:(lia)) as [x Hx]. rewrite Hx.
  destruct (a !! j) as [y|] eqn:Hy.
  - destruct (Nat.ltb_spec j n) as [Hlt|Hge]; simpl.
    + destruct (Pd.less key x y) eqn:Hl.
      * apply less_lt in Hl. exists (j + 1), y.
        replace (j + 1 - 1) with j by lia.
        split; [done|]. split; [done|]. split; [by right|]. split; [lia|].
        intros c y' [-> | ->] _ Hy'.
        -- assert (y' = x) by congruence. subst. lia.
        -- replace (j + 1 - 1) with j in Hy' by lia.
           assert (y' = y) by congruence. by subst.
      * apply less_ge in Hl. exists j, x.
        split; [done|]. split; [done|]. split; [by left|]. split; [lia|].
        intros c y' [-> | ->] _ Hy'.
        -- assert (y' = x) by congruence. by subst.
        -- replace (j + 1 - 1) with j in Hy' by lia.
           assert (y' = y) by congruence. by subst.
    + exists j, x.
      split; [done|]. split; [done|]. split; [by left|]. split; [lia|].
      intros c y' [-> | ->] Hc Hy'; [|lia].
      assert (y' = x) by congruence. by subst.
  - exists j, x.
    split; [done|]. split; [done|]. split; [by left|]. split; [lia|].
    intros c y' [-> | ->] Hc Hy'.
    + assert (y' = x) by congruence. by subst.
    + replace (j + 1 - 1) with j in Hy' by lia. congruence.
Qed.

(** Putting [tmp] into the hole at node [i]. *)
Lemma place_heap lo n a i tmp :
  1 ≤ lo → lo ≤ i → i ≤ n → n ≤ length a →
  (∀ k c x y, lo ≤ k → k ≠ i → child c k → c ≤ n →
     a !! (k - 1) = Some x → a !! (c - 1) = Some y → key y ≤ key x) →
  (∀ p x, lo ≤ p → child i p → a !! (p - 1) = Some x → key tmp ≤ key x) →
  (∀ c y, child c i → c ≤ n → a !! (c - 1) = Some y → key y ≤ key tmp) →
  heap_from key lo n (<[i - 1 := tmp]> a).
Proof.
  intros Hlo Hi Hin Hn J1 J3 E k c x y Hk Hc Hcn Hx Hy.
  assert (c ≠ k ∧ k < c) as [Hck Hkc] by (destruct Hc; lia).
  destruct (decide (k = i)) as [->|Hki].
  - rewrite list_lookup_insert_eq in Hx by lia. injection Hx as <-.
    rewrite list_lookup_insert_ne in Hy by lia. by eapply E.
  - rewrite list_lookup_insert_ne in Hx by lia.
    destruct (decide (c = i)) as [->|Hci].
    + rewrite list_lookup_insert_eq in Hy by lia. injection Hy as <-.
      by eapply J3.
    + rewrite list_lookup_insert_ne in Hy by lia. by eapply (J1 k c).
Qed.

Lemma sift_down_spec lo n tmp fuel : ∀ a i j,
  1 ≤ lo → lo ≤ i → i ≤ n → n ≤ length a → j = 2 * i → n < j + fuel →
  (∀ k c x y, lo ≤ k → k ≠ i → child c k → c ≤ n →
     a !! (k - 1) = Some x → a !! (c - 1) = Some y → key y ≤ key x) →
  (∀ p, lo ≤ p → child i p → ∀ c x y, child c i → c ≤ n →
     a !! (i - 1) = Some x → a !! (c - 1) = Some y → key y ≤ key x) →
  (∀ p x, lo ≤ p → child i p → a !! (p - 1) = Some x → key tmp ≤ key x) →
  heap_from key lo n (Pd.sift_down key tmp a i j n fuel) ∧
  length (Pd.sift_down key tmp a i j n fuel) = length a ∧
  Pd.sift_down key tmp a i j n fuel ≡ₚ <[i - 1 := tmp]> a ∧
  (∀ k, n < k → Pd.sift_down key tmp a i j n fuel !! (k - 1) = a !! (k - 1)).
Proof.
  induction fuel as [|f IH]; intros a i j Hlo Hi Hin Hn Hj Hfuel J1 J2 J3.
  - cbn [Pd.sift_down]. split; [|split; [by rewrite length_insert|split; [done|]]].
    + apply place_heap; try done.
      intros c y [-> | ->] Hc; lia.
    + intros k Hk. by rewrite list_lookup_insert_ne by lia.
  - cbn [Pd.sift_down]. destruct (Nat.leb_spec j n) as [Hjn|Hjn].
    2:{ split; [|split; [by rewrite length_insert|split; [done|]]].
        - apply place_heap; try done. intros c y [-> | ->] Hc; lia.
        - intros k Hk. by rewrite list_lookup_insert_ne by lia. }
    destruct (larger_child a j n ltac:(lia) Hjn Hn)
      as (j' & z & -> & Hz & Hj' & Hj'n & Hmax).
    rewrite Hz. destruct (Pd.less key tmp z) eqn:Hl.
    2:{ apply less_ge in Hl.
        split; [|split; [by rewrite length_insert|split; [done|]]].
        - apply place_heap; try done.
          intros c y Hc Hcn Hy. etrans; [|exact Hl].
          apply (Hmax c); [|done..]. destruct Hc; lia.
        - intros k Hk. by rewrite list_lookup_insert_ne by lia. }
    apply less_lt in Hl.
    assert (child j' i) as Hchild by (unfold child; lia).
    assert (i < j') as Hij by lia.
    destruct (IH (<[i - 1 := z]> a) j' (j' + j')) as (H1 & H2 & H3 & H4).
    + done.
    + lia.
    + done.
    + by rewrite length_insert.
    + lia.
    + lia.
    + intros k c x y Hk Hkj Hc Hcn Hx Hy.
      assert (k < c) as Hkc by (destruct Hc; lia).
      destruct (decide (k = i)) as [->|Hki].
      * rewrite list_lookup_insert_eq in Hx by lia. injection Hx as <-.
        rewrite list_lookup_insert_ne in Hy by lia.
        apply (Hmax c); [|done..]. destruct Hc, Hj'; lia.
      * rewrite list_lookup_insert_ne in Hx by lia.
        destruct (decide (c = i)) as [->|Hci].
        -- rewrite list_lookup_insert_eq in Hy by lia. injection Hy as <-.
           destruct (lookup_lt_is_Some_2 a (i - 1) ltac:(lia)) as [xi Hxi].
           etrans; [apply (J2 k Hk Hc j' xi z Hchild Hj'n Hxi Hz)|].
           by apply (J1 k i).
        -- rewrite list_lookup_insert_ne in Hy by lia. by apply (J1 k c).
    + intros p Hp Hpj c x y Hc Hcn Hx Hy.
      assert (j' < c) by (destruct Hc; lia).
      rewrite list_lookup_insert_ne in Hx by lia.
      rewrite list_lookup_insert_ne in Hy by lia.
      apply (J1 j' c); (done || lia).
    + intros p x Hp Hpj Hx.
      assert (p = i) as -> by (destruct Hpj, Hchild; lia).
      rewrite list_lookup_insert_eq in Hx by lia. injection Hx as <-. lia.
    + split; [done|]. split; [by rewrite H2, length_insert|].
      split.
      * rewrite H3. apply insert_exchange; [lia | lia | done].
      * intros k Hk. rewrite H4 by done.
        by rewrite list_lookup_insert_ne by lia.
Qed.

Lemma heapify_spec n : ∀ l a,
  n ≤ length a → l ≤ n → heap_from key (l + 1) n a →
  heap_from key 1 n (Pd.heapify key a n l) ∧
  length (Pd.heapify key a n l) = length a ∧
  Pd.heapify key a n l ≡ₚ a ∧
  (∀ k, n < k → Pd.heapify key a n l !! (k - 1) = a !! (k - 1)).
Proof.
  induction l as [|l IH]; intros a Hn Hl Hheap; cbn [Pd.heapify].
  - done.
  - destruct (lookup_lt_is_Some_2 a l ltac:(lia)) as [tmp Htmp]. rewrite Htmp.
    destruct (sift_down_spec (S l) n tmp n a (S l) (2 * S l))
      as (H1 & H2 & H3 & H4); try done; try lia.
    + intros k c x y Hk Hkl. apply Hheap. lia.
    + intros p Hp [? | ?]; lia.
    + intros p x Hp [? | ?]; lia.
    + replace (S l - 1) with l in H3 by lia.
      rewrite list_insert_id in H3 by done.
      destruct (IH (Pd.sift_down key tmp a (S l) (2 * S l) n n))
        as (G1 & G2 & G3 & G4).
      * by rewrite H2.
      * lia.
      * by replace (l + 1) with (S l) by lia.
      * split; [done|]. split; [by rewrite G2|].
        split; [by rewrite G3|]. intros k Hk. by rewrite G4, H4.
Qed.

Lemma root_is_largest n a top :
  heap_from key 1 n a → n ≤ length a → a !! 0 = Some top →
  ∀ k x, 1 ≤ k → k ≤ n → a !! (k - 1) = Some x → key x ≤ key top.
Proof.
  intros Hheap Hn Htop k. induction (lt_wf k) as [k _ IH].
  intros x Hk1 Hkn Hx.
  destruct (decide (k = 1)) as [->|Hne].
  - simpl in Hx. assert (x = top) by congruence. by subst.
  - set (p := k / 2).
    assert (child k p ∧ 1 ≤ p ∧ p < k) as (Hc & Hp1 & Hpk).
    { unfold child, p. pose proof (Nat.div_mod_eq k 2).
      pose proof (Nat.mod_upper_bound k 2). lia. }
    destruct (lookup_lt_is_Some_2 a (p - 1) ltac:(lia)) as [xp Hxp].
    etrans; [apply (Hheap p k xp x); (done || lia)|].
    apply (IH p); (done || lia).
Qed.

Lemma elem_of_take_lookup a n x :
  x ∈ take n a ↔ ∃ k, 1 ≤ k ∧ k ≤ n ∧ a !! (k - 1) = Some x.
Proof.
  rewrite list_elem_of_lookup. split.
  - intros [i Hi]. pose proof (lookup_lt_Some _ _ _ Hi) as Hlt.
    rewrite length_take in Hlt. rewrite lookup_take_lt in Hi by lia.
    exists (S i). replace (S i - 1) with i by lia. split; [lia|]. split; [lia|done].
  - intros (k & Hk1 & Hkn & Hx). exists (k - 1).
    by rewrite lookup_take_lt by lia.
Qed.

(** The second loop of the heap sort. *)
Lemma extract_spec : ∀ n a,
  n ≤ length a → heap_from key 1 n a →
  (∀ k m x y, 1 ≤ k → k ≤ n → n < m →
     a !! (k - 1) = Some x → a !! (m - 1) = Some y → key x ≤ key y) →
  (∀ m1 m2 x y, n < m1 → m1 ≤ m2 →
     a !! (m1 - 1) = Some x → a !! (m2 - 1) = Some y → key x ≤ key y) →
  length (Pd.extract key a n) = length a ∧
  Pd.extract key a n ≡ₚ a ∧
  ordered key (Pd.extract key a n).
Proof.
  induction n as [|n IH]; intros a Hn Hheap Hcross Hsuffix.
  { cbn [Pd.extract]. split; [done|]. split; [done|].
    intros i j x y Hij Hx Hy. apply (Hsuffix (S i) (S j)); try lia.
    - by replace (S i - 1) with i by lia.
    - by replace (S j - 1) with j by lia. }
  cbn [Pd.extract]. destruct n as [|n'].
  { split; [done|]. split; [done|].
    intros i j x y Hij Hx Hy. destruct (decide (i = j)) as [->|Hne].
    - assert (x = y) by congruence. by subst.
    - destruct i as [|i].
      + apply (Hcross 1 (S j)); try lia; try done.
        by replace (S j - 1) with j by lia.
      + apply (Hsuffix (S (S i)) (S j)); try lia.
        * by replace (S (S i) - 1) with (S i) by lia.
        * by replace (S j - 1) with j by lia. }
  set (n := S n') in *.
  destruct (lookup_lt_is_Some_2 a n ltac:(lia)) as [tmp Htmp].
  destruct (lookup_lt_is_Some_2 a 0 ltac:(lia)) as [top Htop].
  rewrite Htmp, Htop.
  set (a1 := <[n := top]> a).
  assert (length a1 = length a) as Hlen1 by (unfold a1; by rewrite length_insert).
  pose proof (root_is_largest (S n) a top Hheap Hn Htop) as Hroot.
  destruct (sift_down_spec 1 n tmp n a1 1 2) as (H1 & H2 & H3 & H4);
    try done; try lia.
  { intros k c x y Hk Hk1 Hc Hcn. unfold a1.
    assert (k < c) by (destruct Hc; lia).
    rewrite !list_lookup_insert_ne by lia.
    apply Hheap; (done || lia). }
  { intros p Hp [? | ?]; lia. }
  { intros p x Hp [? | ?]; lia. }
  set (a2 := Pd.sift_down key tmp a1 1 2 n n) in *.
  assert (a2 ≡ₚ a) as Hperm.
  { rewrite H3. unfold a1. by apply Permutation_insert_swap. }
  assert (∀ x, x ∈ take n a2 → x ∈ take (S n) a) as Hsub.
  { assert (drop n a2 = drop n (<[1 - 1 := tmp]> a1)) as Hdrop.
    { apply list_eq. intros i. rewrite !lookup_drop.
      replace (n + i) with (S (n + i) - 1) by lia.
      rewrite H4 by lia. by rewrite list_lookup_insert_ne by lia. }
    assert (take n a2 ≡ₚ take n (<[1 - 1 := tmp]> a1)) as Htake.
    { apply (Permutation_app_inv_r (drop n a2)).
      rewrite take_drop. rewrite Hdrop, take_drop. done. }
    intros x Hx. rewrite Htake in Hx.
    apply elem_of_take_lookup in Hx as (k & Hk1 & Hkn & Hx).
    apply elem_of_take_lookup.
    destruct (decide (k = 1)) as [->|Hne].
    - rewrite list_lookup_insert_eq in Hx by lia. injection Hx as <-.
      exists (S n). replace (S n - 1) with n by lia. split; [lia|]. by split.
    - rewrite list_lookup_insert_ne in Hx by lia. unfold a1 in Hx.
      rewrite list_lookup_insert_ne in Hx by lia.
      exists k. split; [lia|]. by split; [lia|]. }
  assert (∀ k, n < k → a2 !! (k - 1) = a1 !! (k - 1)) as Hframe by done.
  destruct (IH a2) as (G1 & G2 & G3).
  - fold a2 in H2. lia.
  - done.
  - intros k m x y Hk1 Hkn Hm Hx Hy.
    assert (x ∈ take (S n) a) as Hxin.
    { apply Hsub, elem_of_take_lookup. by exists k. }
    apply elem_of_take_lookup in Hxin as (k0 & Hk01 & Hk0n & Hx0).
    rewrite Hframe in Hy by done. unfold a1 in Hy.
    destruct (decide (m = S n)) as [->|Hmn].
    + replace (S n - 1) with n in Hy by lia.
      rewrite list_lookup_insert_eq in Hy by lia. injection Hy as <-.
      by apply (Hroot k0).
    + rewrite list_lookup_insert_ne in Hy by lia.
      apply (Hcross k0 m); (done || lia).
  - intros m1 m2 x y Hm1 Hm12 Hx Hy.
    rewrite Hframe in Hx, Hy by lia. unfold a1 in Hx, Hy.
    destruct (decide (m1 = S n)) as [->|Hm1n].
    + replace (S n - 1) with n in Hx by lia.
      rewrite list_lookup_insert_eq in Hx by lia. injection Hx as <-.
      destruct (decide (m2 = S n)) as [->|Hm2n].
      * replace (S n - 1) with n in Hy by lia.
        rewrite list_lookup_insert_eq in Hy by lia. by injection Hy as <-.
      * rewrite list_lookup_insert_ne in Hy by lia.
        apply (Hcross 1 m2); (done || lia).
    + rewrite list_lookup_insert_ne in Hx by lia.
      rewrite list_lookup_insert_ne in Hy by lia.
      apply (Hsuffix m1 m2); (done || lia).
  - split; [rewrite G1; fold a2 in H2; lia|].
    split; [by rewrite G2|done].
Qed.

Lemma aheapsort_spec a :
  Pd.aheapsort key a ≡ₚ a ∧
  StronglySorted (fun x y => key x ≤ key y) (Pd.aheapsort key a).
Proof.
  unfold Pd.aheapsort. set (n := length a).
  destruct (heapify_spec n (n / 2) a) as (H1 & H2 & H3 & _).
  - done.
  - pose proof (Nat.div_mod_eq n 2). lia.
  - intros k c x y Hk Hc Hcn.
    pose proof (Nat.div_mod_eq n 2). pose proof (Nat.mod_upper_bound n 2).
    destruct Hc; lia.
  - destruct (extract_spec n (Pd.heapify key a n (n / 2))) as (G1 & G2 & G3).
    + lia.
    + done.
    + intros k m x y _ _ Hm _ Hy. apply lookup_lt_Some in Hy. lia.
    + intros m1 m2 x y Hm _ Hx. apply lookup_lt_Some in Hx. lia.
    + split; [by rewrite G2|]. by apply ordered_sorted.
Qed.
End Heapsort.

Section Introsort.
Context {A : Type} (key : A → nat).
Implicit Types (a : list A) (x y z : A).

Lemma reverse_sorted (R R' : relation A) a :
  (∀ x y, R x y → R' y x) →
  StronglySorted R a → StronglySorted R' (reverse a).
Proof.
  intros HR. induction 1 as [|x a Ha IH Hx].
  - rewrite reverse_nil. constructor.
  - rewrite reverse_cons. apply StronglySorted_app_2.
    + intros y z Hy ->%list_elem_of_singleton. apply HR.
      rewrite elem_of_reverse in Hy. rewrite Forall_forall in Hx. by apply Hx.
    + done.
    + repeat constructor.
Qed.

Lemma foldl_insert_by a : ∀ sorted,
  StronglySorted (fun x y => negb (Pd.less key x y) = true) sorted →
  foldl (fun sorted x =>
           Pd.insert_by (fun x y => negb (Pd.less key x y)) x sorted)
        sorted a ≡ₚ a ++ sorted ∧
  StronglySorted (fun x y => negb (Pd.less key x y) = true)
    (foldl (fun sorted x =>
              Pd.insert_by (fun x y => negb (Pd.less key x y)) x sorted)
           sorted a).
Proof.
  induction a as [|x a IH]; intros sorted Hs; cbn [foldl]; [done|].
  destruct (IH (Pd.insert_by (fun x y => negb (Pd.less key x y)) x sorted))
    as [Hperm Hsorted].
  - apply (insert_by_sorted _ (fun _ => True)); try done.
    + intros y z _ _. rewrite negb_false_iff, negb_true_iff, less_lt, less_ge.
      lia.
    + intros y z u _ _ _. rewrite !negb_true_iff, !less_ge. lia.
    + by apply Forall_forall.
  - split; [|done]. rewrite Hperm, insert_by_perm.
    by rewrite <- Permutation_middle.
Qed.

Lemma insertion_sort_spec a :
  Pd.insertion_sort key a ≡ₚ a ∧
  StronglySorted (fun x y => key x ≤ key y) (Pd.insertion_sort key a).
Proof.
  unfold Pd.insertion_sort.
  destruct (foldl_insert_by a []) as [Hperm Hsorted]; [constructor|].
  split.
  - by rewrite reverse_Permutation, Hperm, app_nil_r.
  - eapply reverse_sorted; [|exact Hsorted].
    intros x y. cbn beta. by rewrite negb_true_iff, less_ge.
Qed.

Lemma elem_of_take_below a n x :
  x ∈ take n a → ∃ k, k < n ∧ a !! k = Some x.
Proof.
  intros [i Hi]%list_elem_of_lookup.
  pose proof (lookup_lt_Some _ _ _ Hi) as Hlt. rewrite length_take in Hlt.
  exists i. split; [lia|]. by rewrite lookup_take_lt in Hi by lia.
Qed.

Lemma elem_of_drop_above a n x :
  x ∈ drop (S n) a → ∃ k, n < k ∧ a !! k = Some x.
Proof.
  intros [i Hi]%list_elem_of_lookup. rewrite lookup_drop in Hi.
  exists (S n + i). split; [lia | done].
Qed.

Lemma aquicksort_spec fuel : ∀ popped cdepth a,
  length a ≤ fuel →
  Pd.aquicksort_ key fuel popped cdepth a ≡ₚ a ∧
  StronglySorted (fun x y => key x ≤ key y)
                 (Pd.aquicksort_ key fuel popped cdepth a).
Proof.
  induction fuel as [|f IH]; intros popped cdepth a Hlen;
    cbn [Pd.aquicksort_];
    (destruct (popped && (cdepth <? 0)%Z); [apply aheapsort_spec|]);
    (destruct (Nat.ltb_spec 17 (length a)) as [Hbig|Hsmall];
       [|apply insertion_sort_spec]); [lia|].
  destruct (partition_spec key a ltac:(lia))
    as (pi & a' & p & -> & Hperm & Hlen' & Hp & Hlow & Hhigh).
  assert (pi < length a') as Hpi by (by eapply lookup_lt_Some).
  assert (take 1 (drop pi a') = [p]) as ->.
  { by rewrite (drop_S _ _ _ Hp). }
  assert (length (take pi a') ≤ f) as Hl by (rewrite length_take; lia).
  assert (length (drop (S pi) a') ≤ f) as Hr by (rewrite length_drop; lia).
  assert (∀ L R,
            L ≡ₚ take pi a' → R ≡ₚ drop (S pi) a' →
            StronglySorted (fun x y => key x ≤ key y) L →
            StronglySorted (fun x y => key x ≤ key y) R →
            L ++ [p] ++ R ≡ₚ a ∧
            StronglySorted (fun x y => key x ≤ key y) (L ++ [p] ++ R))
    as Hjoin.
  { intros L R HL HR HsL HsR.
    assert (∀ x, x ∈ L → key x ≤ key p) as HLp.
    { intros x Hx. rewrite HL in Hx.
      apply elem_of_take_below in Hx as (k & Hk & Hx). by eapply Hlow. }
    assert (∀ x, x ∈ R → key p ≤ key x) as HRp.
    { intros x Hx. rewrite HR in Hx.
      apply elem_of_drop_above in Hx as (k & Hk & Hx). by eapply Hhigh. }
    split.
    - rewrite HL, HR. cbn [app]. by rewrite (take_drop_middle _ _ _ Hp).
    - apply StronglySorted_app_2; [|done|].
      + intros x y Hx [->|Hy]%elem_of_cons; [by apply HLp|].
        specialize (HLp x Hx). specialize (HRp y Hy). lia.
      + cbn [app]. constructor; [done|]. by apply Forall_forall. }
  destruct (length (take pi a') <? length (drop (S pi) a'));
    apply Hjoin; apply IH; done.
Qed.

Lemma argsort_spec a :
  Pd.argsort key a ≡ₚ a ∧
  StronglySorted (fun x y => key x ≤ key y) (Pd.argsort key a).
Proof. by apply aquicksort_spec. Qed.

End Introsort.

(** *** Counts in descending order *)

Lemma sort_values_perm s : Pd.sort_values s ≡ₚ s.
Proof.
  unfold Pd.sort_values.
  by rewrite reverse_Permutation, (proj1 (argsort_spec _ _)),
     reverse_Permutation.
Qed.

Lemma sort_values_elem x s : x ∈ Pd.sort_values s ↔ x ∈ s.
Proof. by rewrite sort_values_perm. Qed.

Lemma sort_values_length s : length (Pd.sort_values s) = length s.
Proof. by rewrite sort_values_perm. Qed.

Lemma sort_values_sorted s :
  StronglySorted (fun a b => Pd.by_count a b = true) (Pd.sort_values s).
Proof.
  unfold Pd.sort_values.
  eapply reverse_sorted; [|apply argsort_spec].
  intros x y Hxy. cbn beta in *. unfold Pd.by_count. by apply Nat.leb_le.
Qed.

(** *** Tallies *)

Section Tally.
Implicit Types (k x : cell) (l : list cell) (acc : list (cell * nat)).

Lemma occ_app k l1 l2 : occ k (l1 ++ l2) = occ k l1 + occ k l2.
Proof. unfold occ. by rewrite List.filter_app, length_app. Qed.

Lemma occ_cons k x l :
  occ k (x :: l) = (if decide (x = k) then 1 else 0) + occ k l.
Proof.
  unfold occ. cbn [List.filter].
  destruct (decide (x = k));
    [rewrite bool_decide_eq_true_2 | rewrite bool_decide_eq_false_2]; done.
Qed.

Lemma occ_positive k l : k ∈ l ↔ 0 < occ k l.
Proof.
  induction l as [|x l IH]; [rewrite elem_of_nil; unfold occ; simpl; lia|].
  rewrite occ_cons, elem_of_cons.
  destruct (decide (x = k)) as [->|Hne]; [intuition lia|].
  rewrite IH. intuition; (congruence || lia).
Qed.

Lemma first_index_app_l k l1 l2 :
  k ∈ l1 → first_index k (l1 ++ l2) = first_index k l1.
Proof.
  induction l1 as [|x l1 IH]; [by intros ?%elem_of_nil|].
  simpl. destruct (decide (x = k)); [done|].
  intros [?|?]%elem_of_cons; [congruence|]. by rewrite IH.
Qed.

Lemma first_index_app_r k l1 l2 :
  k ∉ l1 → first_index k (l1 ++ l2) = length l1 + first_index k l2.
Proof.
  induction l1 as [|x l1 IH]; [done|].
  rewrite not_elem_of_cons. intros [Hne Hk]. simpl.
  rewrite decide_False by congruence. by rewrite IH.
Qed.

Lemma first_index_lt k l : k ∈ l → first_index k l < length l.
Proof.
  induction l as [|x l IH]; [by intros ?%elem_of_nil|].
  simpl. destruct (decide (x = k)); [lia|].
  intros [?|?]%elem_of_cons; [congruence|]. apply IH in H. lia.
Qed.

Lemma tally_snoc l x : Pd.tally (l ++ [x]) = Pd.bump x (Pd.tally l).
Proof. unfold Pd.tally. by rewrite foldl_snoc. Qed.

Lemma bump_keys x acc :
  map fst (Pd.bump x acc) =
    if decide (x ∈ map fst acc) then map fst acc else map fst acc ++ [x].
Proof.
  induction acc as [|[k n] acc IH]; simpl.
  - done.
  - destruct (decide (k = x)) as [->|Hne]; simpl.
    + destruct (decide (x ∈ x :: map fst acc)) as [H|H]; [done|].
      exfalso. apply H. by left.
    + rewrite IH.
      destruct (decide (x ∈ map fst acc)) as [H1|H1];
        destruct (decide (x ∈ k :: map fst acc)) as [H2|H2]; try done.
      * exfalso. apply H2. by right.
      * apply elem_of_cons in H2 as [?|?]; [congruence | done].
Qed.

Lemma bump_elem_ne x acc k n :
  k ≠ x → (k, n) ∈ Pd.bump x acc ↔ (k, n) ∈ acc.
Proof.
  intros Hne. induction acc as [|[k' n'] acc IH]; simpl.
  - rewrite list_elem_of_singleton, elem_of_nil.
    split; [intros Heq; injection Heq; congruence | done].
  - destruct (decide (k' = x)) as [->|Hk'].
    + rewrite !elem_of_cons.
      split; (intros [Heq|H]; [injection Heq; congruence | by right]).
    + by rewrite !elem_of_cons, IH.
Qed.

Lemma bump_elem_eq x acc n :
  NoDup (map fst acc) →
  (x, n) ∈ Pd.bump x acc ↔
    (∃ m, n = S m ∧ (x, m) ∈ acc) ∨ (n = 1 ∧ x ∉ map fst acc).
Proof.
  induction acc as [|[k' n'] acc IH]; simpl; intros Hnd.
  - rewrite list_elem_of_singleton. split.
    + intros Heq. injection Heq as ->. right.
      split; [done | apply not_elem_of_nil].
    + intros [(m & _ & H)|[-> _]]; [by apply elem_of_nil in H | done].
  - apply NoDup_cons in Hnd as [Hk' Hnd].
    assert (∀ m, (k', m) ∉ acc) as Hfresh.
    { intros m Hm. apply Hk'. apply list_elem_of_fmap. by exists (k', m). }
    destruct (decide (k' = x)) as [->|Hne].
    + split.
      * intros [Heq|H]%elem_of_cons; [|by apply Hfresh in H].
        injection Heq as ->. left. exists n'. split; [done | by left].
      * intros [(m & -> & Hm)|[_ H]].
        -- apply elem_of_cons in Hm as [Heq|Hm]; [|by apply Hfresh in Hm].
           injection Heq as ->. by left.
        -- exfalso. apply H. by left.
    + rewrite elem_of_cons, (IH Hnd). split.
      * intros [Heq|[(m & -> & Hm)|[-> Hx]]].
        -- injection Heq; congruence.
        -- left. exists m. split; [done | by right].
        -- right. split; [done|]. apply not_elem_of_cons.
           split; [congruence | done].
      * intros [(m & -> & Hm)|[-> Hx]].
        -- apply elem_of_cons in Hm as [Heq|Hm]; [injection Heq; congruence|].
           right. left. eauto.
        -- apply not_elem_of_cons in Hx as [_ Hx]. right. by right.
Qed.

Lemma bump_sum x acc :
  sum_list (map snd (Pd.bump x acc)) = S (sum_list (map snd acc)).
Proof.
  induction acc as [|[k n] acc IH]; simpl; [done|].
  destruct (decide (k = x)); simpl; [done|]. rewrite IH. lia.
Qed.

(** The tally holds each value that occurs exactly once, with the
    number of its occurrences. *)
Lemma tally_spec l :
  NoDup (map fst (Pd.tally l)) ∧
  ∀ k n, (k, n) ∈ Pd.tally l ↔ k ∈ l ∧ n = occ k l.
Proof.
  induction l as [|x l [Hnd IH]] using rev_ind.
  - split; [constructor|]. intros k n. cbn.
    rewrite !elem_of_nil. tauto.
  - assert (∀ k, k ∈ map fst (Pd.tally l) ↔ k ∈ l) as Hkeys.
    { intros k. rewrite list_elem_of_fmap. split.
      - intros ([k' n] & -> & H). by apply IH in H as [? _].
      - intros H. exists (k, occ k l). split; [done|]. by apply IH. }
    rewrite tally_snoc. split.
    + rewrite bump_keys. destruct (decide _) as [|Hx]; [done|].
      apply NoDup_app. split; [done|]. split; [|apply NoDup_singleton].
      intros k Hk ->%list_elem_of_singleton. done.
    + intros k n. rewrite elem_of_app, list_elem_of_singleton, occ_app, occ_cons.
      change (occ k []) with 0.
      destruct (decide (x = k)) as [->|Hne].
      * rewrite (bump_elem_eq _ _ _ Hnd), Hkeys. split.
        -- intros [(m & -> & Hm)|[-> Hk]].
           ++ apply IH in Hm as [? ->]. split; [by right | lia].
           ++ split; [by right|]. rewrite occ_positive in Hk. lia.
        -- intros [_ ->]. destruct (decide (k ∈ l)) as [Hin|Hout].
           ++ left. exists (occ k l). split; [lia | by apply IH].
           ++ right. split; [|done]. rewrite occ_positive in Hout. lia.
      * rewrite bump_elem_ne by congruence. rewrite IH.
        split; (intros [Hk ->]; split; [|lia]);
          [by left | by destruct Hk as [?|?]; [|congruence]].
Qed.

Lemma tally_NoDup l : NoDup (map fst (Pd.tally l)).
Proof. apply tally_spec. Qed.

Lemma tally_elem l k n : (k, n) ∈ Pd.tally l ↔ k ∈ l ∧ n = occ k l.
Proof. apply tally_spec. Qed.

Lemma tally_keys l k : k ∈ map fst (Pd.tally l) ↔ k ∈ l.
Proof.
  rewrite list_elem_of_fmap. split.
  - intros ([k' n] & -> & H). by apply tally_elem in H as [? _].
  - intros H. exists (k, occ k l). split; [done|]. by apply tally_elem.
Qed.

Lemma tally_sum l : sum_list (map snd (Pd.tally l)) = length l.
Proof.
  induction l as [|x l IH] using rev_ind; [done|].
  rewrite tally_snoc, bump_sum, IH, length_app. simpl. lia.
Qed.

(** Keys stand in the order in which they were first met. *)
Lemma tally_order l a b :
  precedes (map fst (Pd.tally l)) a b →
  first_index a l < first_index b l.
Proof.
  revert a b. induction l as [|x l IH] using rev_ind; intros a b.
  - by intros ?%precedes_nil.
  - rewrite tally_snoc, bump_keys.
    destruct (decide _) as [Hx|Hx].
    + intros H. destruct (precedes_elem _ _ _ H) as [Ha Hb].
      rewrite tally_keys in Ha, Hb.
      rewrite !first_index_app_l by done. by apply IH.
    + rewrite tally_keys in Hx.
      intros [H|[Ha ->]]%precedes_snoc.
      * destruct (precedes_elem _ _ _ H) as [Ha Hb].
        rewrite tally_keys in Ha, Hb.
        rewrite !first_index_app_l by done. by apply IH.
      * rewrite tally_keys in Ha.
        rewrite first_index_app_l, first_index_app_r by done.
        apply first_index_lt in Ha. lia.
Qed.

Lemma tally_nil l : Pd.tally l = [] → l = [].
Proof.
  intros H. destruct l as [|x l]; [done|].
  assert (x ∈ map fst (Pd.tally (x :: l))) as Hx
    by (apply tally_keys; by left).
  rewrite H in Hx. by apply elem_of_nil in Hx.
Qed.
End Tally.

(* ================================================================== *)
(** ** The views *)
(* ================================================================== *)

Section Columns.
Implicit Types (c : label) (cols : list label).

Lemma position_lt c cols j : Pd.position c cols = Some j → j < length cols.
Proof.
  revert j. induction cols as [|x cols IH]; simpl; intros j; [done|].
  destruct (decide (x = c)); [intros [= <-]; lia|].
  destruct (Pd.position c cols) as [j'|]; [|done].
  intros [= <-]. specialize (IH j' eq_refl). lia.
Qed.

Lemma position_app_l c cols more j :
  Pd.position c cols = Some j → Pd.position c (cols ++ more) = Some j.
Proof.
  revert j. induction cols as [|x cols IH]; simpl; intros j; [done|].
  destruct (decide (x = c)); [done|].
  destruct (Pd.position c cols) as [j'|]; [|done].
  intros [= <-]. by rewrite (IH j').
Qed.

Lemma position_app_new c cols :
  Pd.position c cols = None →
  Pd.position c (cols ++ [c]) = Some (length cols).
Proof.
  induction cols as [|x cols IH]; simpl.
  - by rewrite decide_True.
  - destruct (decide (x = c)); [done|].
    destruct (Pd.position c cols); [done|]. intros _. by rewrite IH.
Qed.
End Columns.

Lemma getitem_cell_of tbl c :
  is_Some (Pd.position c (columns tbl)) →
  Pd.getitem tbl c = Done (map (fun r => (fst r, cell_of tbl c (snd r))) (body tbl)).
Proof.
  intros [j Hj]. unfold Pd.getitem, cell_of. by rewrite Hj.
Qed.

Lemma select_attack_part tbl :
  viewable tbl →
  Pd.select tbl
    (Pd.eq_mask
       (map (fun r => (fst r, cell_of tbl "attack_category" (snd r))) (body tbl))
       (str "Attack"))
  = attack_part tbl.
Proof.
  intros V. unfold Pd.select, Pd.eq_mask, Pd.apply, attack_part.
  f_equal. rewrite map_map. cbn [fst snd]. apply List.filter_ext_in.
  intros r Hr.
  rewrite (at_label_map
             (fun r => bool_decide (cell_of tbl "attack_category" (snd r)
                                    = str "Attack")));
    [done | apply (distinct_labels _ V) | by apply list_elem_of_In].
Qed.

Lemma attack_rows_exec w df tbl :
  heap w !! df = Some tbl → viewable tbl →
  attack_rows df w =
    (World (rng w) (disk w) (heap w ++ [attack_part tbl]) (console w),
     Done (length (heap w))).
Proof.
  intros Hdf V. unfold attack_rows, bind, deref, lift, alloc.
  rewrite Hdf, (getitem_cell_of _ _ (has_category _ V)).
  by rewrite (select_attack_part _ V).
Qed.

Lemma attack_part_viewable tbl : viewable tbl → viewable (attack_part tbl).
Proof.
  intros [Hc Ht Hnd Hrect]. split; cbn [attack_part columns body]; try done.
  - clear -Hnd. induction (body tbl) as [|r b IH]; simpl; [constructor|].
    apply NoDup_cons in Hnd as [Hr Hnd].
    destruct (is_attack tbl (snd r)); simpl; [|by apply IH].
    apply NoDup_cons. split; [|by apply IH].
    intros (q & Hq & Hin)%list_elem_of_fmap. apply Hr.
    apply list_elem_of_fmap. exists q. split; [done|].
    apply list_elem_of_In in Hin. apply List.filter_In in Hin as [Hin _].
    by apply list_elem_of_In.
  - apply Forall_forall. intros r Hr. rewrite Forall_forall in Hrect.
    apply Hrect. apply list_elem_of_In in Hr.
    apply List.filter_In in Hr as [Hr _]. by apply list_elem_of_In.
Qed.

Lemma filter_map_comm {A B} (f : A → B) (P : B → bool) (l : list A) :
  List.filter P (map f l) = map f (List.filter (fun x => P (f x)) l).
Proof.
  induction l as [|x l IH]; simpl; [done|].
  destruct (P (f x)); simpl; by rewrite IH.
Qed.

Lemma cell_of_attack_part tbl c row :
  cell_of (attack_part tbl) c row = cell_of tbl c row.
Proof. done. Qed.

Lemma attack_part_labels tbl :
  List.filter Pd.notna
    (map snd (map (fun r => (fst r, cell_of (attack_part tbl) "attack_type"
                                      (snd r)))
                  (body (attack_part tbl))))
  = attack_labels tbl.
Proof.
  unfold attack_labels, attack_part, rows_of. cbn [body]. f_equal.
  rewrite map_map. cbn [snd]. rewrite filter_map_comm. by rewrite map_map.
Qed.

(** What the top-attack view does. *)
Lemma plot_top_attacks_exec w df tbl :
  heap w !! df = Some tbl → viewable tbl →
  plot_top_attacks df w =
    (World (rng w) (disk w) (heap w ++ [attack_part tbl])
       (console w ++
          [top_event (top_of tbl)]),
     Done tt).
Proof.
  intros Hdf V. unfold plot_top_attacks.
  rewrite (bind_done _ _ _ _ _ (attack_rows_exec _ _ _ Hdf V)).
  unfold bind, deref, lift. cbn [heap]. rewrite deref_alloc_last.
  rewrite (getitem_cell_of (attack_part tbl) "attack_type")
    by apply (has_type _ (attack_part_viewable _ V)).
  unfold Pd.value_counts.
  replace (List.filter Pd.notna _) with (attack_labels tbl)
    by (symmetry; apply attack_part_labels).
  unfold top_event, top_of. by destruct (take 10 _).
Qed.

(** *** The trend view *)

Lemma imap_as_map {A B} (f : nat → A → B) (l : list A) (d : A) :
  imap f l = map (fun i => f i (nth i l d)) (seq 0 (length l)).
Proof.
  apply list_eq. intros i.
  change (map ?g ?s) with (g <$> s).
  rewrite list_lookup_imap, list_lookup_fmap.
  destruct (l !! i) as [x|] eqn:Hx; simpl.
  - rewrite lookup_seq_lt by (by eapply lookup_lt_Some). simpl.
    by rewrite (nth_lookup_Some _ _ _ _ Hx).
  - by rewrite lookup_seq_ge by (by apply lookup_ge_None).
Qed.

Lemma zip_with_positions {A B} (f : A → cell → B) (l : list A) :
  zip_with f l (map VInt (seqZ 0 (Z.of_nat (length l)))) =
  imap (fun i x => f x (VInt (Z.of_nat i))) l.
Proof.
  apply list_eq. intros i.
  change (map VInt ?s) with (VInt <$> s).
  rewrite lookup_zip_with, list_lookup_imap, list_lookup_fmap.
  destruct (l !! i) as [x|] eqn:Hx; simpl; [|done].
  apply lookup_lt_Some in Hx.
  rewrite lookup_seqZ_lt by lia. simpl. by rewrite Z.add_0_l.
Qed.

Lemma timed_fst tbl : map fst (body (timed tbl)) = map fst (body tbl).
Proof.
  cbn [timed body]. apply list_eq. intros i.
  change (map fst ?s) with (fst <$> s).
  rewrite !list_lookup_fmap, list_lookup_imap. by destruct (body tbl !! i).
Qed.

Lemma setitem_time tbl :
  Pd.position "time" (columns tbl) = None →
  Pd.setitem_values tbl "time" (map VInt (seqZ 0 (Z.of_nat (Pd.len tbl))))
    = Done (timed tbl).
Proof.
  intros Hpos. unfold Pd.setitem_values, Pd.len.
  rewrite length_map, length_seqZ, Nat2Z.id, Nat.eqb_refl, Hpos.
  unfold timed. f_equal. f_equal. by rewrite zip_with_positions.
Qed.

Lemma is_attack_timed tbl row v :
  viewable tbl → length row = length (columns tbl) →
  is_attack (timed tbl) (row ++ [v]) = is_attack tbl row.
Proof.
  intros V Hlen. destruct (has_category _ V) as [j Hj].
  unfold is_attack, cell_of. cbn [timed columns].
  rewrite (position_app_l _ _ _ _ Hj), Hj.
  apply position_lt in Hj. by rewrite app_nth1 by lia.
Qed.

Lemma time_of_timed tbl row v :
  Pd.position "time" (columns tbl) = None →
  length row = length (columns tbl) →
  cell_of (timed tbl) "time" (row ++ [v]) = v.
Proof.
  intros Hpos Hlen. unfold cell_of. cbn [timed columns].
  rewrite (position_app_new _ _ Hpos), <- Hlen.
  by rewrite nth_middle.
Qed.

Lemma timed_viewable tbl :
  viewable tbl → viewable (timed tbl).
Proof.
  intros V. destruct V as [[jc Hc] [jt Ht] Hnd Hrect]. split.
  - exists jc. by apply position_app_l.
  - exists jt. by apply position_app_l.
  - by rewrite timed_fst.
  - cbn [timed columns body]. apply Forall_forall. intros r Hr.
    apply list_elem_of_lookup in Hr as [i Hi].
    rewrite list_lookup_imap in Hi.
    destruct (body tbl !! i) as [r0|] eqn:Hr0; [|done].
    injection Hi as <-. cbn [snd]. rewrite !length_app. simpl.
    rewrite Forall_forall in Hrect. rewrite (Hrect r0); [done|].
    by eapply list_elem_of_lookup_2.
Qed.

Lemma floordiv_ints (s : Series cell) n :
  Forall (fun p => is_int (snd p)) s →
  Pd.floordiv s n = Done (map (fun p => (fst p, int_div n (snd p))) s).
Proof.
  induction 1 as [|[i v] s [z Hz] Hs IH]; simpl; [done|].
  simpl in Hz. subst v. by rewrite IH.
Qed.

(** The group keys of the trend view, one per attack row. *)
Lemma trend_keys tbl :
  viewable tbl → Pd.position "time" (columns tbl) = None →
  map (fun r => int_div 1000 (cell_of (timed tbl) "time" (snd r)))
      (List.filter (fun r => is_attack (timed tbl) (snd r)) (body (timed tbl)))
  = map (fun i => VInt (Z.of_nat i / 1000)) (attack_positions tbl).
Proof.
  intros V Hpos. unfold attack_positions, Pd.len, rows_of.
  cbn [timed body].
  rewrite (imap_as_map _ _ (0%Z, [])), filter_map_comm, map_map.
  cbn [snd].
  assert (∀ i, In i (seq 0 (length (body tbl))) →
               body tbl !! i = Some (nth i (body tbl) (0%Z, [])) ∧
               length (snd (nth i (body tbl) (0%Z, []))) = length (columns tbl))
    as Hrow.
  { intros i [_ Hi]%in_seq. simpl in Hi.
    destruct (lookup_lt_is_Some_2 (body tbl) i Hi) as [r Hr].
    rewrite (nth_lookup_Some _ _ _ _ Hr). split; [done|].
    pose proof (rectangular _ V) as Hrect. rewrite Forall_forall in Hrect.
    apply Hrect. by eapply list_elem_of_lookup_2. }
  rewrite (List.filter_ext_in _
             (fun i => match map snd (body tbl) !! i with
                       | Some row => is_attack tbl row
                       | None => false
                       end)).
  - apply map_ext_in. intros i [Hi _]%List.filter_In.
    destruct (Hrow i Hi) as [_ Hlen].
    by rewrite (time_of_timed _ _ _ Hpos Hlen).
  - intros i Hi. destruct (Hrow i Hi) as [Hr Hlen].
    rewrite (is_attack_timed _ _ _ V Hlen).
    change (map snd ?s) with (snd <$> s).
    by rewrite list_lookup_fmap, Hr.
Qed.

Lemma notna_ints (l : list Z) :
  List.filter Pd.notna (map VInt l) = map VInt l.
Proof. induction l; simpl; congruence. Qed.

Lemma groupby_trend tbl :
  viewable tbl → Pd.position "time" (columns tbl) = None →
  Pd.groupby_size (attack_part (timed tbl))
    (map (fun p => (fst p, int_div 1000 (snd p)))
       (map (fun r => (fst r, cell_of (timed tbl) "time" (snd r)))
            (body (timed tbl))))
  = trend_of tbl.
Proof.
  intros V Hpos. unfold Pd.groupby_size, trend_of, interval_keys.
  f_equal. f_equal.
  rewrite map_map. cbn [fst snd attack_part body].
  rewrite (map_ext_in _
    (fun r => int_div 1000 (cell_of (timed tbl) "time" (snd r)))).
  - rewrite (trend_keys _ V Hpos).
    rewrite <- (map_map (fun i => Z.of_nat i / 1000)%Z VInt).
    apply notna_ints.
  - intros r [Hr _]%List.filter_In.
    rewrite (at_label_map
               (fun r => int_div 1000 (cell_of (timed tbl) "time" (snd r))));
      [done | apply (distinct_labels _ (timed_viewable _ V))
            | by apply list_elem_of_In].
Qed.

(** What the trend view does. *)
Lemma plot_attack_trend_exec w df tbl :
  heap w !! df = Some tbl → viewable tbl →
  Pd.position "time" (columns tbl) = None →
  plot_attack_trend df w =
    (World (rng w) (disk w)
       (<[df := timed tbl]> (heap w) ++ [attack_part (timed tbl)])
       (console w ++ [trend_event (trend_of tbl)]),
     Done tt).
Proof.
  intros Hdf V Hpos.
  assert (df < length (heap w)) as Hlt by (by eapply lookup_lt_Some).
  set (w1 := World (rng w) (disk w) (<[df := timed tbl]> (heap w)) (console w)).
  assert (heap w1 !! df = Some (timed tbl)) as Hdf1
    by (by apply list_lookup_insert_eq).
  pose proof (timed_viewable _ V) as V1.
  unfold plot_attack_trend.
  rewrite (bind_done _ _ w w tbl) by (unfold deref; by rewrite Hdf).
  rewrite (bind_done _ _ w w (timed tbl))
    by (unfold lift; by rewrite setitem_time).
  rewrite (bind_done _ _ w w1 tt) by done.
  cbv zeta.
  rewrite (bind_done _ _ _ _ _ (attack_rows_exec _ _ _ Hdf1 V1)).
  unfold bind, deref, lift. cbn [heap].
  rewrite deref_alloc_last. cbn [heap disk rng console].
  assert ((heap w1 ++ [attack_part (timed tbl)]) !! df = Some (timed tbl))
    as ->.
  { rewrite lookup_app_l; [done|]. by eapply lookup_lt_Some. }
  rewrite (getitem_cell_of (timed tbl) "time")
    by (exists (length (columns tbl)); by apply position_app_new).
  rewrite floordiv_ints.
  - rewrite (groupby_trend _ V Hpos). unfold trend_event, w1, print.
    cbn [heap disk rng console]. by destruct (trend_of tbl).
  - apply Forall_forall. intros p (r & -> & Hr)%list_elem_of_fmap. cbn [snd].
    cbn [timed body] in Hr. apply list_elem_of_lookup in Hr as [i Hi].
    rewrite list_lookup_imap in Hi.
    destruct (body tbl !! i) as [r0|] eqn:Hr0; [|done].
    injection Hi as <-. cbn [snd]. exists (Z.of_nat i).
    apply time_of_timed; [done|].
    pose proof (rectangular _ V) as Hrect. rewrite Forall_forall in Hrect.
    apply Hrect. by eapply list_elem_of_lookup_2.
Qed.

(* ================================================================== *)
(** ** Properties *)
(* ================================================================== *)

(** *** Loaded tables *)

Lemma derive_fst tbl : map fst (body (derive tbl)) = map fst (body tbl).
Proof. unfold derive. cbn [body]. by rewrite map_map. Qed.

Lemma loaded_viewable lines raw :
  Pd.read_csv lines = Done raw → length (columns raw) = 42 →
  viewable (derive (named raw)) ∧
  Pd.position "time" (columns (derive (named raw))) = None.
Proof.
  intros Hread Hwidth. destruct (read_csv_body _ _ Hread) as [Hnd Hwide].
  split; [split|reflexivity].
  - by exists 42.
  - by exists 41.
  - by rewrite derive_fst.
  - cbn [derive named columns body]. apply Forall_forall.
    intros r (r0 & -> & Hr0)%list_elem_of_fmap. cbn [snd].
    unfold with_category. rewrite length_app. rewrite Forall_forall in Hwide.
    rewrite (Hwide r0 Hr0), Hwidth. reflexivity.
Qed.

(** The table a successful load leaves behind. *)
Lemma load_table w w1 df :
  load_and_prepare_data w = (w1, Done df) →
  ∃ lines raw,
    disk w !! FILE_NAME = Some lines ∧
    Pd.read_csv lines = Done raw ∧
    length (columns raw) = 42 ∧
    heap w1 !! df = Some (derive (named raw)) ∧
    console w1 = console w ++ load_events (named raw) ∧
    disk w1 = disk w.
Proof.
  intros (lines & raw & Hf & Hr & Hw & -> & ->)%load_inv.
  exists lines, raw. cbn [heap console disk].
  by rewrite deref_alloc_last.
Qed.

Lemma cell_of_loaded_type raw row :
  length row = 42 →
  cell_of (derive (named raw)) "attack_type" (with_category row)
    = nth 41 row VNaN.
Proof.
  intros Hlen. unfold cell_of, with_category. cbn [derive named columns].
  change (Pd.position _ _) with (Some 41). cbv beta iota.
  by rewrite app_nth1 by lia.
Qed.

Lemma cell_of_loaded_category raw row :
  length row = 42 →
  cell_of (derive (named raw)) "attack_category" (with_category row)
    = category (nth 41 row VNaN).
Proof.
  intros Hlen. unfold cell_of, with_category. cbn [derive named columns].
  change (Pd.position _ _) with (Some 42). cbv beta iota.
  rewrite app_nth2 by lia. by rewrite Hlen.
Qed.

Lemma category_values x :
  (category x = str "Normal" ↔ x = str "normal.") ∧
  (x ≠ str "normal." → category x = str "Attack").
Proof.
  unfold category. destruct (decide (x = str "normal.")) as [->|Hne].
  - split; [done|]. by intros [].
  - split; [|done]. split; [discriminate | done].
Qed.

(** Loading the sample file succeeds and puts the table at address 0. *)
Lemma sample_loaded :
  load_and_prepare_data (on_disk sample_file) = (sample_world, Done 0).
Proof.
  unfold sample_world.
  destruct (load_and_prepare_data (on_disk sample_file)) as [w o] eqn:Hrun.
  change o with (snd (w, o)). rewrite <- Hrun. reflexivity.
Qed.

(** The lambda compares with the one literal, character for character. *)
Example category_is_exact :
  category (str "normal.") = str "Normal" ∧
  category (str "Normal.") = str "Attack" ∧
  category (str "normal") = str "Attack" ∧
  category (str "normal. ") = str "Attack" ∧
  category (str "xnormal.") = str "Attack" ∧
  category VNaN = str "Attack" ∧
  category (VInt 0) = str "Attack".
Proof. repeat split. Qed.

(** C1.  For every table the loader returns, row by row: the derived
    attack_category is "Normal" exactly when the attack_type cell is the
    string "normal." itself, and it is "Attack" for every other content of
    that cell. *)
Theorem category_exact_match w w' df :
  load_and_prepare_data w = (w', Done df) →
  ∃ tbl labels cats,
    heap w' !! df = Some tbl ∧
    Pd.getitem tbl "attack_type" = Done labels ∧
    Pd.getitem tbl "attack_category" = Done cats ∧
    Forall2 (fun l c =>
               fst c = fst l ∧
               (snd c = str "Normal" ↔ snd l = str "normal.") ∧
               (snd l ≠ str "normal." → snd c = str "Attack"))
            labels cats.
Proof.
  intros (lines & raw & Hf & Hread & Hwidth & Htbl & _)%load_table.
  destruct (loaded_viewable _ _ Hread Hwidth) as [V _].
  destruct (read_csv_body _ _ Hread) as [_ Hwide]. rewrite Hwidth in Hwide.
  eexists _, _, _. split; [exact Htbl|].
  split; [apply (getitem_cell_of _ _ (has_type _ V))|].
  split; [apply (getitem_cell_of _ _ (has_category _ V))|].
  cbn [derive named body]. rewrite !map_map. cbn [fst snd].
  induction Hwide as [|r b Hr Hb IH]; simpl; constructor; [|done].
  cbn [fst snd]. split; [done|].
  rewrite cell_of_loaded_type, cell_of_loaded_category by done.
  apply category_values.
Qed.

Lemma category_exact_match_witness :
  ∃ tbl labels cats,
    heap sample_world !! 0 = Some tbl ∧
    Pd.getitem tbl "attack_type" = Done labels ∧
    Pd.getitem tbl "attack_category" = Done cats ∧
    Forall2 (fun l c =>
               fst c = fst l ∧
               (snd c = str "Normal" ↔ snd l = str "normal.") ∧
               (snd l ≠ str "normal." → snd c = str "Attack"))
            labels cats.
Proof.
  exact (category_exact_match (on_disk sample_file) sample_world 0
           sample_loaded).
Defined.

(** *** Fields by name *)

Lemma position_lookup (cols : list label) j c :
  NoDup cols → cols !! j = Some c → Pd.position c cols = Some j.
Proof.
  revert j. induction cols as [|x cols IH]; intros j Hnd Hj; [done|].
  apply NoDup_cons in Hnd as [Hx Hnd]. simpl.
  destruct j as [|j]; simpl in Hj.
  - injection Hj as ->. by rewrite decide_True.
  - rewrite decide_False.
    + by rewrite (IH j).
    + intros ->. apply Hx. by eapply list_elem_of_lookup_2.
Qed.

Lemma row_conforms_lookup decl : ∀ row j name p,
  row_conforms decl row = true →
  decl !! j = Some (name, p) →
  conforms p (nth j row VNaN) = true.
Proof.
  induction decl as [|[n0 p0] decl IH]; intros [|v row] j name p; simpl;
    try done.
  intros [Hv Hrow]%andb_true_iff Hj. destruct j as [|j]; simpl in Hj.
  - by injection Hj as _ <-.
  - by apply (IH row j name p).
Qed.

Lemma schema_order : map fst DECLARED = KDD_COLUMNS.
Proof. reflexivity. Qed.

Lemma schema_NoDup : NoDup (map Name KDD_COLUMNS).
Proof. apply (bool_decide_unpack _). by vm_compute. Qed.

Lemma row_conforms_fields row :
  row_conforms DECLARED row = true →
  Forall (fun np => conforms (snd np) (field_of (fst np) row) = true) DECLARED.
Proof.
  intros Hrow. apply Forall_forall. intros [name p] Hin.
  apply list_elem_of_lookup in Hin as [j Hj]. cbn [fst snd].
  unfold field_of.
  rewrite (position_lookup _ j); [by eapply row_conforms_lookup | apply schema_NoDup |].
  rewrite <- schema_order.
  change (map Name (map fst DECLARED)) with ((Name ∘ fst) <$> DECLARED).
  by rewrite list_lookup_fmap, Hj.
Qed.

(** C6.  The generator always returns; each row of the frame it builds,
    and of the file it writes, has exactly 42 values that follow the
    declaration in schema order: every field, read by its name, conforms to
    the policy declared for it: rates lie in [0,1), bounded integers within
    their inclusive ranges, the five constant fields are 0. *)
Theorem generated_rows_conform num_rows w :
  ∃ w' df frame,
    generate_synthetic_data num_rows w = (w', Done df) ∧
    heap w' !! df = Some frame ∧
    columns frame = map Name KDD_COLUMNS ∧
    map fst DECLARED = KDD_COLUMNS ∧
    length (rows_of frame) = Z.to_nat num_rows ∧
    disk w' !! FILE_NAME = Some (map (map Pd.cell_text) (rows_of frame)) ∧
    Forall (fun row =>
              length row = 42 ∧
              row_conforms DECLARED row = true ∧
              Forall (fun np => conforms (snd np) (field_of (fst np) row) = true)
                     DECLARED)
           (rows_of frame).
Proof.
  destruct (generate_synthetic_data_exec num_rows w)
    as (rng' & rows & Hrun & Hlen & Hall).
  eexists _, _, _. split; [exact Hrun|]. cbn [heap disk].
  split; [apply deref_alloc_last|]. unfold rows_of. cbn [columns body].
  rewrite range_index_snd.
  split; [done|]. split; [done|]. split; [done|].
  split; [by rewrite lookup_insert_eq|].
  eapply Forall_impl; [exact Hall|]. intros row Hrow. cbn beta.
  split; [by apply (row_conforms_length DECLARED)|].
  split; [done | by apply row_conforms_fields].
Qed.

(** *** Writing and reading back *)

Lemma conforms_convert p v :
  conforms p v = true → Pd.convert (kind p) (Pd.cell_text v) = v.
Proof. destruct p, v as [| |[]|]; simpl; done. Qed.

Lemma conforms_infer p (col : list cell) :
  col ≠ [] → Forall (fun v => conforms p v = true) col →
  Pd.infer (map Pd.cell_text col) = kind p.
Proof.
  intros Hne Hall. unfold Pd.infer.
  destruct p; simpl.
  - rewrite (proj2 (forallb_forall _ _)); [done|].
    intros t (v & <- & Hv)%in_map_iff.
    rewrite Forall_forall in Hall. apply list_elem_of_In, Hall in Hv.
    by destruct v.
  - destruct col as [|v col]; [done|]. apply Forall_cons in Hall as [Hv Hall].
    by destruct v as [| |[]|].
  - rewrite (proj2 (forallb_forall _ _)); [done|].
    intros t (v & <- & Hv)%in_map_iff.
    rewrite Forall_forall in Hall. apply list_elem_of_In, Hall in Hv.
    by destruct v.
  - destruct col as [|v col]; [done|]. apply Forall_cons in Hall as [Hv Hall].
    destruct v; try done. simpl.
    rewrite (proj2 (forallb_forall _ _)); [done|].
    intros t (v & <- & Hv')%in_map_iff.
    rewrite Forall_forall in Hall. apply list_elem_of_In, Hall in Hv'.
    by destruct v.
Qed.

Lemma field_text j (row : list cell) :
  Pd.field j (map Pd.cell_text row) = Pd.cell_text (nth j row VNaN).
Proof. unfold Pd.field. apply (map_nth Pd.cell_text row VNaN j). Qed.

Lemma infer_columns decl (rows : list (list cell)) :
  rows ≠ [] → Forall (fun r => row_conforms decl r = true) rows →
  map (fun j => Pd.infer (map (Pd.field j) (map (map Pd.cell_text) rows)))
      (seq 0 (length decl))
  = map (fun np => kind (snd np)) decl.
Proof.
  intros Hne Hall. apply list_eq. intros j.
  change (map ?f ?l) with (f <$> l). rewrite !list_lookup_fmap.
  destruct (decl !! j) as [[name p]|] eqn:Hj; simpl.
  - rewrite lookup_seq_lt by (by eapply lookup_lt_Some). simpl. f_equal.
    assert (map (Pd.field j) (map (map Pd.cell_text) rows)
            = map Pd.cell_text (map (fun r => nth j r VNaN) rows)) as ->.
    { rewrite !map_map. apply map_ext. intros r. apply field_text. }
    apply conforms_infer.
    + by destruct rows.
    + apply Forall_fmap. eapply Forall_impl; [exact Hall|].
      intros r Hr. simpl. exact (row_conforms_lookup decl r j name p Hr Hj).
  - by rewrite lookup_seq_ge by (by apply lookup_ge_None).
Qed.

Lemma convert_back decl : ∀ row,
  row_conforms decl row = true →
  zip_with Pd.convert (map (fun np => kind (snd np)) decl)
           (map Pd.cell_text row) = row.
Proof.
  induction decl as [|[n p] decl IH]; intros [|v row]; simpl; try done.
  intros [Hv Hrow]%andb_true_iff.
  by rewrite conforms_convert, IH.
Qed.

Lemma pad_full w (r : list text) : length r = w → Pd.pad w r = r.
Proof.
  intros <-. unfold Pd.pad. by rewrite Nat.sub_diag, app_nil_r.
Qed.

(** Reading back what was written from conforming rows gives the same
    rows again, under the default index and numbered columns. *)
Lemma read_back decl (rows : list (list cell)) :
  decl ≠ [] → rows ≠ [] →
  Forall (fun r => row_conforms decl r = true) rows →
  Pd.read_csv (map (map Pd.cell_text) rows)
    = Done (mkDF (map Num (seq 0 (length decl))) (Pd.range_index rows)).
Proof.
  intros Hdecl Hne Hall.
  assert (Forall (fun t => length t = length decl)
                 (map (map Pd.cell_text) rows)) as Hwide.
  { apply Forall_fmap. eapply Forall_impl; [exact Hall|].
    intros r Hr. simpl. rewrite length_map. by apply row_conforms_length. }
  unfold Pd.read_csv.
  rewrite forallb_filter_id.
  2:{ apply forallb_forall. intros t Ht%list_elem_of_In.
      rewrite Forall_forall in Hwide. specialize (Hwide t Ht).
      destruct t, decl; done. }
  remember (map (map Pd.cell_text) rows) as lines eqn:Hlines.
  destruct lines as [|first rest]; [by destruct rows|].
  pose proof Hwide as Hwide'. apply Forall_cons in Hwide' as [Hfirst Hrest].
  cbv zeta. rewrite Hfirst.
  rewrite (proj2 (forallb_forall _ _)).
  2:{ intros t Ht%list_elem_of_In. rewrite Forall_forall in Hrest.
      apply Nat.leb_le. by rewrite (Hrest t Ht). }
  rewrite (map_ext_in (Pd.pad (length decl)) id), map_id.
  2:{ intros t Ht%list_elem_of_In. rewrite Forall_forall in Hwide.
      by apply pad_full, Hwide. }
  rewrite Hlines, (infer_columns decl rows Hne Hall).
  rewrite map_map, (map_ext_in _ id), map_id; [done|].
  intros r Hr%list_elem_of_In. rewrite Forall_forall in Hall.
  by apply convert_back, Hall.
Qed.

(** Generating at least one row and loading the file. *)
Lemma generate_then_load w num_rows :
  (0 < num_rows)%Z →
  ∃ rng' rows,
    let gen := mkDF (map Name KDD_COLUMNS) (Pd.range_index rows) in
    let w1 := World rng' (<[FILE_NAME := Pd.to_csv gen]> (disk w))
                (heap w ++ [gen])
                (console w ++ [SayGenerating num_rows;
                               SaySaved (length rows, 42)]) in
    length rows = Z.to_nat num_rows ∧
    Forall (fun r => row_conforms DECLARED r = true) rows ∧
    generate_synthetic_data num_rows w = (w1, Done (length (heap w))) ∧
    Pd.read_csv (Pd.to_csv gen)
      = Done (mkDF (map Num (seq 0 42)) (Pd.range_index rows)) ∧
    load_and_prepare_data w1 =
      (World rng' (disk w1) (heap w1 ++ [derive gen])
             (console w1 ++ load_events gen),
       Done (length (heap w1))).
Proof.
  intros Hpos.
  destruct (generate_synthetic_data_exec num_rows w)
    as (rng' & rows & Hrun & Hlen & Hall).
  exists rng', rows. cbv zeta.
  assert (Pd.to_csv (mkDF (map Name KDD_COLUMNS) (Pd.range_index rows))
          = map (map Pd.cell_text) rows) as Hcsv.
  { unfold Pd.to_csv. cbn [body].
    rewrite <- (range_index_snd rows) at 2. by rewrite map_map. }
  assert (Pd.read_csv (map (map Pd.cell_text) rows)
          = Done (mkDF (map Num (seq 0 42)) (Pd.range_index rows))) as Hread.
  { apply (read_back DECLARED); [done | | done].
    intros ->. simpl in Hlen. lia. }
  rewrite Hcsv. split; [done|]. split; [done|]. split; [done|].
  split; [done|].
  rewrite (load_ok _ (map (map Pd.cell_text) rows)
             (mkDF (map Num (seq 0 42)) (Pd.range_index rows)));
    [reflexivity | | exact Hread | reflexivity].
  cbn [disk]. by rewrite lookup_insert_eq.
Qed.

Lemma derive_take tbl :
  Forall (fun r => length (snd r) = 42) (body tbl) →
  map (fun r => (fst r, take 42 (snd r))) (body (derive tbl)) = body tbl.
Proof.
  intros Hwide. cbn [derive body]. rewrite map_map. cbn [fst snd].
  rewrite <- (map_id (body tbl)) at 2. apply map_ext_in.
  intros [i r] Hr%list_elem_of_In. rewrite Forall_forall in Hwide.
  specialize (Hwide _ Hr). cbn [fst snd] in *. unfold with_category.
  by rewrite take_app_length'.
Qed.













Lemma list_as_map {A} (l : list A) (d : A) :
  l = map (fun i => nth i l d) (seq 0 (length l)).
Proof.
  rewrite <- (imap_as_map (fun _ x => x) l d).
  apply list_eq. intros i. rewrite list_lookup_imap. by destruct (l !! i).
Qed.

(** The attack rows are the rows at the attack positions. *)
Lemma attack_rows_at_positions tbl :
  List.filter (is_attack tbl) (rows_of tbl)
  = map (fun i => nth i (rows_of tbl) []) (attack_positions tbl).
Proof.
  unfold attack_positions.
  assert (Pd.len tbl = length (rows_of tbl)) as ->
    by (unfold Pd.len, rows_of; by rewrite length_map).
  generalize (rows_of tbl). intros rows.
  rewrite (list_as_map rows []) at 1. rewrite filter_map_comm. f_equal.
  apply List.filter_ext_in. intros i [_ Hi]%in_seq. simpl in Hi.
  destruct (lookup_lt_is_Some_2 rows i Hi) as [r Hr].
  by rewrite Hr, (nth_lookup_Some _ _ _ _ Hr).
Qed.

Lemma attack_count tbl :
  length (List.filter (is_attack tbl) (rows_of tbl))
  = length (attack_positions tbl).
Proof. by rewrite attack_rows_at_positions, length_map. Qed.

Lemma no_attack_labels tbl :
  attack_positions tbl = [] → attack_labels tbl = [].
Proof.
  intros H. unfold attack_labels. by rewrite attack_rows_at_positions, H.
Qed.

(** A loaded table, in whatever world still holds it. *)
Lemma loaded_in w0 w1 w df :
  load_and_prepare_data w0 = (w1, Done df) →
  heap w !! df = heap w1 !! df →
  ∃ tbl, heap w !! df = Some tbl ∧ viewable tbl ∧
         Pd.position "time" (columns tbl) = None ∧
         columns tbl = map Name KDD_COLUMNS ++ [Name "attack_category"].
Proof.
  intros (lines & raw & _ & Hread & Hwidth & Htbl & _)%load_table Hsame.
  destruct (loaded_viewable _ _ Hread Hwidth) as [V Htime].
  exists (derive (named raw)). by rewrite Hsame.
Qed.

(** C4, amended.  With a row count of zero the run writes a data file
    without any row, the loader raises [EmptyDataError] on it, the main block
    reports the error and ends normally; no view is run.  The views
    themselves, run on a loaded table without attack rows, each give their
    notice and return normally. *)
Theorem zero_rows_run w :
  (∃ rng',
     run 0 w =
       (World rng' (<[FILE_NAME := []]> (disk w))
          (heap w ++ [mkDF (map Name KDD_COLUMNS) []])
          (console w ++ [SayGenerating 0; SaySaved (0, 42);
                         SayError EmptyDataError; SayHint]),
        Done tt)) ∧
  (∀ w0 df tbl,
     load_and_prepare_data w0 = (w, Done df) →
     heap w !! df = Some tbl →
     attack_positions tbl = [] →
     ∃ w1 w2,
       plot_top_attacks df w = (w1, Done tt) ∧
       plot_attack_trend df w1 = (w2, Done tt) ∧
       console w2 = console w ++ [SayNoAttacks; SayNoTrend]).
Proof.
  split.
  - destruct (generate_synthetic_data_exec 0 w)
      as (rng' & rows & Hrun & Hlen & _).
    destruct rows; [|done]. exists rng'.
    unfold run, try_except.
    rewrite (bind_done _ _ _ _ _ Hrun).
    erewrite bind_raise.
    2:{ apply (load_unreadable _ []); [|reflexivity].
        cbn [disk]. by rewrite lookup_insert_eq. }
    unfold bind, print. cbn [rng disk heap console].
    by rewrite <- !app_assoc.
  - intros w0 df tbl Hload Htbl Hnone.
    destruct (loaded_in _ _ w _ Hload eq_refl) as (tbl' & Htbl' & V & Htime & _).
    rewrite Htbl in Htbl'. injection Htbl' as <-.
    eexists _, _. split; [apply (plot_top_attacks_exec _ _ _ Htbl V)|].
    split.
    + apply (plot_attack_trend_exec _ _ tbl); [|done..].
      cbn [heap]. rewrite lookup_app_l; [done | by eapply lookup_lt_Some].
    + cbn [console]. unfold top_of, trend_of, interval_keys.
      rewrite (no_attack_labels _ Hnone), Hnone. cbn.
      by rewrite <- app_assoc.
Qed.

(** C4 as stated fails: with a row count of zero neither view gets to
    report anything; the run ends in the handler of the main block. *)
Lemma zero_rows_views_silent :
  console (fst (run 0 blank_world))
    = [SayGenerating 0; SaySaved (0, 42); SayError EmptyDataError; SayHint] ∧
  ¬ (SayNoAttacks ∈ console (fst (run 0 blank_world)) ∧
     SayNoTrend ∈ console (fst (run 0 blank_world))).
Proof.
  assert (console (fst (run 0 blank_world))
          = [SayGenerating 0; SaySaved (0, 42); SayError EmptyDataError;
             SayHint]) as Hc by reflexivity.
  split; [exact Hc|]. rewrite Hc. intros [H _].
  repeat (apply elem_of_cons in H as [H|H]; [discriminate H|]).
  by apply elem_of_nil in H.
Qed.

(** *** Value counts *)

Lemma by_count_sorted (l : list (cell * nat)) :
  StronglySorted (fun a b => Pd.by_count a b = true)
                 (Pd.sort_values l).
Proof. apply sort_values_sorted. Qed.

Section ValueCounts.
Context (labels : list cell).

Lemma counted_elem k n :
  (k, n) ∈ Pd.sort_values (Pd.tally labels)
  ↔ k ∈ labels ∧ n = occ k labels.
Proof. by rewrite sort_values_elem, tally_elem. Qed.

Lemma counted_descending a b :
  precedes (Pd.sort_values (Pd.tally labels)) a b → snd b ≤ snd a.
Proof.
  intros H. apply Nat.leb_le.
  exact (StronglySorted_precedes _ _ _ _ (by_count_sorted _) H).
Qed.


End ValueCounts.

Lemma top_event_chart (top bars : list (cell * nat)) :
  BarChart bars = top_event top → top = bars.
Proof. destruct top; [discriminate | by intros [= ->]]. Qed.



Lemma tie_loaded :
  load_and_prepare_data (on_disk tie_file) = (tie_world, Done 0).
Proof.
  unfold tie_world.
  destruct (load_and_prepare_data (on_disk tie_file)) as [w o] eqn:Hrun.
  change o with (snd (w, o)). rewrite <- Hrun. by vm_compute.
Qed.


(** *** Interval counts *)

Lemma by_key_sorted (l : list (cell * nat)) :
  Forall int_keyed l →
  StronglySorted (fun a b => Pd.by_key a b = true) (Pd.sort_by Pd.by_key l).
Proof.
  apply (sort_by_sorted Pd.by_key int_keyed).
  - intros [x ?] [y ?] [i Hi] [j Hj]. simpl in *. subst. unfold Pd.by_key. simpl.
    rewrite Z.leb_gt, Z.leb_le. lia.
  - intros [x ?] [y ?] [z ?] [i Hi] [j Hj] [k Hk]. simpl in *. subst.
    unfold Pd.by_key. simpl. rewrite !Z.leb_le. lia.
Qed.

Lemma occ_interval (ps : list nat) i :
  occ (VInt i) (map (fun p => VInt (Z.of_nat p / 1000)) ps)
  = length (List.filter (fun p => (Z.of_nat p / 1000 =? i)%Z) ps).
Proof.
  unfold occ. rewrite filter_map_comm, length_map. f_equal.
  apply List.filter_ext. intros p.
  destruct (Z.eqb_spec (Z.of_nat p / 1000) i) as [->|Hne].
  - by apply bool_decide_eq_true_2.
  - apply bool_decide_eq_false_2. congruence.
Qed.

Lemma attack_positions_bound tbl :
  Forall (fun p => p < Pd.len tbl) (attack_positions tbl).
Proof.
  apply Forall_forall. intros p Hp%list_elem_of_In.
  apply List.filter_In in Hp as [Hp _]. apply in_seq in Hp. lia.
Qed.

Section Trend.
Context (tbl : DataFrame).
Lemma trend_elem k n :
  (k, n) ∈ trend_of tbl ↔ ∃ i, k = VInt i ∧ n = attacks_in tbl i ∧ 0 < n.
Proof.
  unfold trend_of.
  rewrite sort_by_elem, tally_elem. split.
  - intros [Hk ->]. pose proof Hk as Hk'.
    apply list_elem_of_fmap in Hk' as (p & -> & _).
    eexists. split; [reflexivity|]. split; [apply occ_interval|].
    by apply occ_positive.
  - intros (i & -> & -> & Hpos). unfold attacks_in in *.
    rewrite <- occ_interval in *. fold (interval_keys tbl) in Hpos |- *.
    split; [by apply occ_positive | done].
Qed.

Lemma trend_int_keyed : Forall int_keyed (Pd.tally (interval_keys tbl)).
Proof.
  apply Forall_forall. intros [k n] [Hk _]%tally_elem.
  apply list_elem_of_fmap in Hk as (p & -> & _). by eexists.
Qed.

Lemma trend_sorted :
  StronglySorted (fun a b => Pd.by_key a b = true) (trend_of tbl).
Proof. apply by_key_sorted, trend_int_keyed. Qed.

Lemma trend_NoDup : NoDup (map fst (trend_of tbl)).
Proof.
  unfold trend_of.
  rewrite sort_by_perm. apply tally_NoDup.
Qed.

Lemma trend_ascending a b :
  precedes (trend_of tbl) a b →
  ∃ i j, fst a = VInt i ∧ fst b = VInt j ∧ (i < j)%Z.
Proof.
  intros Hab.
  pose proof (StronglySorted_precedes _ _ _ _ trend_sorted Hab) as Hle.
  destruct (precedes_elem _ _ _ Hab) as [Ha Hb].
  destruct a as [ka na], b as [kb nb].
  apply trend_elem in Ha as (i & -> & _). apply trend_elem in Hb as (j & -> & _).
  exists i, j. split; [done|]. split; [done|].
  unfold Pd.by_key in Hle. simpl in Hle. apply Z.leb_le in Hle.
  destruct (decide (i = j)) as [->|Hne]; [|lia]. exfalso.
  destruct (precedes_map fst _ _ _ Hab) as (x & y & Hxy & Hx & Hy).
  simpl in Hx, Hy. pose proof (NoDup_lookup _ _ _ _ trend_NoDup Hx Hy). lia.
Qed.

(** The trend is the one list that is ascending in the key and has
    these entries. *)
Lemma trend_unique (l : list (cell * nat)) :
  StronglySorted (fun a b => Pd.by_key a b = true) l →
  NoDup l →
  (∀ e, e ∈ l ↔ e ∈ trend_of tbl) →
  trend_of tbl = l.
Proof.
  intros Hs Hnd Hiff.
  apply (StronglySorted_unique_strong (fun a b => Pd.by_key a b = true));
    [|apply trend_sorted | done|].
  - intros [k1 n1] [k2 n2] H1 H2%Hiff.
    apply trend_elem in H1 as (i & -> & -> & _).
    apply trend_elem in H2 as (j & -> & -> & _).
    unfold Pd.by_key. simpl. rewrite !Z.leb_le. intros ? ?.
    by replace j with i by lia.
  - apply NoDup_Permutation; [|done|by intros e; rewrite Hiff].
    by eapply NoDup_fmap_1, trend_NoDup.
Qed.
End Trend.

Lemma interval_of (n k : Z) :
  (n / 1000 = k ↔ 1000 * k <= n < 1000 * k + 1000)%Z.
Proof.
  pose proof (Z.div_mod n 1000 ltac:(lia)).
  pose proof (Z.mod_pos_bound n 1000 ltac:(lia)). lia.
Qed.

Lemma filter_nonempty {A} (P : A → bool) (Q : A → Prop) (l : list A) :
  (∀ x, Q x → P x = true) → Exists Q l → 0 < length (List.filter P l).
Proof.
  intros HQ (x & Hx & Hq)%Exists_exists.
  assert (In x (List.filter P l)) as Hin
    by (apply List.filter_In; split; [by apply list_elem_of_In | by apply HQ]).
  destruct (List.filter P l); [done | simpl; lia].
Qed.

Lemma filter_positive {A} (P : A → bool) (l : list A) :
  0 < length (List.filter P l) → ∃ x, x ∈ l ∧ P x = true.
Proof.
  destruct (List.filter P l) as [|x l'] eqn:Hf; [simpl; lia|]. intros _.
  assert (In x (List.filter P l)) as Hin by (rewrite Hf; by left).
  apply List.filter_In in Hin as [Hin Hp]. exists x.
  split; [by apply list_elem_of_In | done].
Qed.

(** The scenario of the specification: 2500 rows, attacks only in the
    first thousand and from position 2000 on, some in each. *)
Lemma trend_two_blocks tbl :
  Pd.len tbl = 2500 →
  Forall (fun p => p < 1000 ∨ 2000 ≤ p) (attack_positions tbl) →
  Exists (fun p => p < 1000) (attack_positions tbl) →
  Exists (fun p => 2000 ≤ p) (attack_positions tbl) →
  trend_of tbl =
    [ (VInt 0, length (List.filter (fun p => p <? 1000) (attack_positions tbl)));
      (VInt 2, length (List.filter (fun p => 2000 <=? p) (attack_positions tbl))) ].
Proof.
  intros Hlen Honly Hlow Hhigh.
  pose proof (attack_positions_bound tbl) as Hbound. rewrite Hlen in Hbound.
  rewrite Forall_forall in Honly, Hbound.
  assert (attacks_in tbl 0
          = length (List.filter (fun p => p <? 1000) (attack_positions tbl)))
    as H0.
  { unfold attacks_in. f_equal. apply List.filter_ext. intros p.
    destruct (Z.eqb_spec (Z.of_nat p / 1000) 0) as [He|He];
      rewrite interval_of in He; symmetry;
      [apply Nat.ltb_lt | apply Nat.ltb_ge]; lia. }
  assert (attacks_in tbl 2
          = length (List.filter (fun p => 2000 <=? p) (attack_positions tbl)))
    as H2.
  { unfold attacks_in. f_equal. apply List.filter_ext_in.
    intros p Hp%list_elem_of_In. specialize (Hbound p Hp).
    destruct (Z.eqb_spec (Z.of_nat p / 1000) 2) as [He|He];
      rewrite interval_of in He; symmetry;
      [apply Nat.leb_le | apply Nat.leb_gt]; lia. }
  rewrite <- H0, <- H2. apply trend_unique.
  - repeat constructor.
  - apply NoDup_cons. split; [|apply NoDup_singleton].
    intros Heq%list_elem_of_singleton. discriminate Heq.
  - intros [k n]. rewrite trend_elem, elem_of_cons, list_elem_of_singleton.
    split.
    + intros [Heq|Heq]; injection Heq as -> ->; eexists;
        (split; [reflexivity|]); (split; [reflexivity|]).
      * rewrite H0. eapply filter_nonempty; [|exact Hlow].
        intros p Hp. by apply Nat.ltb_lt.
      * rewrite H2. eapply filter_nonempty; [|exact Hhigh].
        intros p Hp. by apply Nat.leb_le.
    + intros (i & -> & -> & Hpos).
      destruct (filter_positive _ _ Hpos) as (p & Hp & Hi).
      apply Z.eqb_eq in Hi. rewrite interval_of in Hi.
      specialize (Honly p Hp). specialize (Hbound p Hp).
      destruct Honly as [Hp1|Hp2].
      * left. by replace i with 0%Z by lia.
      * right. by replace i with 2%Z by lia.
Qed.

(** C3.  On a loaded table the trend view returns normally and reports an
    aggregate [trend] whose entries are exactly the intervals of 1000 row
    positions that hold at least one attack row, each with the number of
    attack rows in it, in ascending order of the interval index.  For a
    table of 2500 rows with attack rows in positions 0..999 and 2000..2499
    and nowhere else, these are the two entries for intervals 0 and 2 with
    the numbers of attack rows in the two ranges. *)
Theorem attack_trend_view w0 w1 w df :
  load_and_prepare_data w0 = (w1, Done df) →
  heap w !! df = heap w1 !! df →
  ∃ tbl w' trend,
    heap w !! df = Some tbl ∧
    plot_attack_trend df w = (w', Done tt) ∧
    console w' = console w ++ [trend_event trend] ∧
    (∀ k n, (k, n) ∈ trend ↔
            ∃ i, k = VInt i ∧ n = attacks_in tbl i ∧ 0 < n) ∧
    (∀ a b, precedes trend a b →
            ∃ i j, fst a = VInt i ∧ fst b = VInt j ∧ (i < j)%Z) ∧
    (Pd.len tbl = 2500 →
     Forall (fun p => p < 1000 ∨ 2000 ≤ p) (attack_positions tbl) →
     Exists (fun p => p < 1000) (attack_positions tbl) →
     Exists (fun p => 2000 ≤ p) (attack_positions tbl) →
     trend =
       [ (VInt 0,
          length (List.filter (fun p => p <? 1000) (attack_positions tbl)));
         (VInt 2,
          length (List.filter (fun p => 2000 <=? p) (attack_positions tbl))) ]).
Proof.
  intros Hload Hsame.
  destruct (loaded_in _ _ _ _ Hload Hsame) as (tbl & Htbl & V & Htime & _).
  exists tbl. eexists _, (trend_of tbl). split; [exact Htbl|].
  split; [apply (plot_attack_trend_exec _ _ _ Htbl V Htime)|]. cbn [console].
  split; [reflexivity|]. split; [apply trend_elem|].
  split; [apply trend_ascending | apply trend_two_blocks].
Qed.

Lemma block_loaded :
  load_and_prepare_data (on_disk block_file) = (block_world, Done 0).
Proof.
  unfold block_world.
  destruct (load_and_prepare_data (on_disk block_file)) as [w o] eqn:Hrun.
  change o with (snd (w, o)). rewrite <- Hrun. by vm_compute.
Qed.

Lemma block_table_loaded : heap block_world !! 0 = Some block_table.
Proof.
  assert (is_Some (heap block_world !! 0)) as [tbl Htbl]
    by (apply (bool_decide_unpack _); by vm_compute).
  unfold block_table. by rewrite Htbl.
Qed.

Lemma attack_trend_view_witness :
  ∃ w' (trend : list (cell * nat)),
    plot_attack_trend 0 block_world = (w', Done tt) ∧
    console w' = console block_world ++ [trend_event trend] ∧
    trend = [(VInt 0, 334); (VInt 2, 167)].
Proof.
  destruct (attack_trend_view (on_disk block_file) block_world block_world 0
              block_loaded eq_refl)
    as (tbl & w' & trend & Htbl & Hrun & Hout & _ & _ & Hblocks).
  exists w', trend. split; [exact Hrun|]. split; [exact Hout|].
  rewrite block_table_loaded in Htbl. apply (inj Some) in Htbl. subst tbl.
  rewrite Hblocks.
  - by vm_compute.
  - by vm_compute.
  - apply (bool_decide_unpack _). by vm_compute.
  - apply (bool_decide_unpack _). by vm_compute.
  - apply (bool_decide_unpack _). by vm_compute.
Defined.

(** *** The table after the trend view *)

Lemma position_elem c (cols : list label) :
  c ∈ cols → is_Some (Pd.position c cols).
Proof.
  induction cols as [|x cols IH]; [by intros ?%elem_of_nil|].
  simpl. destruct (decide (x = c)); [by eexists|].
  intros [?|Hc]%elem_of_cons; [congruence|].
  destruct (IH Hc) as [j ->]. by eexists.
Qed.

Lemma getitem_timed_time tbl :
  viewable tbl → Pd.position "time" (columns tbl) = None →
  Pd.getitem (timed tbl) "time"
    = Done (imap (fun i r => (fst r, VInt (Z.of_nat i))) (body tbl)).
Proof.
  intros V Hpos.
  rewrite getitem_cell_of
    by (exists (length (columns tbl)); by apply position_app_new).
  f_equal. apply list_eq. intros i. cbn [timed body].
  change (map ?f ?l) with (f <$> l).
  rewrite list_lookup_fmap, !list_lookup_imap.
  destruct (body tbl !! i) as [r|] eqn:Hr; [|done]. simpl. do 2 f_equal.
  apply time_of_timed; [done|].
  pose proof (rectangular _ V) as Hrect. rewrite Forall_forall in Hrect.
  apply Hrect. by eapply list_elem_of_lookup_2.
Qed.

Lemma getitem_timed_old tbl c :
  viewable tbl → c ∈ columns tbl →
  Pd.getitem (timed tbl) c = Pd.getitem tbl c.
Proof.
  intros V Hc. destruct (position_elem _ _ Hc) as [j Hj].
  unfold Pd.getitem. cbn [timed columns body].
  rewrite (position_app_l _ _ _ _ Hj), Hj. f_equal.
  apply list_eq. intros i. change (map ?f ?l) with (f <$> l).
  rewrite !list_lookup_fmap, list_lookup_imap.
  destruct (body tbl !! i) as [r|] eqn:Hr; [|done]. simpl. do 2 f_equal.
  pose proof (rectangular _ V) as Hrect. rewrite Forall_forall in Hrect.
  apply position_lt in Hj.
  rewrite app_nth1; [done|]. rewrite (Hrect r); [done|].
  by eapply list_elem_of_lookup_2.
Qed.

(** C8.  The top-attack view leaves the table object as it is (and every
    other object that existed); the trend view replaces the table object by
    one that has the column "time" appended, holding in each row that row's
    zero-based position, and in which each of the 43 earlier columns (the 42
    of the schema and attack_category) reads as before; other objects are
    untouched. *)
Theorem views_frame w0 w1 w df :
  load_and_prepare_data w0 = (w1, Done df) →
  heap w !! df = heap w1 !! df →
  ∃ tbl wt wa tbl',
    heap w !! df = Some tbl ∧
    columns tbl = map Name KDD_COLUMNS ++ [Name "attack_category"] ∧
    plot_top_attacks df w = (wt, Done tt) ∧
    take (length (heap w)) (heap wt) = heap w ∧
    heap wt !! df = Some tbl ∧
    plot_attack_trend df w = (wa, Done tt) ∧
    heap wa !! df = Some tbl' ∧
    columns tbl' = columns tbl ++ [Name "time"] ∧
    map fst (body tbl') = map fst (body tbl) ∧
    Pd.getitem tbl' "time"
      = Done (imap (fun i r => (fst r, VInt (Z.of_nat i))) (body tbl)) ∧
    Forall (fun c => Pd.getitem tbl' c = Pd.getitem tbl c) (columns tbl) ∧
    (∀ k, k ≠ df → k < length (heap w) → heap wa !! k = heap w !! k).
Proof.
  intros Hload Hsame.
  destruct (loaded_in _ _ _ _ Hload Hsame) as (tbl & Htbl & V & Htime & Hcols).
  assert (df < length (heap w)) as Hlt by (by eapply lookup_lt_Some).
  exists tbl. eexists _, _, (timed tbl). split; [exact Htbl|].
  split; [exact Hcols|].
  split; [apply (plot_top_attacks_exec _ _ _ Htbl V)|]. cbn [heap].
  split; [by rewrite take_app_length|].
  split; [by rewrite lookup_app_l|].
  split; [apply (plot_attack_trend_exec _ _ _ Htbl V Htime)|]. cbn [heap].
  split.
  { rewrite lookup_app_l by (by rewrite length_insert).
    by apply list_lookup_insert_eq. }
  split; [done|]. split; [apply timed_fst|].
  split; [by apply getitem_timed_time|].
  split.
  { apply Forall_forall. intros c Hc. by apply getitem_timed_old. }
  intros k Hne Hk.
  rewrite lookup_app_l by (by rewrite length_insert).
  by apply list_lookup_insert_ne.
Qed.

Lemma views_frame_witness :
  ∃ tbl tbl' wt wa,
    heap sample_world !! 0 = Some tbl ∧
    plot_top_attacks 0 sample_world = (wt, Done tt) ∧
    heap wt !! 0 = Some tbl ∧
    plot_attack_trend 0 sample_world = (wa, Done tt) ∧
    heap wa !! 0 = Some tbl' ∧
    columns tbl' = columns tbl ++ [Name "time"].
Proof.
  destruct (views_frame (on_disk sample_file) sample_world sample_world
              0 sample_loaded eq_refl)
    as (tbl & wt & wa & tbl' & Htbl & _ & Htop & _ & Hkept & Htrend & Hnew
        & Hcols & _).
  exists tbl, tbl', wt, wa.
  split; [exact Htbl|]. split; [exact Htop|]. split; [exact Hkept|].
  split; [exact Htrend|]. split; [exact Hnew | exact Hcols].
Defined.

(** *** Tables that come from the generator *)

Lemma generated_loaded w num_rows w1 g w2 df :
  generate_synthetic_data num_rows w = (w1, Done g) →
  load_and_prepare_data w1 = (w2, Done df) →
  ∃ rows,
    Forall (fun r => row_conforms DECLARED r = true) rows ∧
    heap w2 !! df
      = Some (derive (mkDF (map Name KDD_COLUMNS) (Pd.range_index rows))).
Proof.
  intros Hgen Hload.
  destruct (generate_synthetic_data_exec num_rows w)
    as (rng' & rows & Hrun & _ & Hall).
  rewrite Hrun in Hgen. injection Hgen as <- <-.
  apply load_table in Hload
    as (lines & raw & Hf & Hread & _ & Htbl & _).
  cbn [disk] in Hf. rewrite lookup_insert_eq in Hf. injection Hf as <-.
  exists rows. split; [done|].
  destruct rows as [|r rows]; [done|].
  rewrite (read_back DECLARED) in Hread by done.
  injection Hread as <-. exact Htbl.
Qed.

Lemma label_of_conforming row :
  row_conforms DECLARED row = true →
  length row = 42 ∧ ∃ s, nth 41 row VNaN = str s ∧ s ∈ ATTACKS.
Proof.
  intros Hrow. split; [by apply (row_conforms_length DECLARED)|].
  pose proof (row_conforms_lookup DECLARED row 41 _ _ Hrow eq_refl) as Hc.
  destruct (nth 41 row VNaN) as [| |[| |s|]|]; try done.
  exists s. split; [done|]. simpl in Hc. by apply bool_decide_eq_true_1 in Hc.
Qed.

Lemma generated_attack_labels rows :
  Forall (fun r => row_conforms DECLARED r = true) rows →
  Forall (fun k => k ∈ ATTACK_LABELS)
    (map (cell_of (derive (mkDF (map Name KDD_COLUMNS) (Pd.range_index rows)))
                  "attack_type")
       (List.filter
          (is_attack (derive (mkDF (map Name KDD_COLUMNS) (Pd.range_index rows))))
          (rows_of (derive (mkDF (map Name KDD_COLUMNS) (Pd.range_index rows)))))).
Proof.
  intros Hall. set (tbl := derive _).
  assert (rows_of tbl = map with_category rows) as ->.
  { unfold rows_of, tbl. cbn [derive body]. rewrite map_map. cbn [snd].
    rewrite <- (map_map snd with_category). by rewrite range_index_snd. }
  rewrite filter_map_comm, map_map. apply Forall_forall.
  intros k (r & -> & Hr)%list_elem_of_fmap.
  apply list_elem_of_In, List.filter_In in Hr as [Hr Hatt].
  rewrite Forall_forall in Hall.
  destruct (label_of_conforming r (Hall r (proj2 (list_elem_of_In _ _) Hr)))
    as (Hlen & s & Hs & Hin).
  unfold is_attack, tbl in *. change (derive ?t) with (derive (named t)) in *.
  rewrite cell_of_loaded_category in Hatt by done.
  rewrite cell_of_loaded_type by done. rewrite Hs in *.
  apply bool_decide_eq_true_1 in Hatt.
  apply elem_of_cons in Hin as [->|Hin]; [done|].
  apply list_elem_of_fmap. by exists s.
Qed.

Lemma notna_all (l : list cell) :
  Forall (fun k => k ∈ ATTACK_LABELS) l → List.filter Pd.notna l = l.
Proof.
  induction 1 as [|k l Hk Hl IH]; simpl; [done|]. rewrite IH.
  apply list_elem_of_fmap in Hk as (s & -> & _). done.
Qed.

(** C9.  On a table loaded from a file the generator wrote, the labels of
    attack rows are among the four non-benign ones, so the top-attack
    aggregate has at most 4 entries and nothing is cut: its keys are exactly
    the labels that occur among the attack rows, each with the number of its
    occurrences, and the counts add up to the number of attack rows. *)
Theorem generated_top_complete w num_rows w1 g w2 df w3 :
  generate_synthetic_data num_rows w = (w1, Done g) →
  load_and_prepare_data w1 = (w2, Done df) →
  heap w3 !! df = heap w2 !! df →
  ∃ tbl w' top,
    heap w3 !! df = Some tbl ∧
    plot_top_attacks df w3 = (w', Done tt) ∧
    console w' = console w3 ++ [top_event top] ∧
    Forall (fun k => k ∈ ATTACK_LABELS) (attack_labels tbl) ∧
    length top ≤ 4 ∧
    (∀ k, k ∈ map fst top ↔ k ∈ attack_labels tbl) ∧
    Forall (fun e => snd e = occ (fst e) (attack_labels tbl)) top ∧
    sum_list (map snd top) = length (attack_positions tbl).
Proof.
  intros Hgen Hload Hsame.
  destruct (generated_loaded _ _ _ _ _ _ Hgen Hload) as (rows & Hall & Hgot).
  destruct (loaded_in _ _ _ _ Hload Hsame) as (tbl & Htbl & V & _).
  assert (tbl = derive (mkDF (map Name KDD_COLUMNS) (Pd.range_index rows)))
    as Heq by congruence.
  pose proof (generated_attack_labels rows Hall) as Hlabels.
  rewrite <- Heq in Hlabels.
  assert (attack_labels tbl
          = map (cell_of tbl "attack_type")
                (List.filter (is_attack tbl) (rows_of tbl))) as Hraw
    by (unfold attack_labels; by rewrite notna_all).
  rewrite <- Hraw in Hlabels.
  exists tbl. eexists _, _. split; [exact Htbl|].
  split; [apply (plot_top_attacks_exec _ _ _ Htbl V)|]. cbn [console].
  split; [reflexivity|]. split; [exact Hlabels|]. unfold top_of.
  set (labels := attack_labels tbl) in *.
  assert (length (Pd.sort_values (Pd.tally labels)) ≤ 4) as Hshort.
  { rewrite sort_values_length, <- (length_map fst).
    change 4 with (length ATTACK_LABELS).
    apply submseteq_length, NoDup_submseteq; [apply tally_NoDup|].
    intros k Hk. rewrite tally_keys in Hk.
    rewrite Forall_forall in Hlabels. by apply Hlabels. }
  rewrite take_ge by lia.
  split; [done|]. split; [|split].
  - intros k. rewrite sort_values_perm. apply tally_keys.
  - apply Forall_forall. intros [k n] Hin.
    by apply counted_elem in Hin as [_ ->].
  - change (map snd ?l) with (snd <$> l). rewrite sort_values_perm.
    change (snd <$> ?l) with (map snd l). rewrite tally_sum.
    by rewrite Hraw, length_map, attack_count.
Qed.

Lemma mixed_generation :
  generate_synthetic_data 4 mixed_world = (mixed_generated, Done 0).
Proof.
  unfold mixed_generated.
  destruct (generate_synthetic_data 4 mixed_world) as [w o] eqn:Hrun.
  change o with (snd (w, o)). rewrite <- Hrun. by vm_compute.
Qed.

Lemma mixed_load :
  load_and_prepare_data mixed_generated = (mixed_loaded, Done 1).
Proof.
  unfold mixed_loaded.
  destruct (load_and_prepare_data mixed_generated) as [w o] eqn:Hrun.
  change o with (snd (w, o)). rewrite <- Hrun. by vm_compute.
Qed.

(** Four generated rows, three of them attacks under two labels: both
    labels are charted, and their counts add up to three. *)
Lemma generated_top_complete_witness :
  ∃ tbl w' (top : list (cell * nat)),
    heap mixed_loaded !! 1 = Some tbl ∧
    map (cell_of tbl "attack_type") (rows_of tbl)
      = [str "smurf."; str "smurf."; str "neptune."; str "normal."] ∧
    plot_top_attacks 1 mixed_loaded = (w', Done tt) ∧
    console w' = console mixed_loaded ++ [top_event top] ∧
    top = [(str "smurf.", 2); (str "neptune.", 1)] ∧
    sum_list (map snd top) = length (attack_positions tbl).
Proof.
  destruct (generated_top_complete mixed_world 4 mixed_generated 0
              mixed_loaded 1 mixed_loaded mixed_generation mixed_load eq_refl)
    as (tbl & w' & top & Htbl & Hrun & Hout & _ & _ & _ & _ & Hsum).
  exists tbl, w', top. split; [exact Htbl|].
  split.
  { assert (heap mixed_loaded !! 1
            = Some (default (mkDF [] []) (heap mixed_loaded !! 1))) as Hgot
      by (by vm_compute).
    rewrite Hgot in Htbl. apply (inj Some) in Htbl. subst tbl.
    by vm_compute. }
  split; [exact Hrun|]. split; [exact Hout|]. split; [|exact Hsum].
  apply (f_equal fst) in Hrun. change (fst (w', Done tt)) with w' in Hrun.
  rewrite <- Hrun in Hout.
  assert (console (fst (plot_top_attacks 1 mixed_loaded))
          = console mixed_loaded
              ++ [BarChart [(str "smurf.", 2); (str "neptune.", 1)]]) as Hc
    by (by vm_compute).
  rewrite Hc in Hout. apply app_inv_head in Hout.
  apply top_event_chart. by injection Hout.
Defined.

(** *** What a run lets an observer see *)

Lemma emitted_app w w' (es : list event) :
  console w' = console w ++ es → emitted w w' = es.
Proof. intros H. unfold emitted. by rewrite H, drop_app_length. Qed.

Lemma loader_view_file w :
  loader_view w =
    match disk w !! FILE_NAME with
    | None => (Raise FileNotFoundError, [])
    | Some lines =>
        match Pd.read_csv lines with
        | Raise e => (Raise e, [])
        | Done raw =>
            if decide (length (columns raw) = 42)
            then (Done (Some (derive (named raw))), load_events (named raw))
            else (Raise ValueError, [])
        end
    end.
Proof.
  unfold loader_view.
  destruct (disk w !! FILE_NAME) as [lines|] eqn:Hf.
  - destruct (Pd.read_csv lines) as [raw|e] eqn:Hr.
    + destruct (decide _) as [Hw|Hw].
      * rewrite (load_ok _ _ _ Hf Hr Hw). cbn [heap].
        rewrite deref_alloc_last. f_equal. by apply emitted_app.
      * rewrite (load_mismatch _ _ _ Hf Hr Hw). f_equal.
        apply emitted_app. cbn [console]. by rewrite app_nil_r.
    + rewrite (load_unreadable _ _ _ Hf Hr). f_equal.
      apply emitted_app. by rewrite app_nil_r.
  - rewrite (load_missing _ Hf). f_equal.
    apply emitted_app. by rewrite app_nil_r.
Qed.

Lemma views_view_table w df tbl :
  heap w !! df = Some tbl → viewable tbl →
  Pd.position "time" (columns tbl) = None →
  views_view df w =
    (Done tt, Done tt, [top_event (top_of tbl); trend_event (trend_of tbl)],
     Some (timed tbl)).
Proof.
  intros Htbl V Htime.
  assert (df < length (heap w)) as Hlt by (by eapply lookup_lt_Some).
  unfold views_view.
  rewrite (plot_top_attacks_exec _ _ _ Htbl V).
  rewrite (plot_attack_trend_exec _ _ tbl);
    [|cbn [heap]; by rewrite lookup_app_l|done..].
  cbn [heap console]. f_equal; [f_equal|].
  - apply emitted_app. by rewrite <- app_assoc.
  - rewrite lookup_app_l by (rewrite length_insert, length_app; lia).
    apply list_lookup_insert_eq. rewrite length_app. lia.
Qed.

(** C10.  Two runs in worlds that agree on the data file and on nothing
    else (objects allocated before, console history, state of the random
    module): the loader returns the same table or raises the same
    exception, and prints the same; on the loaded tables the two views end
    the same way, report the same aggregates and leave the same table. *)
Theorem deterministic_in_file wa wb :
  disk wa !! FILE_NAME = disk wb !! FILE_NAME →
  loader_view wa = loader_view wb ∧
  ∀ wa1 dfa wb1 dfb,
    load_and_prepare_data wa = (wa1, Done dfa) →
    load_and_prepare_data wb = (wb1, Done dfb) →
    heap wa1 !! dfa = heap wb1 !! dfb ∧
    views_view dfa wa1 = views_view dfb wb1.
Proof.
  intros Hfile. split; [by rewrite !loader_view_file, Hfile|].
  intros wa1 dfa wb1 dfb Ha Hb.
  pose proof (loaded_in _ _ wa1 _ Ha eq_refl) as (ta & Hta & Va & Htime & _).
  pose proof (loaded_in _ _ wb1 _ Hb eq_refl) as (tb & Htb & Vb & _).
  assert (ta = tb) as <-.
  { assert (loader_view wa = loader_view wb) as Hview
      by (by rewrite !loader_view_file, Hfile).
    unfold loader_view in Hview. rewrite Ha, Hb, Hta, Htb in Hview.
    by injection Hview. }
  split; [by rewrite Hta, Htb|].
  by rewrite (views_view_table _ _ _ Hta Va Htime),
             (views_view_table _ _ _ Htb Va Htime).
Qed.

Lemma deterministic_in_file_witness :
  loader_view (on_disk sample_file) = loader_view busy_world ∧
  views_view 0 (fst (load_and_prepare_data (on_disk sample_file)))
    = views_view 1 (fst (load_and_prepare_data busy_world)).
Proof.
  destruct (deterministic_in_file (on_disk sample_file) busy_world eq_refl)
    as [Hloader Hviews].
  split; [exact Hloader|].
  refine (proj2 (Hviews _ 0 _ 1 _ _)).
  - exact sample_loaded.
  - destruct (load_and_prepare_data busy_world) as [w o] eqn:Hrun.
    change o with (snd (w, o)). rewrite <- Hrun. reflexivity.
Defined.

(* ================================================================== *)
(** ** Further properties of the script *)
(* ================================================================== *)

(** *** The generator's effects *)

(** X1.  The generator returns for every row count, also a negative one,
    with the address of one new frame; the objects that existed stay as
    they were.  The data file is replaced by the lines of that frame,
    whatever it held before, and no other file is touched.  Exactly two
    messages are printed, the second with the shape of the frame, which is
    (max(0, num_rows), 42).  The file has that many lines of 42 fields
    each; for a row count of zero or less it is empty. *)
Theorem generator_effects num_rows w :
  ∃ w' frame,
    generate_synthetic_data num_rows w = (w', Done (length (heap w))) ∧
    heap w' = heap w ++ [frame] ∧
    disk w' = <[FILE_NAME := Pd.to_csv frame]> (disk w) ∧
    emitted w w' = [SayGenerating num_rows; SaySaved (Pd.shape frame)] ∧
    Pd.shape frame = (Z.to_nat num_rows, 42) ∧
    length (Pd.to_csv frame) = Z.to_nat num_rows ∧
    Forall (fun line => length line = 42) (Pd.to_csv frame) ∧
    ((num_rows <= 0)%Z → Pd.to_csv frame = []).
Proof.
  destruct (generate_synthetic_data_exec num_rows w)
    as (rng' & rows & Hrun & Hlen & Hall).
  assert (Pd.to_csv (mkDF (map Name KDD_COLUMNS) (Pd.range_index rows))
          = map (map Pd.cell_text) rows) as Hcsv.
  { unfold Pd.to_csv. cbn [body].
    rewrite <- (range_index_snd rows) at 2. by rewrite map_map. }
  eexists _, (mkDF (map Name KDD_COLUMNS) (Pd.range_index rows)).
  split; [exact Hrun|]. cbn [heap disk].
  split; [done|]. split; [by rewrite Hcsv|].
  assert (Pd.shape (mkDF (map Name KDD_COLUMNS) (Pd.range_index rows))
          = (Z.to_nat num_rows, 42)) as Hshape.
  { unfold Pd.shape. cbn [body columns]. by rewrite range_index_length, Hlen. }
  split; [apply emitted_app; cbn [console]; by rewrite Hshape, Hlen|].
  split; [exact Hshape|]. rewrite Hcsv.
  split; [by rewrite length_map|]. split.
  - apply Forall_fmap. eapply Forall_impl; [exact Hall|].
    intros r Hr. simpl. rewrite length_map.
    by apply (row_conforms_length DECLARED).
  - intros Hle. destruct rows; [done|]. simpl in Hlen. lia.
Qed.

(** *** The label of a generated row *)

Lemma wp_first_draw w (Q : world → Q → Prop) :
  Q (World (fun i => rng w (S i)) (disk w) (heap w) (console w))
    (Qred (Z.of_N (rng w 0 mod 2 ^ 53) # 2 ^ 53)) →
  wp random_random w Q.
Proof. done. Qed.

Lemma wp_label w0 (is_attack : bool) w :
  quiet w0 w →
  wp (if is_attack then choice (drop 1 ATTACKS) else item ATTACKS 0) w
     (fun w' s => if is_attack then s ∈ drop 1 ATTACKS else s = "normal."%string).
Proof.
  intros Hq. destruct is_attack.
  - apply (wp_choice w0); [done | done |]. by intros w' s ? Hs.
  - by eapply wp_item.
Qed.

Lemma benign_threshold (k : N) :
  Qle_bool (Qred (Z.of_N (k mod 2 ^ 53) # 2 ^ 53)) float_0_3 = true
  ↔ (k mod 2 ^ 53 <= BENIGN_MAX)%N.
Proof.
  rewrite Qle_bool_iff, Qred_correct. unfold Qle, float_0_3, BENIGN_MAX.
  cbn [Qnum Qden].
  change (Z.pos (2 ^ 53)) with 9007199254740992%Z.
  generalize (k mod 2 ^ 53)%N. intros n. lia.
Qed.

(** X2.  One turn of the generator's loop: the row it builds is labelled
    "normal." exactly when the first number drawn in that turn, taken as a
    float in the unit interval, is at most 0.3, that is, when its numerator
    over 2^53 is at most [BENIGN_MAX]; otherwise the label is one of the four
    attack labels. *)
Theorem label_follows_draw w :
  ∃ w' row,
    random_row w = (w', Done row) ∧
    (nth 41 row VNaN = str "normal." ↔ (rng w 0 mod 2 ^ 53 <= BENIGN_MAX)%N) ∧
    (nth 41 row VNaN ≠ str "normal." → nth 41 row VNaN ∈ ATTACK_LABELS).
Proof.
  apply wp_elim. unfold random_row.
  apply wp_bind, wp_first_draw.
  set (w1 := World _ _ _ _).
  assert (quiet w w1) as Hq by (by repeat split).
  cbv zeta. repeat (draw_step w).
  apply wp_bind. eapply wp_mono; [by apply (wp_label w)|].
  intros wz s Hs. apply wp_ret.
  change (nth 41 _ VNaN) with (str s).
  rewrite <- benign_threshold.
  destruct (Qle_bool _ float_0_3); simpl in Hs.
  - subst s. split; [done|]. by intros [].
  - split.
    + split; [|done]. intros [= ->]. 
      repeat (apply elem_of_cons in Hs as [Hs|Hs]; [discriminate Hs|]).
      by apply elem_of_nil in Hs.
    + intros _. apply list_elem_of_fmap. by exists s.
Qed.

(** *** The loader's footprint *)

Lemma read_csv_raises lines e :
  Pd.read_csv lines = Raise e → e = EmptyDataError ∨ e = ParserError.
Proof.
  unfold Pd.read_csv.
  destruct (List.filter Pd.nonblank lines) as [|first rest];
    [intros [= <-]; by left|].
  cbv zeta. destruct (forallb _ rest); [done|]. intros [= <-]. by right.
Qed.

(** What the loader does in each of its four cases. *)
Lemma load_cases w :
  (disk w !! FILE_NAME = None ∧
   load_and_prepare_data w = (w, Raise FileNotFoundError)) ∨
  (∃ lines e, disk w !! FILE_NAME = Some lines ∧
     Pd.read_csv lines = Raise e ∧
     load_and_prepare_data w = (w, Raise e)) ∨
  (∃ lines raw, disk w !! FILE_NAME = Some lines ∧
     Pd.read_csv lines = Done raw ∧ length (columns raw) ≠ 42 ∧
     load_and_prepare_data w =
       (World (rng w) (disk w) (heap w ++ [raw]) (console w),
        Raise ValueError)) ∨
  (∃ lines raw, disk w !! FILE_NAME = Some lines ∧
     Pd.read_csv lines = Done raw ∧ length (columns raw) = 42 ∧
     load_and_prepare_data w =
       (World (rng w) (disk w) (heap w ++ [derive (named raw)])
              (console w ++ load_events (named raw)),
        Done (length (heap w)))).
Proof.
  destruct (disk w !! FILE_NAME) as [lines|] eqn:Hf;
    [|left; split; [done | by apply load_missing]].
  right. destruct (Pd.read_csv lines) as [raw|e] eqn:Hr.
  - right. destruct (decide (length (columns raw) = 42)) as [Hw|Hw].
    + right. exists lines, raw. by rewrite (load_ok _ _ _ Hf Hr Hw).
    + left. exists lines, raw. by rewrite (load_mismatch _ _ _ Hf Hr Hw).
  - left. exists lines, e. by rewrite (load_unreadable _ _ _ Hf Hr).
Qed.

(** X3.  Whatever the loader is run on, it leaves the files and the
    state of the random module as they are and changes no object that
    existed.  When it raises, nothing has been printed; the exception is one
    of [FileNotFoundError], [EmptyDataError], [ParserError] and [ValueError],
    and it is [FileNotFoundError] exactly when the data file is missing. *)
Theorem loader_footprint w :
  ∃ w' r,
    load_and_prepare_data w = (w', r) ∧
    disk w' = disk w ∧
    rng w' = rng w ∧
    take (length (heap w)) (heap w') = heap w ∧
    ∀ e, r = Raise e →
      console w' = console w ∧
      e ∈ [FileNotFoundError; EmptyDataError; ParserError; ValueError] ∧
      (e = FileNotFoundError ↔ disk w !! FILE_NAME = None).
Proof.
  destruct (load_cases w)
    as [[Hf Hrun] | [(lines & e & Hf & Hr & Hrun)
       | [(lines & raw & Hf & Hr & Hw & Hrun)
       | (lines & raw & Hf & Hr & Hw & Hrun)]]];
    eexists _, _; (split; [exact Hrun|]); cbn [disk rng heap console];
    (split; [done|]); (split; [done|]).
  - split; [by rewrite firstn_all|]. intros e [= <-].
    split; [done|]. split; [by left | done].
  - split; [by rewrite firstn_all|]. intros e' [= <-].
    split; [done|]. apply read_csv_raises in Hr.
    split.
    + destruct Hr as [-> | ->]; [by right; left | by right; right; left].
    + rewrite Hf. destruct Hr as [-> | ->]; split; done.
  - split; [by rewrite take_app_length|]. intros e [= <-].
    split; [done|]. split; [by do 3 right; left|]. by rewrite Hf.
  - split; [by rewrite take_app_length|]. done.
Qed.

(** *** The loader's report *)

Lemma category_cases x : category x = str "Normal" ∨ category x = str "Attack".
Proof. unfold category. destruct (decide _); [by left | by right]. Qed.

Lemma notna_categories {A} (f : A → cell) (l : list A) :
  List.filter Pd.notna (map (fun r => category (f r)) l)
  = map (fun r => category (f r)) l.
Proof.
  induction l as [|r l IH]; simpl; [done|]. rewrite IH.
  by destruct (category_cases (f r)) as [-> | ->].
Qed.

Lemma occ_map {A} (f : A → cell) k (l : list A) :
  occ k (map f l) = length (List.filter (fun r => bool_decide (f r = k)) l).
Proof. unfold occ. by rewrite filter_map_comm, length_map. Qed.

Lemma occ_two_valued {A} (f : A → cell) (l : list A) :
  occ (str "Normal") (map (fun r => category (f r)) l)
  + occ (str "Attack") (map (fun r => category (f r)) l) = length l.
Proof.
  induction l as [|r l IH]; [done|]. cbn [map]. rewrite !occ_cons.
  cbn [length].
  destruct (category_cases (f r)) as [-> | ->];
    repeat case_decide; first [ done | lia ].
Qed.

(** The rows the loader marks as attacks, counted over its table. *)
Lemma occ_attack_loaded raw :
  Forall (fun r => length (snd r) = 42) (body raw) →
  occ (str "Attack")
      (map (fun r => category (nth 41 (snd r) VNaN)) (body raw))
  = length (attack_positions (derive (named raw))).
Proof.
  intros Hwide. rewrite <- attack_count, occ_map.
  unfold rows_of. cbn [derive named body]. rewrite map_map. cbn [snd].
  rewrite filter_map_comm, length_map. f_equal.
  apply List.filter_ext_in. intros r Hr%list_elem_of_In.
  rewrite Forall_forall in Hwide. unfold is_attack.
  by rewrite (cell_of_loaded_category raw) by (by apply Hwide).
Qed.

(** X4.  A loader that returns has printed five things: the title of
    the preview, the preview, the size, the title of the distribution and
    the distribution.  The size is (N, 42) for a table of N rows, although
    the table returned has 43 columns.  The preview holds the first five
    rows (all of them when there are fewer) under the 42 schema names.  The
    distribution has one entry for "Attack" with the number of attack rows
    and one for "Normal" with the number of the other rows, an entry being
    left out when its count is zero; the larger count stands first and the
    counts add up to N. *)
Theorem loader_report w w' df :
  load_and_prepare_data w = (w', Done df) →
  ∃ tbl preview dist,
    heap w' !! df = Some tbl ∧
    emitted w w' =
      [ SayHeadTitle; SayHead preview; SaySize (Pd.len tbl, 42);
        SayDistributionTitle; SayDistribution dist ] ∧
    Pd.shape tbl = (Pd.len tbl, 43) ∧
    columns preview = map Name KDD_COLUMNS ∧
    body preview = take 5 (map (fun r => (fst r, take 42 (snd r))) (body tbl)) ∧
    (∀ k n, (k, n) ∈ dist ↔
       0 < n ∧
       (k = str "Attack" ∧ n = length (attack_positions tbl) ∨
        k = str "Normal" ∧ n = Pd.len tbl - length (attack_positions tbl))) ∧
    NoDup (map fst dist) ∧
    (∀ a b, precedes dist a b → snd b ≤ snd a) ∧
    sum_list (map snd dist) = Pd.len tbl.
Proof.
  intros (lines & raw & Hf & Hread & Hwidth & Htbl & Hout & _)%load_table.
  destruct (read_csv_body _ _ Hread) as [_ Hwide]. rewrite Hwidth in Hwide.
  eexists _, _, _. split; [exact Htbl|].
  assert (Pd.len (derive (named raw)) = length (body raw)) as Hlen
    by (unfold Pd.len; cbn [derive named body]; by rewrite length_map).
  split.
  { apply emitted_app. rewrite Hout. unfold load_events. do 3 f_equal.
    unfold Pd.shape. cbn [named body columns]. by rewrite Hlen. }
  split; [unfold Pd.shape, Pd.len; by f_equal|].
  split; [done|].
  split.
  { cbn [Pd.head named body columns].
    by rewrite (derive_take (named raw)). }
  unfold Pd.value_counts. rewrite map_map. cbn [snd named body].
  rewrite (notna_categories (fun r => nth 41 (snd r) VNaN)).
  set (cs := map _ (body raw)).
  pose proof (occ_attack_loaded raw Hwide) as Hatt. fold cs in Hatt.
  pose proof (occ_two_valued (fun r => nth 41 (snd r) VNaN) (body raw))
    as Hsum. cbv beta in Hsum. fold cs in Hsum.
  rewrite Hlen. split; [|split; [|split]].
  - intros k n. rewrite counted_elem, <- Hatt. split.
    + intros [Hk ->]. split; [by apply occ_positive|].
      apply list_elem_of_fmap in Hk as (r & -> & _).
      destruct (category_cases (nth 41 (snd r) VNaN)) as [-> | ->];
        [right | left]; (split; [done | lia]).
    + intros [Hpos [[-> ->] | [-> ->]]].
      * split; [by apply occ_positive | done].
      * assert (occ (str "Normal") cs = length (body raw) - occ (str "Attack") cs)
          as <- by lia.
        rewrite <- Hsum in Hpos.
        split; [apply occ_positive; lia | done].
  - rewrite sort_values_perm. apply tally_NoDup.
  - apply counted_descending.
  - change (map snd ?l) with (snd <$> l). rewrite sort_values_perm.
    change (snd <$> ?l) with (map snd l). rewrite tally_sum.
    unfold cs. by rewrite length_map.
Qed.

Lemma loader_report_witness :
  ∃ tbl preview dist,
    heap sample_world !! 0 = Some tbl ∧
    emitted (on_disk sample_file) sample_world =
      [ SayHeadTitle; SayHead preview; SaySize (Pd.len tbl, 42);
        SayDistributionTitle; SayDistribution dist ] ∧
    sum_list (map snd dist) = Pd.len tbl.
Proof.
  destruct (loader_report (on_disk sample_file) sample_world 0 sample_loaded)
    as (tbl & preview & dist & Htbl & Hout & _ & _ & _ & _ & _ & _ & Hsum).
  exists tbl, preview, dist.
  split; [exact Htbl|]. split; [exact Hout | exact Hsum].
Defined.

(** *** The shape of a loaded table, and tables that were not loaded *)

(** X5.  The table the loader returns has one row per non-empty line of
    the file, labelled 0, 1, 2, ... in file order, and every row has 43
    cells, one under each of the 42 schema names and one under
    attack_category. *)
Theorem loaded_table_shape w w' df :
  load_and_prepare_data w = (w', Done df) →
  ∃ lines tbl,
    disk w !! FILE_NAME = Some lines ∧
    heap w' !! df = Some tbl ∧
    columns tbl = map Name KDD_COLUMNS ++ [Name "attack_category"] ∧
    map fst (body tbl)
      = map Z.of_nat (seq 0 (length (List.filter Pd.nonblank lines))) ∧
    Forall (fun r => length (snd r) = 43) (body tbl).
Proof.
  intros (lines & raw & Hf & Hread & Hwidth & Htbl & _)%load_table.
  exists lines, (derive (named raw)).
  split; [done|]. split; [done|]. split; [done|].
  destruct (loaded_viewable _ _ Hread Hwidth) as [V _].
  split; [|exact (rectangular _ V)].
  destruct (read_csv_shape _ _ Hread) as (rows & Hraw & _ & Hlen & _).
  rewrite derive_fst. cbn [named body]. rewrite Hraw. cbn [body].
  by rewrite range_index_fst, Hlen.
Qed.

Lemma loaded_table_shape_witness :
  ∃ lines tbl,
    disk (on_disk sample_file) !! FILE_NAME = Some lines ∧
    heap sample_world !! 0 = Some tbl ∧
    columns tbl = map Name KDD_COLUMNS ++ [Name "attack_category"] ∧
    map fst (body tbl)
      = map Z.of_nat (seq 0 (length (List.filter Pd.nonblank lines))) ∧
    Forall (fun r => length (snd r) = 43) (body tbl).
Proof.
  exact (loaded_table_shape (on_disk sample_file) sample_world 0 sample_loaded).
Defined.

Lemma position_app_None c (cols more : list label) :
  Pd.position c cols = None → Pd.position c more = None →
  Pd.position c (cols ++ more) = None.
Proof.
  induction cols as [|x cols IH]; simpl; [done|].
  destruct (decide (x = c)); [done|].
  destruct (Pd.position c cols); [done|]. intros _ H. by rewrite IH.
Qed.

(** X6.  On a table that has neither the column attack_category nor a
    column time (the frame the generator returns is one) both views raise
    [KeyError].  The top-attack view leaves the world as it found it; the
    trend view has by then put the time column into the table, and has
    printed nothing. *)
Theorem views_need_category w df tbl :
  heap w !! df = Some tbl →
  Pd.position "attack_category" (columns tbl) = None →
  Pd.position "time" (columns tbl) = None →
  plot_top_attacks df w = (w, Raise KeyError) ∧
  plot_attack_trend df w =
    (World (rng w) (disk w) (<[df := timed tbl]> (heap w)) (console w),
     Raise KeyError).
Proof.
  intros Hdf Hcat Htime. split.
  { unfold plot_top_attacks, attack_rows, bind, deref, lift, Pd.getitem.
    by rewrite Hdf, Hcat. }
  assert (df < length (heap w)) as Hlt by (by eapply lookup_lt_Some).
  unfold plot_attack_trend.
  rewrite (bind_done _ _ w w tbl) by (unfold deref; by rewrite Hdf).
  rewrite (bind_done _ _ w w (timed tbl))
    by (unfold lift; by rewrite setitem_time).
  erewrite bind_done by reflexivity. cbv zeta.
  erewrite bind_raise; [reflexivity|].
  unfold attack_rows, bind, deref, lift, Pd.getitem. cbn [heap].
  rewrite list_lookup_insert_eq by done. cbn [timed columns].
  by rewrite (position_app_None _ _ _ Hcat).
Qed.

Lemma views_need_category_witness :
  ∃ w1 g gen,
    generate_synthetic_data 2 blank_world = (w1, Done g) ∧
    heap w1 !! g = Some gen ∧
    plot_top_attacks g w1 = (w1, Raise KeyError) ∧
    snd (plot_attack_trend g w1) = Raise KeyError ∧
    heap (fst (plot_attack_trend g w1)) !! g = Some (timed gen).
Proof.
  destruct (generate_synthetic_data_exec 2 blank_world)
    as (rng' & rows & Hrun & _ & _).
  eexists _, _, _. split; [exact Hrun|]. cbn [heap].
  split; [reflexivity|].
  edestruct (views_need_category
               (World rng'
                  (<[FILE_NAME := map (map Pd.cell_text) rows]> (disk blank_world))
                  (heap blank_world ++
                     [mkDF (map Name KDD_COLUMNS) (Pd.range_index rows)])
                  (console blank_world ++
                     [SayGenerating 2; SaySaved (length rows, 42)]))
               (length (heap blank_world))
               (mkDF (map Name KDD_COLUMNS) (Pd.range_index rows)))
    as [Htop Htrend]; [reflexivity..|].
  split; [exact Htop|]. rewrite Htrend. split; reflexivity.
Defined.

(** *** Totals of the two aggregates *)

Lemma attack_positions_NoDup tbl : NoDup (attack_positions tbl).
Proof.
  apply NoDup_ListNoDup, List.NoDup_filter, NoDup_ListNoDup, NoDup_seq.
Qed.

Lemma NoDup_within (l : list nat) (lo n : nat) :
  NoDup l → Forall (fun p => lo ≤ p < lo + n) l → length l ≤ n.
Proof.
  intros Hnd Hall. rewrite <- (length_seq n lo).
  apply submseteq_length, NoDup_submseteq; [done|].
  intros p Hp. rewrite Forall_forall in Hall. specialize (Hall p Hp).
  apply elem_of_seq. lia.
Qed.

Lemma attacks_in_bound tbl i : attacks_in tbl i ≤ 1000.
Proof.
  unfold attacks_in.
  destruct (decide (0 <= i)%Z) as [Hi|Hi].
  - apply (NoDup_within _ (Z.to_nat (1000 * i))).
    + apply NoDup_ListNoDup, List.NoDup_filter, NoDup_ListNoDup,
        attack_positions_NoDup.
    + apply Forall_forall. intros p Hp%list_elem_of_In.
      apply List.filter_In in Hp as [_ Hp]. apply Z.eqb_eq in Hp.
      rewrite interval_of in Hp. lia.
  - destruct (length (List.filter _ (attack_positions tbl))) eqn:Hn; [lia|].
    destruct (filter_positive (fun p => (Z.of_nat p / 1000 =? i)%Z)
                (attack_positions tbl)) as (p & _ & Hp); [lia|].
    apply Z.eqb_eq in Hp. rewrite interval_of in Hp. lia.
Qed.

Lemma trend_entry tbl k n :
  (k, n) ∈ trend_of tbl →
  ∃ i, k = VInt i ∧ (0 <= 1000 * i < Z.of_nat (Pd.len tbl))%Z ∧ 0 < n ≤ 1000.
Proof.
  intros (i & -> & -> & Hpos)%trend_elem. exists i. split; [done|].
  split; [|split; [done | apply attacks_in_bound]].
  destruct (filter_positive _ _ Hpos) as (p & Hp & Hi).
  apply Z.eqb_eq in Hi. rewrite interval_of in Hi.
  pose proof (attack_positions_bound tbl) as Hb. rewrite Forall_forall in Hb.
  specialize (Hb p Hp). lia.
Qed.

Lemma trend_length tbl : length (trend_of tbl) ≤ (Pd.len tbl + 999) / 1000.
Proof.
  rewrite <- (length_map fst).
  set (n := (Pd.len tbl + 999) / 1000).
  rewrite <- (length_seq n 0), <- (length_map (fun i => VInt (Z.of_nat i))).
  apply submseteq_length, NoDup_submseteq; [apply trend_NoDup|].
  intros k ([k' m] & -> & Hin)%list_elem_of_fmap.
  apply trend_entry in Hin as (i & -> & Hi & _). cbn [fst].
  apply list_elem_of_fmap. exists (Z.to_nat i).
  split; [f_equal; lia|]. apply elem_of_seq.
  assert (Z.to_nat i < n); [|lia]. unfold n.
  apply Nat.div_le_lower_bound; lia.
Qed.

Lemma trend_sum tbl :
  sum_list (map snd (trend_of tbl)) = length (attack_positions tbl).
Proof.
  unfold trend_of. change (map snd ?l) with (snd <$> l).
  rewrite sort_by_perm. change (snd <$> ?l) with (map snd l).
  rewrite tally_sum. unfold interval_keys. by rewrite length_map.
Qed.

(** X7.  The aggregate of the trend view on a loaded table of N rows:
    its counts add up to the number of attack rows; every entry is for an
    interval index i with 0 <= 1000 i < N and has a count between 1 and
    1000; there are at most ceil(N / 1000) entries. *)
Theorem attack_trend_totals w0 w1 w df :
  load_and_prepare_data w0 = (w1, Done df) →
  heap w !! df = heap w1 !! df →
  ∃ tbl w' trend,
    heap w !! df = Some tbl ∧
    plot_attack_trend df w = (w', Done tt) ∧
    emitted w w' = [trend_event trend] ∧
    sum_list (map snd trend) = length (attack_positions tbl) ∧
    Forall (fun e => ∃ i, fst e = VInt i ∧
                          (0 <= 1000 * i < Z.of_nat (Pd.len tbl))%Z ∧
                          0 < snd e ≤ 1000) trend ∧
    length trend ≤ (Pd.len tbl + 999) / 1000.
Proof.
  intros Hload Hsame.
  destruct (loaded_in _ _ _ _ Hload Hsame) as (tbl & Htbl & V & Htime & _).
  exists tbl. eexists _, (trend_of tbl). split; [exact Htbl|].
  split; [apply (plot_attack_trend_exec _ _ _ Htbl V Htime)|].
  split; [by apply emitted_app|]. split; [apply trend_sum|].
  split; [|apply trend_length].
  apply Forall_forall. intros [k n] Hin. by apply trend_entry.
Qed.

Lemma attack_trend_totals_witness :
  ∃ tbl w' trend,
    heap sample_world !! 0 = Some tbl ∧
    plot_attack_trend 0 sample_world = (w', Done tt) ∧
    emitted sample_world w' = [trend_event trend] ∧
    sum_list (map snd trend) = length (attack_positions tbl) ∧
    length trend ≤ (Pd.len tbl + 999) / 1000.
Proof.
  destruct (attack_trend_totals (on_disk sample_file) sample_world
              sample_world 0 sample_loaded eq_refl)
    as (tbl & w' & trend & Htbl & Hrun & Hout & Hsum & _ & Hlen).
  exists tbl, w', trend.
  split; [exact Htbl|]. split; [exact Hrun|]. split; [exact Hout|].
  split; [exact Hsum | exact Hlen].
Defined.

(** *** The top-attack total *)

Lemma sum_list_take_drop (n : nat) (l : list nat) :
  sum_list l = sum_list (take n l) + sum_list (drop n l).
Proof.
  revert n. induction l as [|x l IH]; intros [|n]; simpl; try done.
  rewrite (IH n). lia.
Qed.

Lemma sum_positive (l : list nat) :
  Forall (fun n => 0 < n) l → sum_list l = 0 → l = [].
Proof. destruct 1; simpl; [done | lia]. Qed.

Lemma tally_length (l : list cell) :
  length (Pd.tally l) = length (remove_dups l).
Proof.
  rewrite <- (length_map fst). apply Permutation_length, NoDup_Permutation.
  - apply tally_NoDup.
  - apply NoDup_remove_dups.
  - intros k. by rewrite tally_keys, elem_of_remove_dups.
Qed.

Lemma notna_filter_id (l : list cell) :
  List.filter Pd.notna l = l ↔ VNaN ∉ l.
Proof.
  induction l as [|x l IH]; simpl.
  - split; [intros _; apply not_elem_of_nil | done].
  - rewrite not_elem_of_cons, <- IH. destruct x; simpl.
    1-3: split; [intros [= Heq]; by rewrite Heq | by intros [_ ->]].
    split; [|by intros [[] _]]. intros H. exfalso.
    pose proof (List.filter_length_le Pd.notna l) as Hle.
    rewrite H in Hle. simpl in Hle. lia.
Qed.

Lemma notna_filter_length (l : list cell) :
  length (List.filter Pd.notna l) = length l → List.filter Pd.notna l = l.
Proof.
  induction l as [|x l IH]; simpl; [done|].
  pose proof (List.filter_length_le Pd.notna l) as Hle.
  destruct (Pd.notna x); simpl; [|lia]. intros [= H]. by rewrite IH.
Qed.

Section TopTotal.
Context (tbl : DataFrame).

Lemma attack_labels_cells :
  attack_labels tbl = List.filter Pd.notna (attack_type_cells tbl).
Proof. done. Qed.

Lemma attack_cells_length :
  length (attack_type_cells tbl) = length (attack_positions tbl).
Proof. unfold attack_type_cells. by rewrite length_map, attack_count. Qed.

Lemma top_counts_positive :
  Forall (fun n => 0 < n)
    (map snd (Pd.sort_values (Pd.tally (attack_labels tbl)))).
Proof.
  apply Forall_fmap, Forall_forall. intros [k n] [Hk ->]%counted_elem.
  by apply occ_positive.
Qed.

Lemma top_sum_full :
  sum_list (map snd (Pd.sort_values (Pd.tally (attack_labels tbl))))
  = length (attack_labels tbl).
Proof.
  change (map snd ?l) with (snd <$> l). rewrite sort_values_perm.
  change (snd <$> ?l) with (map snd l). apply tally_sum.
Qed.

Lemma top_total :
  (VNaN ∉ map fst (top_of tbl)) ∧
  sum_list (map snd (top_of tbl)) ≤ length (attack_positions tbl) ∧
  (sum_list (map snd (top_of tbl)) = length (attack_positions tbl) ↔
     (VNaN ∉ attack_type_cells tbl) ∧
     length (remove_dups (attack_type_cells tbl)) ≤ 10).
Proof.
  unfold top_of.
  set (full := Pd.sort_values (Pd.tally (attack_labels tbl))).
  pose proof top_sum_full as Hfull. fold full in Hfull.
  pose proof (sum_list_take_drop 10 (map snd full)) as Hsplit.
  rewrite <- !fmap_take, <- !fmap_drop in Hsplit.
  change (?f <$> ?l) with (map f l) in Hsplit.
  pose proof (List.filter_length_le Pd.notna (attack_type_cells tbl)) as Hle.
  rewrite <- attack_labels_cells in Hle.
  pose proof attack_cells_length as Hcells.
  assert (length full = length (remove_dups (attack_labels tbl))) as Hdistinct
    by (unfold full; by rewrite sort_values_length, tally_length).
  split; [|split; [lia|]].
  - intros ([k n] & Hk & Hin)%list_elem_of_fmap. cbn [fst] in Hk. subst k.
    apply subseteq_take in Hin. apply counted_elem in Hin as [Hin _].
    apply list_elem_of_In, List.filter_In in Hin as [_ Hin]. done.
  - split.
    + intros Hsum.
      assert (List.filter Pd.notna (attack_type_cells tbl)
              = attack_type_cells tbl) as Hall
        by (apply notna_filter_length; rewrite <- attack_labels_cells; lia).
      split; [by apply notna_filter_id|].
      rewrite <- Hall, <- attack_labels_cells, <- Hdistinct.
      assert (map snd (drop 10 full) = []) as Hnil.
      { apply sum_positive; [|lia].
        change (map snd ?l) with (snd <$> l). rewrite fmap_drop.
        apply Forall_drop, top_counts_positive. }
      apply (f_equal length) in Hnil.
      rewrite length_map, length_drop in Hnil. simpl in Hnil. lia.
    + intros [Hnone Hfew]. apply notna_filter_id in Hnone.
      rewrite <- attack_labels_cells in Hnone.
      rewrite <- Hnone, <- Hdistinct in Hfew.
      rewrite take_ge by done. rewrite Hfull. by rewrite Hnone.
Qed.

End TopTotal.

(** X8.  The aggregate of the top-attack view on a loaded table: the
    missing value is never one of its keys; its counts add up to at most the
    number of attack rows, and to exactly that number if and only if no
    attack row lacks its attack_type and the attack rows carry at most ten
    distinct labels. *)
Theorem top_attacks_totals w0 w1 w df :
  load_and_prepare_data w0 = (w1, Done df) →
  heap w !! df = heap w1 !! df →
  ∃ tbl w' top,
    heap w !! df = Some tbl ∧
    plot_top_attacks df w = (w', Done tt) ∧
    emitted w w' = [top_event top] ∧
    (VNaN ∉ map fst top) ∧
    sum_list (map snd top) ≤ length (attack_positions tbl) ∧
    (sum_list (map snd top) = length (attack_positions tbl) ↔
       (VNaN ∉ attack_type_cells tbl) ∧
       length (remove_dups (attack_type_cells tbl)) ≤ 10).
Proof.
  intros Hload Hsame.
  destruct (loaded_in _ _ _ _ Hload Hsame) as (tbl & Htbl & V & _).
  exists tbl. eexists _, (top_of tbl). split; [exact Htbl|].
  split; [apply (plot_top_attacks_exec _ _ _ Htbl V)|].
  split; [by apply emitted_app|]. apply top_total.
Qed.

Lemma top_attacks_totals_witness :
  ∃ tbl w' top,
    heap sample_world !! 0 = Some tbl ∧
    plot_top_attacks 0 sample_world = (w', Done tt) ∧
    emitted sample_world w' = [top_event top] ∧
    sum_list (map snd top) ≤ length (attack_positions tbl).
Proof.
  destruct (top_attacks_totals (on_disk sample_file) sample_world
              sample_world 0 sample_loaded eq_refl)
    as (tbl & w' & top & Htbl & Hrun & Hout & _ & Hsum & _).
  exists tbl, w', top.
  split; [exact Htbl|]. split; [exact Hrun|]. split; [exact Hout | exact Hsum].
Defined.

(** *** The views one after the other *)

Lemma cell_of_timed_old tbl c row v j :
  Pd.position c (columns tbl) = Some j →
  length row = length (columns tbl) →
  cell_of (timed tbl) c (row ++ [v]) = cell_of tbl c row.
Proof.
  intros Hj Hlen. unfold cell_of. cbn [timed columns].
  rewrite (position_app_l _ _ _ _ Hj), Hj.
  apply position_lt in Hj. by rewrite app_nth1 by lia.
Qed.

Lemma rows_of_timed tbl :
  rows_of (timed tbl)
  = zip_with (fun r v => r ++ [v]) (rows_of tbl)
             (map VInt (seqZ 0 (Z.of_nat (length (rows_of tbl))))).
Proof.
  rewrite zip_with_positions. unfold rows_of. cbn [timed body].
  change (map snd ?l) with (snd <$> l). by rewrite fmap_imap, imap_fmap.
Qed.

Lemma extended_cells tbl : ∀ (rows : list (list cell)) (vs : list cell),
  viewable tbl →
  Forall (fun r => length r = length (columns tbl)) rows →
  length vs = length rows →
  map (cell_of (timed tbl) "attack_type")
      (List.filter (is_attack (timed tbl))
                   (zip_with (fun r v => r ++ [v]) rows vs))
  = map (cell_of tbl "attack_type") (List.filter (is_attack tbl) rows).
Proof.
  intros rows vs V Hall. revert vs.
  induction Hall as [|r rows Hr Hrows IH]; intros [|v vs] Hlen; try done.
  cbn [zip_with List.filter]. rewrite (is_attack_timed _ _ _ V Hr).
  destruct (has_type _ V) as [j Hj].
  destruct (is_attack tbl r); cbn [map].
  - rewrite (cell_of_timed_old _ _ _ _ _ Hj Hr). f_equal.
    apply IH. simpl in Hlen. lia.
  - apply IH. simpl in Hlen. lia.
Qed.

Lemma rows_of_rectangular tbl :
  viewable tbl →
  Forall (fun r => length r = length (columns tbl)) (rows_of tbl).
Proof.
  intros V. unfold rows_of. apply Forall_fmap.
  exact (rectangular _ V).
Qed.

(** The added column does not show in what the top-attack view counts. *)
Lemma top_of_timed tbl : viewable tbl → top_of (timed tbl) = top_of tbl.
Proof.
  intros V. unfold top_of. do 3 f_equal.
  rewrite !attack_labels_cells. f_equal. unfold attack_type_cells.
  rewrite rows_of_timed. apply extended_cells; [done | |].
  - by apply rows_of_rectangular.
  - by rewrite length_map, length_seqZ, Nat2Z.id.
Qed.

(** Setting the column a second time changes nothing. *)
Lemma setitem_time_again tbl :
  viewable tbl → Pd.position "time" (columns tbl) = None →
  Pd.setitem_values (timed tbl) "time"
    (map VInt (seqZ 0 (Z.of_nat (Pd.len (timed tbl)))))
  = Done (timed tbl).
Proof.
  intros V Hpos. unfold Pd.setitem_values, Pd.len.
  rewrite length_map, length_seqZ, Nat2Z.id, Nat.eqb_refl.
  rewrite zip_with_positions. cbn [timed columns body].
  rewrite (position_app_new _ _ Hpos). f_equal. unfold timed. f_equal.
  apply list_eq. intros i. rewrite !list_lookup_imap.
  destruct (body tbl !! i) as [r|] eqn:Hr; [|done]. cbn. do 2 f_equal.
  pose proof (rectangular _ V) as Hrect. rewrite Forall_forall in Hrect.
  rewrite <- (Hrect r) by (by eapply list_elem_of_lookup_2).
  rewrite insert_app_r_alt by lia. by rewrite Nat.sub_diag.
Qed.

(** The trend view on a table that already has its column. *)
Lemma plot_attack_trend_again w df tbl :
  heap w !! df = Some (timed tbl) → viewable tbl →
  Pd.position "time" (columns tbl) = None →
  plot_attack_trend df w =
    (World (rng w) (disk w) (heap w ++ [attack_part (timed tbl)])
       (console w ++ [trend_event (trend_of tbl)]),
     Done tt).
Proof.
  intros Hdf V Hpos.
  assert (df < length (heap w)) as Hlt by (by eapply lookup_lt_Some).
  set (w1 := World (rng w) (disk w) (heap w) (console w)).
  assert (heap w1 !! df = Some (timed tbl)) as Hdf1 by done.
  pose proof (timed_viewable _ V) as V1.
  unfold plot_attack_trend.
  rewrite (bind_done _ _ w w (timed tbl)) by (unfold deref; by rewrite Hdf).
  rewrite (bind_done _ _ w w (timed tbl))
    by (unfold lift; by rewrite setitem_time_again).
  rewrite (bind_done _ _ w w1 tt)
    by (unfold assign, w1; by rewrite list_insert_id).
  cbv zeta.
  rewrite (bind_done _ _ _ _ _ (attack_rows_exec _ _ _ Hdf1 V1)).
  unfold bind, deref, lift. cbn [heap].
  rewrite deref_alloc_last. cbn [heap disk rng console].
  assert ((heap w1 ++ [attack_part (timed tbl)]) !! df = Some (timed tbl))
    as -> by (by rewrite lookup_app_l).
  rewrite (getitem_cell_of (timed tbl) "time")
    by (exists (length (columns tbl)); by apply position_app_new).
  rewrite floordiv_ints.
  - rewrite (groupby_trend _ V Hpos). unfold trend_event, w1, print.
    cbn [heap disk rng console]. by destruct (trend_of tbl).
  - apply Forall_forall. intros p (r & -> & Hr)%list_elem_of_fmap. cbn [snd].
    cbn [timed body] in Hr. apply list_elem_of_lookup in Hr as [i Hi].
    rewrite list_lookup_imap in Hi.
    destruct (body tbl !! i) as [r0|] eqn:Hr0; [|done].
    injection Hi as <-. cbn [snd]. exists (Z.of_nat i).
    apply time_of_timed; [done|].
    pose proof (rectangular _ V) as Hrect. rewrite Forall_forall in Hrect.
    apply Hrect. by eapply list_elem_of_lookup_2.
Qed.

(** X9.  On a loaded table the two views can be run in either order:
    both orders end normally, report the same top-attack aggregate and the
    same trend aggregate, and leave the same table behind. *)
Theorem views_in_either_order w0 w1 w df :
  load_and_prepare_data w0 = (w1, Done df) →
  heap w !! df = heap w1 !! df →
  ∃ top trend tbl' wa wb,
    (plot_top_attacks df;; plot_attack_trend df) w = (wa, Done tt) ∧
    (plot_attack_trend df;; plot_top_attacks df) w = (wb, Done tt) ∧
    emitted w wa = [top_event top; trend_event trend] ∧
    emitted w wb = [trend_event trend; top_event top] ∧
    heap wa !! df = Some tbl' ∧
    heap wb !! df = Some tbl'.
Proof.
  intros Hload Hsame.
  destruct (loaded_in _ _ _ _ Hload Hsame) as (tbl & Htbl & V & Htime & _).
  assert (df < length (heap w)) as Hlt by (by eapply lookup_lt_Some).
  exists (top_of tbl), (trend_of tbl), (timed tbl). eexists _, _.
  split.
  { rewrite (bind_done _ _ _ _ _ (plot_top_attacks_exec _ _ _ Htbl V)).
    apply (plot_attack_trend_exec _ _ tbl); [|done..].
    cbn [heap]. by rewrite lookup_app_l. }
  split.
  { rewrite (bind_done _ _ _ _ _ (plot_attack_trend_exec _ _ _ Htbl V Htime)).
    apply (plot_top_attacks_exec _ _ (timed tbl)); [|by apply timed_viewable].
    cbn [heap]. rewrite lookup_app_l by (by rewrite length_insert).
    by apply list_lookup_insert_eq. }
  cbn [heap console]. rewrite (top_of_timed _ V).
  split; [apply emitted_app; cbn [console]; by rewrite <- app_assoc|].
  split; [apply emitted_app; cbn [console]; by rewrite <- app_assoc|].
  split.
  - rewrite lookup_app_l by (rewrite length_insert, length_app; lia).
    apply list_lookup_insert_eq. rewrite length_app. lia.
  - rewrite lookup_app_l by (rewrite length_app, length_insert; lia).
    rewrite lookup_app_l by (by rewrite length_insert).
    by apply list_lookup_insert_eq.
Qed.

Lemma views_in_either_order_witness :
  ∃ top trend tbl' wa wb,
    (plot_top_attacks 0;; plot_attack_trend 0) sample_world = (wa, Done tt) ∧
    (plot_attack_trend 0;; plot_top_attacks 0) sample_world = (wb, Done tt) ∧
    emitted sample_world wa = [top_event top; trend_event trend] ∧
    emitted sample_world wb = [trend_event trend; top_event top] ∧
    heap wa !! 0 = Some tbl' ∧
    heap wb !! 0 = Some tbl'.
Proof.
  exact (views_in_either_order (on_disk sample_file) sample_world sample_world
           0 sample_loaded eq_refl).
Defined.

(** X10.  Running the trend view a second time on the same table ends
    normally, reports the same aggregate as the first time and leaves the
    table as the first run left it: the time column is overwritten with the
    same values, no second column is added. *)
Theorem attack_trend_twice w0 w1 w df :
  load_and_prepare_data w0 = (w1, Done df) →
  heap w !! df = heap w1 !! df →
  ∃ trend tbl' wa wb,
    plot_attack_trend df w = (wa, Done tt) ∧
    plot_attack_trend df wa = (wb, Done tt) ∧
    emitted w wa = [trend_event trend] ∧
    emitted wa wb = [trend_event trend] ∧
    heap wa !! df = Some tbl' ∧
    heap wb !! df = Some tbl'.
Proof.
  intros Hload Hsame.
  destruct (loaded_in _ _ _ _ Hload Hsame) as (tbl & Htbl & V & Htime & _).
  assert (df < length (heap w)) as Hlt by (by eapply lookup_lt_Some).
  exists (trend_of tbl), (timed tbl). eexists _, _.
  split; [apply (plot_attack_trend_exec _ _ _ Htbl V Htime)|].
  assert ((<[df := timed tbl]> (heap w) ++ [attack_part (timed tbl)]) !! df
          = Some (timed tbl)) as Hdf.
  { rewrite lookup_app_l by (by rewrite length_insert).
    by apply list_lookup_insert_eq. }
  split; [by apply (plot_attack_trend_again _ _ tbl)|].
  cbn [heap console].
  split; [by apply emitted_app|]. split; [by apply emitted_app|].
  split; [exact Hdf|].
  rewrite lookup_app_l; [exact Hdf|].
  rewrite length_app, length_insert. lia.
Qed.

Lemma attack_trend_twice_witness :
  ∃ trend tbl' wa wb,
    plot_attack_trend 0 sample_world = (wa, Done tt) ∧
    plot_attack_trend 0 wa = (wb, Done tt) ∧
    emitted sample_world wa = [trend_event trend] ∧
    emitted wa wb = [trend_event trend] ∧
    heap wa !! 0 = Some tbl' ∧
    heap wb !! 0 = Some tbl'.
Proof.
  exact (attack_trend_twice (on_disk sample_file) sample_world sample_world
           0 sample_loaded eq_refl).
Defined.

(** *** The main block *)

Lemma finally_keeps {A} (m : M A) w w' (r : outcome A) :
  m w = (w', r) → try_finally m finally_clause w = (w', r).
Proof.
  intros H. unfold try_finally, finally_clause, bind, path_exists, ret.
  rewrite H. by destruct (bool_decide _).
Qed.

Lemma trend_empty tbl : trend_of tbl = [] ↔ attack_positions tbl = [].
Proof.
  unfold trend_of, interval_keys. split.
  - intros H. apply (f_equal length) in H. rewrite sort_by_length in H.
    apply nil_length_inv, tally_nil in H. by destruct (attack_positions tbl).
  - by intros ->.
Qed.

Lemma top_empty tbl :
  VNaN ∉ attack_type_cells tbl →
  (top_of tbl = [] ↔ attack_positions tbl = []).
Proof.
  intros Hnone. apply notna_filter_id in Hnone.
  pose proof (attack_cells_length tbl) as Hlen.
  unfold top_of. rewrite attack_labels_cells, Hnone. split.
  - intros H. apply (f_equal length) in H.
    rewrite length_take, sort_values_length in H. cbn [length] in H.
    assert (length (Pd.tally (attack_type_cells tbl)) = 0) as H0 by lia.
    apply nil_length_inv, tally_nil in H0. rewrite H0 in Hlen.
    by destruct (attack_positions tbl).
  - intros H. rewrite H in Hlen.
    by destruct (attack_type_cells tbl).
Qed.

(** The attack rows of a generated table all carry one of the four
    labels. *)
Lemma generated_cells rows :
  Forall (fun r => row_conforms DECLARED r = true) rows →
  (VNaN ∉
     attack_type_cells
       (derive (mkDF (map Name KDD_COLUMNS) (Pd.range_index rows)))) ∧
  length (remove_dups
            (attack_type_cells
               (derive (mkDF (map Name KDD_COLUMNS) (Pd.range_index rows)))))
    ≤ 4.
Proof.
  intros Hall. pose proof (generated_attack_labels rows Hall) as Hin.
  fold (attack_type_cells
          (derive (mkDF (map Name KDD_COLUMNS) (Pd.range_index rows)))) in Hin.
  rewrite Forall_forall in Hin. split.
  - intros H%Hin. apply list_elem_of_fmap in H as (s & Hs & _). discriminate Hs.
  - apply (submseteq_length _ ATTACK_LABELS).
    apply NoDup_submseteq; [apply NoDup_remove_dups|].
    intros k Hk. rewrite elem_of_remove_dups in Hk. by apply Hin.
Qed.

(** What the main block does when it is configured for at least one
    row. *)
Lemma main_block_exec w num_rows :
  (0 < num_rows)%Z →
  ∃ rng' h rows,
    let gen := mkDF (map Name KDD_COLUMNS) (Pd.range_index rows) in
    length rows = Z.to_nat num_rows ∧
    Forall (fun r => row_conforms DECLARED r = true) rows ∧
    main_block num_rows w =
      (World rng' (<[FILE_NAME := Pd.to_csv gen]> (disk w)) h
         (console w ++
            [SayGenerating num_rows; SaySaved (length rows, 42)] ++
            load_events gen ++
            [top_event (top_of (derive gen));
             trend_event (trend_of (derive gen)); SayComplete]),
       Done tt).
Proof.
  intros Hpos.
  destruct (generate_then_load w num_rows Hpos)
    as (rng' & rows & Hlen & Hall & Hgen & Hread & Hload).
  cbv zeta in *. set (gen := mkDF _ (Pd.range_index rows)) in *.
  destruct (loaded_viewable _ _ Hread eq_refl) as [V Htime].
  change (named _) with gen in V, Htime.
  exists rng'. eexists. exists rows. split; [done|]. split; [done|].
  apply finally_keeps. unfold run, try_except.
  rewrite (bind_done _ _ _ _ _ Hgen), (bind_done _ _ _ _ _ Hload).
  erewrite bind_done.
  2:{ apply (plot_top_attacks_exec _ _ (derive gen)); [|exact V].
      cbn [heap]. apply deref_alloc_last. }
  erewrite bind_done.
  2:{ apply (plot_attack_trend_exec _ _ (derive gen)); [|exact V|exact Htime].
      cbn [heap]. rewrite lookup_app_l by (rewrite !length_app; simpl; lia).
      apply deref_alloc_last. }
  unfold print. cbn [rng disk heap console].
  by rewrite <- !app_assoc.
Qed.

(** X11.  Configured for at least one row, the main block ends without
    an exception for every entropy and every initial world.  It prints, in
    this order, the generator's two messages, the loader's five, the chart
    or notice of each view and the completion message; the size the loader
    prints is the shape the generator saved.  The data file is left on disk
    with one line per row.  Either both views chart or both give their
    notice, and the counts of the two aggregates add up to the same
    number. *)
Theorem main_block_completes w num_rows :
  (0 < num_rows)%Z →
  ∃ w' preview dist top trend,
    main_block num_rows w = (w', Done tt) ∧
    emitted w w' =
      [ SayGenerating num_rows; SaySaved (Z.to_nat num_rows, 42);
        SayHeadTitle; SayHead preview; SaySize (Z.to_nat num_rows, 42);
        SayDistributionTitle; SayDistribution dist;
        top_event top; trend_event trend; SayComplete ] ∧
    length <$> disk w' !! FILE_NAME = Some (Z.to_nat num_rows) ∧
    (top = [] ↔ trend = []) ∧
    sum_list (map snd top) = sum_list (map snd trend).
Proof.
  intros Hpos.
  destruct (main_block_exec w num_rows Hpos)
    as (rng' & h & rows & Hlen & Hall & Hrun).
  cbv zeta in Hrun. set (gen := mkDF _ (Pd.range_index rows)) in *.
  destruct (generated_cells rows Hall) as [Hnone Hfew]. fold gen in Hnone, Hfew.
  eexists _, _, _, (top_of (derive gen)), (trend_of (derive gen)).
  split; [exact Hrun|].
  split.
  { apply emitted_app. cbn [console]. unfold load_events, Pd.shape.
    cbn [gen body columns]. by rewrite range_index_length, Hlen. }
  split.
  { cbn [disk]. rewrite lookup_insert_eq. cbn. unfold Pd.to_csv.
    cbn [gen body]. by rewrite length_map, range_index_length, Hlen. }
  split.
  - by rewrite trend_empty, (top_empty _ Hnone).
  - rewrite trend_sum. apply top_total. split; [done | lia].
Qed.

Lemma main_block_completes_witness :
  (0 < NUM_ROWS)%Z ∧
  ∃ w',
    main_block NUM_ROWS blank_world = (w', Done tt) ∧
    last (emitted blank_world w') = Some SayComplete ∧
    length <$> disk w' !! FILE_NAME = Some (Z.to_nat NUM_ROWS).
Proof.
  split; [done|].
  destruct (main_block_completes blank_world NUM_ROWS eq_refl)
    as (w' & preview & dist & top & trend & Hrun & Hout & Hfile & _).
  exists w'. split; [exact Hrun|].
  split; [by rewrite Hout | exact Hfile].
Defined.

Lemma no_error_event (top trend : list (cell * nat)) e :
  SayError e ∉ [top_event top; trend_event trend; SayComplete].
Proof.
  intros H.
  apply elem_of_cons in H as [H|H]; [by destruct top|].
  apply elem_of_cons in H as [H|H]; [by destruct trend|].
  apply elem_of_cons in H as [H|H]; [done|]. by apply elem_of_nil in H.
Qed.

(** X12.  The main block never lets an exception escape, whatever the
    row count, and leaves the data file on disk with max(0, num_rows) lines.
    With a row count of at least one its last message is the completion
    message and no error is reported; with a row count of zero or less it
    prints the generator's two messages, the report of [EmptyDataError] and
    the hint, and nothing else. *)
Theorem main_block_outcome w num_rows :
  ∃ w',
    main_block num_rows w = (w', Done tt) ∧
    length <$> disk w' !! FILE_NAME = Some (Z.to_nat num_rows) ∧
    if decide (0 < num_rows)%Z
    then last (emitted w w') = Some SayComplete ∧
         ∀ e, SayError e ∉ emitted w w'
    else emitted w w' =
           [ SayGenerating num_rows; SaySaved (0, 42);
             SayError EmptyDataError; SayHint ].
Proof.
  destruct (decide (0 < num_rows)%Z) as [Hpos|Hneg].
  - destruct (main_block_exec w num_rows Hpos)
      as (rng' & h & rows & Hlen & Hall & Hrun).
    cbv zeta in Hrun. eexists. split; [exact Hrun|].
    split.
    { cbn [disk]. rewrite lookup_insert_eq. cbn. unfold Pd.to_csv.
      cbn [body]. by rewrite length_map, range_index_length, Hlen. }
    erewrite emitted_app by reflexivity.
    split.
    + unfold load_events. reflexivity.
    + intros e H. rewrite !elem_of_app in H. destruct H as [H|[H|H]].
      * repeat (apply elem_of_cons in H as [H|H]; [discriminate H|]).
        by apply elem_of_nil in H.
      * unfold load_events in H.
        repeat (apply elem_of_cons in H as [H|H]; [discriminate H|]).
        by apply elem_of_nil in H.
      * by apply no_error_event in H.
  - destruct (generate_synthetic_data_exec num_rows w)
      as (rng' & rows & Hrun & Hlen & _).
    assert (Z.to_nat num_rows = 0) as Hzero by lia. rewrite Hzero in *.
    destruct rows; [|done]. eexists. split.
    { apply finally_keeps. unfold run, try_except.
      rewrite (bind_done _ _ _ _ _ Hrun).
      erewrite bind_raise.
      2:{ apply (load_unreadable _ []); [|reflexivity].
          cbn [disk]. by rewrite lookup_insert_eq. }
      unfold bind, print. cbn [rng disk heap console]. reflexivity. }
    cbn [disk]. split; [by rewrite lookup_insert_eq|].
    apply emitted_app. cbn [console]. by rewrite <- !app_assoc.
Qed.
